(* ===== verification/_CoqProject ===== *)
-Q . S2P
Prelude.v
CppString.v
IStream.v
Vision.v
Shared.v
Detect.v
FileSystem.v
Calendar.v
Handlers.v
CommandLoop.v
System.v
Atomic.v
Snapshot.v
Orchestrator.v
Termination.v
Race.v
Serial.v
Stamps.v
Display.v
Console.v
Scenario.v
