(* ===== verification/Prelude.v ===== *)
(** * Verification of the webcam face-capture program (src/compscifinal.cpp)

    ** The program

    [compscifinal.cpp] is a two-thread coordination layer around an external
    vision library.  The main thread (the _capture loop_, [main], lines
    174-185) reads camera frames and, under [dataMutex], clears the shared
    vector [capturedFaces] and refills it with [detectFaces] (lines 19-33).
    A second thread (the _command loop_, the lambda of [main], lines
    119-173) reads text commands and calls one _handler_ per command under
    the same mutex: [saveCapturedFaces] (36-47), [clearCapturedFaces]
    (50-58), [showCapturedFaces] (61-68), [setMaxFaces] (71-74) and
    [renameFile] (77-102).  The state the threads share is [capturedFaces],
    the global [int maxFaces] and the flag [stopInputThread].

    ** Files of the development, in dependency order

    - [Prelude] (this file): C++ exceptions as values ([exn], [outcome] with
      stdpp's monad notations), the range of [int] ([is_int], [wrap_int]),
      list lemmas, termination from a measure ([sn_measure],
      [nsteps_measure]), the hint database [cfd] and the tactics
      [outcome_inv] and [case_if].
    - [CppString]: the [std::string] operations of the command loop:
      [starts_with] for [command.find(p) == 0], [substr], [to_string] and
      [stoi] (white space, sign, digits, range check), with the round trip
      [stoi (to_string n) = n].
    - [IStream]: standard input as [getline] (line 124) sees it: the
      complete lines still to be read and what follows them (a terminal
      that stays open, or the end of the stream); [getline] and [getlines],
      the values [command] takes over consecutive calls; [reads], the
      history of the calls.
    - [Vision]: the OpenCV capability as the type class [VisionLib]
      ([cvtColor], [detectMultiScale], [rectangle], the region-of-interest
      operator and [resize]) with the laws the program relies on; [crop_face]
      (lines 28-29); the stub instance [StubVision.stub] of the witnesses.
    - [Shared]: the record [shared] ([capturedFaces], [maxFaces]) and its
      well-formedness [shared_wf].
    - [Detect]: [detect_body], [detect_loop] and [detectFaces], statement by
      statement, and [process_frame], the critical section of the capture
      loop (lines 176-178); the reference [detect_reference].
    - [FileSystem]: the capture directory as a finite map from entry names
      to nodes (kind, last-write time, content): [imwrite],
      [remove_regular_files], [most_recent] (the descending sort by
      [last_write_time]), [path_extension], [fs_rename]; the type class
      [Host] for the clock, the calendar format and renames that leave the
      directory, with the classes [SteadyClock] and [PlainCalendar] of the
      hosts on which time stamps do not repeat; [to_time_t].
    - [Calendar]: the C library's calendar, which turns a reading of the
      clock into the time stamp of a file name (lines 39-42): [gmtime],
      [localtime] for a time zone given by its offset, [put_time_fmt] for
      the format of line 41, and the inverse [timegm]; [calendar_host],
      the [Host] with this calendar.
    - [Handlers]: the five handlers, one definition per C++ function, over
      [shared] and the record [world] (directory, clock readings, seconds
      slept, main dispatch queue, console output); [now], [in_time_t] and
      [timestamp] (lines 38-42) and [sleep_for] (line 122).
    - [CommandLoop]: the command loop as a function: [parse_command] (the
      [if]/[else if] chain with the conversions of lines 141 and 161),
      [run_locked] (the bodies of the [lock_guard] blocks), [run_unlocked],
      [prompt] (the pause and the prompt of lines 122-123),
      [command_iteration] (one turn) and [command_loop] (the turns over the
      lines read).
    - [System]: both threads as one transition system: the state [sys]
      (shared data, world, flag, owner of the mutex, one program counter per
      thread, the inputs still to come), [main_step] and [input_step] (the
      statement a thread is at), [thread_step], [reachable] and the
      schedule interpreter [run]; [capture_loop], lines 174-185 as a
      function.  The critical section of the capture loop is split into its
      statements, one step per iteration of the loop of [detectFaces], so a
      half-filled buffer is a state of the system.
    - [Atomic]: the contract of the lock: the system whose critical
      sections are single steps ([atomic_main_step], [atomic_input_step]),
      and the forward simulation [simulation_step] of the interleaved
      system by it.
    - [Snapshot]: what a handler can read: [snapshot], an invariant of the
      atomic system carried to the interleaved system by the simulation.
    - [Orchestrator]: the life cycle of the process: the phases of the
      behavioural description ([phase], [phase_step]), the phase of a
      state ([phase_of]), the stop conditions ([stop_condition]) and the
      measure [steps_to_return] of the statements the command thread can
      still execute once the flag is set.
    - [Termination]: the measure [steps_left] of the steps a run can still
      take on a terminal, schedulers as functions from ticks to threads
      ([exec], [fair]), and the states [livelock] the command thread never
      leaves after the end of standard input.
    - [Race]: the accesses to [capturedFaces], [maxFaces] and
      [stopInputThread] of the statement each thread is at ([main_access],
      [input_access]) and the races between them.
    - [Serial]: the specification above the atomic system: the state as
      the result of a sequence of whole operations ([op], [apply_ops]), the
      frames among them in camera order and the commands in input order
      ([serial]).
    - [Stamps]: the time stamps in the names of the stored faces: the
      invariant [stamps_inv] of the runs without [rename], by which every
      file a [capture] writes is new.
    - [Console]: the characters of every output statement ([render]), with
      the help table of lines 150-159 and the quoting of a printed path.
    - [Scenario]: runs of the whole program on the stub library, evaluated
      by the kernel: the end-to-end run of the behavioural description, the
      runs in which the program departs from it, and runs after the end of
      standard input.

    ** How state and operations correspond to the code

    A C++ function that mutates its reference arguments and globals is a
    function from the old values to an [outcome] of the new ones; an
    exception the program never catches is the value [Throw e], and in
    [System] it ends the process ([Terminated e]).  [int] is [Z] with the
    bounds [INT_MIN] and [INT_MAX] written out where the code converts
    ([stoi]) or increments ([faceCount++], through [wrap_int]).
    [vector<Mat>] is [list Mat]; [push_back] appends at the end.  The
    directory is a [gmap string node]; the order in which
    [directory_iterator] lists entries is unspecified in C++, the model
    lists by [map_to_list], and the theorems on [renameFile] hold for every
    listing order.  A block given to [dispatch_async] is the index of the
    vector slot its captured reference points to.  Time is the reading
    of the clock the host supplies plus the seconds the process has slept
    ([now]); the clock is read by [saveCapturedFaces] only, twice for each
    face (for the name, and by the file system for the last-write time),
    and [sleep_for] is part of the step that prints the prompt.  Threads
    are program counters ([main_pc], [input_pc]) in one state; a thread that waits for
    the mutex, for a line on a terminal or in [join] has no step.  The
    variable [command] of line 120 is a field of the state, because
    [getline] leaves it unchanged once the stream has ended.

    ** What the theorems show

    - [Detect]: the loop equals the reference "first [maxFaces] regions,
      cropped and resized"; the buffer holds [min k (max 0 maxFaces)] faces,
      each 200 x 200; the counter never overflows; rectangles are drawn for
      accepted regions only; which calls throw.
    - [Calendar]: [timegm] inverts [gmtime]; the text of the format
      determines the broken-down time; so the time stamp determines the
      second in a time zone without repeated local times, and does not
      when summer time ends.
    - [FileSystem], [Handlers]: [capture] writes one file per buffered face
      under pairwise distinct names; [clear] empties the buffer and removes
      exactly the regular files; [rename] renames a file of maximal
      last-write time and keeps its extension, replacing a file that has the
      target name; [capture] on a missing directory reports success.
    - [CppString], [CommandLoop]: [stoi] inverts decimal printing on [int]
      and throws outside it; [setmax n] stores [n]; a turn throws only for
      [setmax] with a bad argument and for [clear] and [rename] on a
      directory that cannot be used; only [exit] sets the flag.
    - [System]: mutual exclusion; every step keeps the values of the state
      in their C++ types; well-formedness of the shared data in every
      state; the bound on the buffer when the mutex is released; the exit
      status; absence of deadlock on the mutex; each thread running alone
      computes [capture_loop], respectively [command_loop] on the values
      [getline] delivers; the capture loop does not read the stop flag; the
      end of the camera stream does not end the process.
    - [Atomic], [Snapshot]: every state with the mutex free is a state of
      the atomic system; a handler never reads a half-filled buffer.
    - [Termination]: on a terminal every run is finite and its length is
      bounded by the frames, the regions the classifier reports and the
      lines typed; under every fair scheduler the run comes to rest, with
      the process ended or waiting for a line; after the end of standard
      input the command thread runs its last command forever.
    - [Race]: a thread that is at an access to [capturedFaces] or
      [maxFaces] owns the mutex, so no two such accesses meet; an
      unsynchronised write and read of [stopInputThread] do meet.
    - [Serial]: however the threads are scheduled, a state outside the
      critical section of the capture loop is one that whole frames and
      whole commands reach when they run one at a time.
    - [Stamps]: on a steady clock and a calendar without repeated times
      a [capture] never replaces a file: the pause of line 122 puts a second
      between any two captures, so the directory grows by one file per
      buffered face, as long as no [rename] gives a file the name of a
      stored face.
    - [Orchestrator]: the program refines the state machine of the
      description up to abort; the phase Stopping is entered by the three
      stop conditions and by nothing else, and each of them enters it; once
      the flag is set the command thread returns within seven steps unless
      it waits for a line or for the mutex ([stop_noticed]).
    - [Console]: [render] is injective, so the list of messages in the
      state is the output without loss; the layout of the help table.
    - [Scenario]: the end-to-end run, its transcript and the names of its
      files (the clock is read for every face, so the files of one capture
      can carry different seconds); a capture replaces the file of another when the clock is set
      back between them, and when summer time ends between them; the buffer
      can exceed a lowered limit; a pending [show] block outlives its slot; a half-filled buffer
      is reachable inside the critical section; input that ends after
      [capture] writes a file in every turn; ESC ends the program after the
      end of input and not while the command thread waits for a line.

    ** Bounds and fuel

    No definition that models the program takes fuel.  Every loop of the
    handlers and of [detectFaces] iterates over a finite vector or directory
    listing and is a structural [Fixpoint] or a fold.  The calendar looks
    for the year of a day among the 400 years of its period and for the
    month among 12 ([split_year] with fuel 400, [split_month] with fuel
    11): any 400 consecutive years have 146097 days ([year_days_400]) and
    the twelve months are the year ([month_days_12]), so the search ends
    before the fuel does and [civil_from_days] is exact for every day,
    before the epoch too ([civil_from_days_spec]).  The two [while] loops of [main] are
    steps of the transition system; [capture_loop] recurses on the frames
    the camera supplies and [command_loop] on the values of [command], of
    which [getlines n] gives the first [n]: after the end of standard input
    there is one for every [n].  Theorems that say a thread reaches a state
    give the number of steps or bound it ([run_thread t n]); termination is
    strong normalisation of [step] ([sn]), proved from the measure
    [steps_left], and a run that does not end is a set of states each of
    which has a successor in the set.  The camera is a finite list of
    frames: a camera that never ends is not a value of the model.

    ** Not modelled

    Pixel contents, the cascade classifier, video decoding, image encoding
    and window display are the vision library's; they appear as the
    operations and laws of [VisionLib].  The readings of the clock are a
    field of [Host], and so is the calendar; [Calendar] gives the calendar
    of the C library for a time zone that is an offset at every instant,
    without the time zone database and without leap seconds, and prints
    the year without padding (years before 1000 and after 9999 are printed
    with the digits they have).  File permissions, symbolic links
    and rename targets outside the capture directory are outside the
    directory map; [fs_rename] hands such targets to [rename_outside].  The
    blocks on the main dispatch queue are recorded and never run: the
    source has no statement that serves the queue.  The one-second sleep of
    the command loop advances the time of the world and nothing else; the
    ten milliseconds of [waitKey] change no state and are not a step: the
    capture loop never reads the clock.  Accesses to
    [stopInputThread] are single steps of a sequentially consistent
    memory, although the flag is a plain [bool]: [Race] shows that the
    accesses race, and what a compiler may do with a racing access is not
    modelled. *)

From stdpp Require Export base tactics option list numbers strings.
From stdpp Require Export gmap fin_maps.
From stdpp Require Import relations.
From Stdlib Require Export ZArith Lia.

#[global] Open Scope Z_scope.

(** ** C++ exceptions as values *)

(** The exceptions the modelled calls can raise.  The program has no
    [try] block: each of them ends the process. *)
Inductive exn : Type :=
  | InvalidArgument   (* std::invalid_argument, from stoi *)
  | OutOfRange        (* std::out_of_range, from stoi *)
  | FilesystemError   (* std::filesystem::filesystem_error *)
  | CvException.      (* cv::Exception, a failed CV_Assert *)

#[global] Instance exn_eq_dec : EqDecision exn.
Proof. solve_decision. Defined.

Inductive outcome (A : Type) : Type :=
  | Ok (a : A)
  | Throw (e : exn).
Arguments Ok {A} a.
Arguments Throw {A} e.

#[global] Instance outcome_eq_dec `{EqDecision A} : EqDecision (outcome A).
Proof. solve_decision. Defined.

#[global] Instance outcome_ret : MRet outcome := λ A a, Ok a.
#[global] Instance outcome_bind : MBind outcome := λ A B f m,
  match m with Ok a => f a | Throw e => Throw e end.
#[global] Instance outcome_fmap : FMap outcome := λ A B f m,
  match m with Ok a => Ok (f a) | Throw e => Throw e end.

Definition is_Ok {A} (m : outcome A) : Prop := ∃ a, m = Ok a.
Definition throws {A} (m : outcome A) : Prop := ∃ e, m = Throw e.

#[global] Instance is_Ok_dec {A} (m : outcome A) : Decision (is_Ok m).
Proof.
  refine (match m with Ok a => left _ | Throw e => right _ end);
    unfold is_Ok; [eauto | intros [? [=]]].
Defined.

(** ** The range of [int] *)

Declare Scope cfd_scope.
Delimit Scope cfd_scope with cfd.

Definition INT_MAX : Z := 2147483647.
Definition INT_MIN : Z := -2147483648.
Definition is_int (z : Z) : Prop := INT_MIN ≤ z ≤ INT_MAX.

#[global] Instance is_int_dec z : Decision (is_int z).
Proof. unfold is_int. apply _. Defined.

Notation "'int!' z" := (is_int z) (at level 20) : cfd_scope.

(** Two's-complement reduction to the 32 bits of [int]: what an increment or
    a conversion leaves when the mathematical result is out of range. *)
Definition wrap_int (z : Z) : Z := (z - INT_MIN) `mod` 2 ^ 32 + INT_MIN.

Lemma wrap_int_id z : is_int z → wrap_int z = z.
Proof.
  unfold is_int, wrap_int, INT_MIN, INT_MAX. intros.
  rewrite Z.mod_small; lia.
Qed.

Lemma wrap_int_is_int z : is_int (wrap_int z).
Proof.
  unfold is_int, wrap_int, INT_MIN, INT_MAX.
  pose proof (Z.mod_pos_bound (z - -2147483648) (2 ^ 32)). lia.
Qed.

(** ** Hints and tactics *)

Create HintDb cfd discriminated.
Create Rewrite HintDb cfd.

(** [outcome_inv] splits hypotheses about a bind that returned normally. *)
Ltac outcome_inv :=
  repeat match goal with
  | H : Ok _ = Ok _ |- _ => injection H as H; subst
  | H : Throw _ = Ok _ |- _ => discriminate H
  | H : Ok _ = Throw _ |- _ => discriminate H
  | H : Throw _ = Throw _ |- _ => injection H as H; subst
  | H : mbind _ ?m = Ok _ |- _ =>
      let E := fresh "E" in destruct m eqn:E; simpl in H
  | H : mbind _ ?m = Throw _ |- _ =>
      let E := fresh "E" in destruct m eqn:E; simpl in H
  | H : fmap _ ?m = Ok _ |- _ =>
      let E := fresh "E" in destruct m eqn:E; simpl in H
  end.

(** [case_if] splits on the first [decide] or boolean test of the goal. *)
Ltac case_if :=
  match goal with
  | |- context [bool_decide ?P] => destruct (bool_decide_reflect P)
  | |- context [decide ?P] => destruct (decide P)
  | |- context [if ?b then _ else _] => destruct b eqn:?
  end.

(** ** Lemmas on [outcome] *)

Section outcome_lemmas.
Context {A B : Type}.
Implicit Types (m : outcome A) (f : A → outcome B).

Lemma bind_Ok m f b :
  m ≫= f = Ok b ↔ ∃ a, m = Ok a ∧ f a = Ok b.
Proof.
  destruct m as [a|e]; simpl; split; intros H;
    try destruct H as (a' & H & H'); simplify_eq; eauto.
Qed.

Lemma bind_Throw m f e :
  m ≫= f = Throw e ↔ m = Throw e ∨ ∃ a, m = Ok a ∧ f a = Throw e.
Proof.
  destruct m as [a|e']; simpl; split; intros H;
    try destruct H as [H|(a' & H & H')]; simplify_eq; eauto.
Qed.

Lemma fmap_Ok (g : A → B) m b :
  g <$> m = Ok b ↔ ∃ a, m = Ok a ∧ b = g a.
Proof.
  destruct m as [a|e]; simpl; split; intros H;
    try destruct H as (a' & H & H'); simplify_eq; eauto.
Qed.

Lemma is_Ok_Ok (a : A) : is_Ok (Ok a).
Proof. by exists a. Qed.

Lemma not_is_Ok_Throw (e : exn) : ¬ is_Ok (@Throw A e).
Proof. by intros [? ?]. Qed.

Lemma is_Ok_or_throws m : is_Ok m ∨ throws m.
Proof. destruct m; [left | right]; eexists; done. Qed.

Lemma is_Ok_not_throws m : is_Ok m → ¬ throws m.
Proof. intros [a ->] [e ?]; done. Qed.
End outcome_lemmas.

#[export] Hint Resolve is_Ok_Ok wrap_int_is_int : cfd.
#[export] Hint Rewrite @bind_Ok @fmap_Ok : cfd.

(** [mapM] in [outcome]: the first element that throws decides. *)
Section mapM_outcome.
Context {A B : Type} (f : A → outcome B).
Implicit Types (l : list A) (k : list B).

Lemma mapM_outcome_cons x l :
  mapM f (x :: l) = y ← f x; k ← mapM f l; Ok (y :: k).
Proof. done. Qed.

Lemma mapM_outcome_Ok l k :
  mapM f l = Ok k ↔ Forall2 (λ x y, f x = Ok y) l k.
Proof.
  revert k. induction l as [|x l IH]; intros k; simpl.
  - split; [intros [= <-]; constructor | by inversion 1].
  - rewrite bind_Ok. split.
    + intros (y & Hy & (k' & Hk & [= <-])%bind_Ok).
      constructor; [done | by apply IH].
    + inversion 1 as [|? y ? k' Hy Hk]; subst.
      exists y. split; [done|]. apply bind_Ok. exists k'.
      split; [by apply IH | done].
Qed.

Lemma mapM_outcome_length l k : mapM f l = Ok k → length k = length l.
Proof. intros Hk%mapM_outcome_Ok. by rewrite (Forall2_length _ _ _ Hk). Qed.

Lemma mapM_outcome_is_Ok l : is_Ok (mapM f l) ↔ Forall (λ x, is_Ok (f x)) l.
Proof.
  induction l as [|x l IH]; simpl.
  - split; [constructor | intros; apply is_Ok_Ok].
  - rewrite Forall_cons, <-IH. unfold is_Ok. split.
    + intros (k & (y & Hy & (k' & Hk & _)%bind_Ok)%bind_Ok). eauto.
    + intros [(y & ->) (k & ->)]. simpl. eauto.
Qed.

Lemma mapM_outcome_Forall (P : B → Prop) l k :
  (∀ x y, f x = Ok y → P y) → mapM f l = Ok k → Forall P k.
Proof.
  intros HP Hk%mapM_outcome_Ok.
  induction Hk; constructor; eauto.
Qed.

Lemma mapM_outcome_Throw l e :
  mapM f l = Throw e → Exists (λ x, f x = Throw e) l.
Proof.
  induction l as [|x l IH]; simpl; [done|].
  intros [Hx|(y & Hy & [Hk|(k & Hk & [=])]%bind_Throw)]%bind_Throw.
  - by left.
  - right. by apply IH.
Qed.
End mapM_outcome.

(** ** Lemmas on lists shared by the components *)

Section list_lemmas.
Context {A : Type}.
Implicit Types (l k : list A) (n : nat).

(** The length of a prefix bounded by an [int] count, as the capture loop
    computes it. *)
Lemma length_take_Z l (m : Z) :
  Z.of_nat (length (take (Z.to_nat m) l)) = Z.min (Z.of_nat (length l)) (Z.max 0 m).
Proof. rewrite length_take. lia. Qed.

Lemma take_Z_nonpos l (m : Z) : m ≤ 0 → take (Z.to_nat m) l = [].
Proof. intros. by replace (Z.to_nat m) with 0%nat by lia. Qed.

Lemma take_Z_all l (m : Z) :
  Z.of_nat (length l) ≤ m → take (Z.to_nat m) l = l.
Proof. intros. apply take_ge. lia. Qed.

Lemma NoDup_fmap_imap_inj {B} (f : nat → A → B) l :
  (∀ i j x y, f i x = f j y → i = j) → NoDup (imap f l).
Proof.
  intros Hinj. revert f Hinj. induction l as [|x l IH]; intros f Hinj; simpl.
  - constructor.
  - constructor.
    + intros (j & y & Hf & _)%elem_of_lookup_imap_1.
      apply Hinj in Hf. discriminate.
    + apply IH. intros i j y z Hf. apply Hinj in Hf. lia.
Qed.
End list_lemmas.

#[export] Hint Rewrite @length_app @length_take @length_fmap : cfd.

Lemma take_app_replicate {A} n m k (l : list A) x :
  (n ≤ m)%nat → (n ≤ k)%nat →
  take n (l ++ replicate m x) = take n (l ++ replicate k x).
Proof.
  revert n. induction l as [|a l IH]; intros n Hm Hk; simpl.
  - rewrite !take_replicate. f_equal. lia.
  - destruct n as [|n]; simpl; [done|]. f_equal. apply IH; lia.
Qed.

(** ** Relations with a measure *)

(** A relation whose steps decrease a measure on the states of an
    invariant has no infinite path from them. *)
Lemma sn_measure {A} (R : relation A) (P : A → Prop) (f : A → nat) :
  (∀ x y, P x → R x y → P y ∧ (f y < f x)%nat) →
  ∀ x, P x → sn R x.
Proof.
  intros Hstep x. remember (f x) as n eqn:Hn. revert x Hn.
  induction n as [n IH] using lt_wf_ind. intros x -> Hx.
  constructor. intros y Hxy. destruct (Hstep x y Hx Hxy) as [Hy Hlt].
  by apply (IH (f y)).
Qed.

Lemma nsteps_measure {A} (R : relation A) (P : A → Prop) (f : A → nat) :
  (∀ x y, P x → R x y → P y ∧ (f y < f x)%nat) →
  ∀ n x y, P x → nsteps R n x y → (n + f y ≤ f x)%nat.
Proof.
  intros Hstep n x y Hx Hn. induction Hn as [|n x y z Hxy _ IH]; [done|].
  destruct (Hstep x y Hx Hxy) as [Hy Hlt]. specialize (IH Hy). lia.
Qed.

