(* ===== verification/CppString.v ===== *)
(** * CppString: the [std::string] operations of the command loop

    The command loop (src/compscifinal.cpp, lines 119-173) compares the
    line it read with fixed words, tests two prefixes with
    [command.find(p) == 0], takes [command.substr(7)] and converts the
    argument of [setmax] with [stoi]; [saveCapturedFaces] prints the index
    of a face with [to_string].  The functions are the standard library's;
    the definitions below follow their documented behaviour:

    - [find s p]: position of the first occurrence of [p] in [s], if any;
    - [substr pos s]: the suffix from [pos], [std::out_of_range] when
      [pos] exceeds the size;
    - [stoi s]: what [strtol] reads in base 10 (white space, an optional
      sign, digits), [std::invalid_argument] when there is no digit,
      [std::out_of_range] when the value is not an [int];
    - [to_string n]: the decimal digits of [n]. *)

From S2P Require Import Prelude.
From stdpp Require Import pretty.
From Stdlib Require Import Ascii.

#[local] Open Scope Z_scope.

(** ** Definitions *)

(** [s.find(p)]: [None] is [npos]. *)
Definition find (s p : string) : option nat := String.index 0 p s.

(** [s.find(p) == 0]. *)
Definition starts_with (p s : string) : bool :=
  bool_decide (find s p = Some 0%nat).

Fixpoint string_drop (n : nat) (s : string) : string :=
  match n, s with
  | O, _ => s
  | S n, String _ s => string_drop n s
  | S _, EmptyString => EmptyString
  end.

(** [s.substr(pos)]. *)
Definition substr (pos : nat) (s : string) : outcome string :=
  if decide (pos ≤ String.length s)%nat then Ok (string_drop pos s)
  else Throw OutOfRange.

(** [to_string(i)] for a [size_t]. *)
Definition to_string (n : nat) : string := pretty n.

(** The prefix [strtol] skips: characters for which [isspace] holds. *)
Fixpoint skip_space (s : string) : string :=
  match s with
  | String c s' => if Ascii.is_space c then skip_space s' else s
  | EmptyString => EmptyString
  end.

(** An optional sign; [true] for a minus. *)
Definition read_sign (s : string) : bool * string :=
  match s with
  | String "-"%char s' => (true, s')
  | String "+"%char s' => (false, s')
  | _ => (false, s)
  end.

(** The longest prefix of decimal digits, as a number; [None] when the
    string does not start with a digit.  [seen] says whether a digit was
    read already and [acc] is the value read so far. *)
Fixpoint read_digits (s : string) (acc : Z) (seen : bool) : option Z :=
  match s with
  | String c s' =>
      match Ascii.is_nat c with
      | Some d => read_digits s' (10 * acc + Z.of_nat d) true
      | None => if seen then Some acc else None
      end
  | EmptyString => if seen then Some acc else None
  end.

(** [stoi(s)] with the default base 10. *)
Definition stoi (s : string) : outcome Z :=
  let '(neg, digits) := read_sign (skip_space s) in
  match read_digits digits 0 false with
  | None => Throw InvalidArgument
  | Some v =>
      let v := if neg then - v else v in
      if decide (is_int v) then Ok v else Throw OutOfRange
  end.

(** A character that [stoi] may start a number with. *)
Definition is_digit (c : ascii) : bool := bool_decide (is_Some (Ascii.is_nat c)).

(** [s.find(c) != npos] for a character. *)
Fixpoint string_mem (c : ascii) (s : string) : bool :=
  match s with
  | EmptyString => false
  | String c' s => if Ascii.eqb c' c then true else string_mem c s
  end.

(** [s.substr(s.rfind(c))]: the suffix that starts at the last occurrence
    of [c], if there is one. *)
Fixpoint last_suffix_from (c : ascii) (s : string) : option string :=
  match s with
  | EmptyString => None
  | String c' s' =>
      match last_suffix_from c s' with
      | Some e => Some e
      | None => if Ascii.eqb c' c then Some s else None
      end
  end.

(** Every character of the string is a decimal digit. *)
Fixpoint all_digits (s : string) : bool :=
  match s with
  | EmptyString => true
  | String c s => is_digit c && all_digits s
  end.

(** A string without a decimal digit. *)
Fixpoint no_digit (s : string) : bool :=
  match s with
  | EmptyString => true
  | String c s => negb (is_digit c) && no_digit s
  end.

(** ** Lemmas *)

Lemma find_zero_prefix s p : find s p = Some 0%nat ↔ String.prefix p s = true.
Proof.
  unfold find. destruct s as [|c s].
  - destruct p; simpl; split; congruence.
  - cbn [String.index]. destruct (String.prefix p (String c s)); [done|].
    destruct (String.index 0 p s); split; congruence.
Qed.

Lemma starts_with_prefix p s : starts_with p s = String.prefix p s.
Proof.
  unfold starts_with. case_bool_decide as Hf.
  - symmetry. by apply find_zero_prefix.
  - destruct (String.prefix p s) eqn:Hp; [|done].
    by apply find_zero_prefix in Hp.
Qed.

Lemma string_app_cons c p s : String c p +:+ s = String c (p +:+ s).
Proof. done. Qed.

Lemma string_app_nil s : "" +:+ s = s.
Proof. done. Qed.

Lemma string_app_nil_r s : s +:+ "" = s.
Proof. induction s; [done|]. rewrite string_app_cons. by f_equal. Qed.

Lemma string_length_app p s :
  String.length (p +:+ s) = (String.length p + String.length s)%nat.
Proof. induction p; [done|]. rewrite string_app_cons; simpl. by f_equal. Qed.

Lemma prefix_app p s : String.prefix p (p +:+ s) = true.
Proof. induction p as [|c p IH]; simpl; [by destruct s|]. by destruct (Ascii.ascii_dec c c). Qed.

Lemma prefix_split p s :
  String.prefix p s = true → s = p +:+ string_drop (String.length p) s.
Proof.
  revert s. induction p as [|c p IH]; intros [|d s]; simpl; try done.
  destruct (Ascii.ascii_dec c d) as [->|]; [|done]. intros Hp.
  rewrite string_app_cons. f_equal. by apply IH.
Qed.

Lemma string_drop_app p s : string_drop (String.length p) (p +:+ s) = s.
Proof. induction p; [done|]. by rewrite string_app_cons. Qed.

Lemma length_string_drop n s :
  String.length (string_drop n s) = (String.length s - n)%nat.
Proof. revert s. induction n; intros [|c s]; simpl; auto. Qed.

Lemma starts_with_app p s : starts_with p (p +:+ s) = true.
Proof. rewrite starts_with_prefix. apply prefix_app. Qed.

Lemma starts_with_length p s :
  starts_with p s = true → (String.length p ≤ String.length s)%nat.
Proof.
  rewrite starts_with_prefix. intros Hp%prefix_split.
  rewrite Hp, string_length_app. lia.
Qed.

Lemma substr_app p s : substr (String.length p) (p +:+ s) = Ok s.
Proof.
  unfold substr. rewrite decide_True by (rewrite string_length_app; lia).
  by rewrite string_drop_app.
Qed.

Lemma substr_starts_with p s :
  starts_with p s = true →
  ∃ rest, substr (String.length p) s = Ok rest ∧ s = p +:+ rest.
Proof.
  rewrite starts_with_prefix. intros Hp%prefix_split.
  exists (string_drop (String.length p) s). split; [|done].
  rewrite Hp at 1. apply substr_app.
Qed.

Lemma read_digits_seen s acc : is_Some (read_digits s acc true).
Proof.
  revert acc. induction s as [|c s IH]; intros acc; simpl; [eauto|].
  destruct (Ascii.is_nat c); eauto.
Qed.

Lemma read_digits_nonneg s acc seen v :
  0 ≤ acc → read_digits s acc seen = Some v → 0 ≤ v.
Proof.
  revert acc seen. induction s as [|c s IH]; intros acc seen Hacc; simpl.
  - destruct seen; congruence.
  - destruct (Ascii.is_nat c) as [d|].
    + apply IH. lia.
    + destruct seen; congruence.
Qed.

Lemma read_digits_no_digit c s :
  is_digit c = false → read_digits (String c s) 0 false = None.
Proof.
  unfold is_digit. intros Hc%bool_decide_eq_false. simpl.
  destruct (Ascii.is_nat c); [|done]. by destruct Hc.
Qed.

Lemma stoi_is_int s z : stoi s = Ok z → is_int z.
Proof.
  unfold stoi. destruct (read_sign _) as [neg digits].
  destruct (read_digits _ _ _) as [v|]; [|done].
  by case_decide; intros [= <-].
Qed.

Lemma stoi_throws s e : stoi s = Throw e → e = InvalidArgument ∨ e = OutOfRange.
Proof.
  unfold stoi. destruct (read_sign _) as [neg digits].
  destruct (read_digits _ _ _) as [v|]; [case_decide|]; intros [=]; auto.
Qed.

(** ** Characters of a string *)

Lemma string_mem_app c s t :
  string_mem c (s +:+ t) = string_mem c s || string_mem c t.
Proof.
  induction s as [|c' s IH]; [done|]. rewrite string_app_cons; simpl.
  by destruct (Ascii.eqb c' c).
Qed.

Lemma last_suffix_from_None c s :
  last_suffix_from c s = None ↔ string_mem c s = false.
Proof.
  induction s as [|c' s IH]; simpl; [done|].
  destruct (last_suffix_from c s), (Ascii.eqb c' c), (string_mem c s);
    split; try congruence; intros; exfalso; intuition congruence.
Qed.

Lemma last_suffix_from_app c s t :
  string_mem c t = false →
  last_suffix_from c (s +:+ String c t) = Some (String c t).
Proof.
  intros Ht%last_suffix_from_None. induction s as [|c' s IH].
  - rewrite string_app_nil; simpl. by rewrite Ht, Ascii.eqb_refl.
  - rewrite string_app_cons; simpl. by rewrite IH.
Qed.

Lemma last_suffix_from_suffix c s e :
  last_suffix_from c s = Some e →
  ∃ stem t, s = stem +:+ e ∧ e = String c t ∧ string_mem c t = false.
Proof.
  revert e. induction s as [|c' s IH]; intros e; simpl; [done|].
  destruct (last_suffix_from c s) as [e'|] eqn:He'.
  - intros [= <-]. destruct (IH e' eq_refl) as (stem & t & -> & -> & Ht).
    by exists (String c' stem), t.
  - destruct (Ascii.eqb_spec c' c) as [->|]; [|done]. intros [= <-].
    exists "", s. by apply last_suffix_from_None in He'.
Qed.

Lemma all_digits_mem c s :
  all_digits s = true → is_digit c = false → string_mem c s = false.
Proof.
  intros Hs Hc. induction s as [|c' s IH]; simpl in *; [done|].
  apply andb_prop in Hs as [Hc' Hs].
  destruct (Ascii.eqb_spec c' c) as [->|]; [congruence | by apply IH].
Qed.

Lemma all_digits_app s t :
  all_digits (s +:+ t) = all_digits s && all_digits t.
Proof.
  induction s as [|c s IH]; [done|]. rewrite string_app_cons; simpl.
  by rewrite IH, andb_assoc.
Qed.

(** ** Right cancellation, through lists of characters *)

Lemma list_ascii_of_string_app s t :
  String.list_ascii_of_string (s +:+ t)
  = String.list_ascii_of_string s ++ String.list_ascii_of_string t.
Proof. induction s; [done|]. rewrite string_app_cons; simpl. by f_equal. Qed.

Lemma list_ascii_of_string_inj s t :
  String.list_ascii_of_string s = String.list_ascii_of_string t → s = t.
Proof.
  intros Hst. rewrite <-(String.string_of_list_ascii_of_string s),
    <-(String.string_of_list_ascii_of_string t). by rewrite Hst.
Qed.

Lemma string_app_inv_tail s1 s2 t : s1 +:+ t = s2 +:+ t → s1 = s2.
Proof.
  intros Heq%(f_equal String.list_ascii_of_string).
  rewrite !list_ascii_of_string_app in Heq.
  by apply app_inv_tail, list_ascii_of_string_inj in Heq.
Qed.

Lemma string_app_assoc s t u : (s +:+ t) +:+ u = s +:+ t +:+ u.
Proof. induction s; [done|]. rewrite !string_app_cons. by f_equal. Qed.

(** ** [to_string] *)

Lemma pretty_N_char_digit x : is_digit (pretty_N_char x) = true.
Proof. unfold pretty_N_char. by repeat case_match. Qed.

Lemma pretty_N_go_digits x s :
  all_digits s = true → all_digits (pretty_N_go x s) = true.
Proof.
  revert s. induction (N.lt_wf_0 x) as [x _ IH]; intros s Hs.
  destruct (decide (x = 0%N)) as [->|]; [by rewrite pretty_N_go_0|].
  rewrite pretty_N_go_step by lia. apply IH; [apply N.div_lt; lia|].
  simpl. by rewrite pretty_N_char_digit.
Qed.

Lemma pretty_N_digits (x : N) : all_digits (pretty x) = true.
Proof.
  unfold pretty, pretty_N. case_decide; [done|]. by apply pretty_N_go_digits.
Qed.

Lemma to_string_digits n : all_digits (to_string n) = true.
Proof. apply pretty_N_digits. Qed.

Lemma to_string_inj i j : to_string i = to_string j → i = j.
Proof. apply pretty_nat_inj. Qed.

Lemma to_string_mem c n : is_digit c = false → string_mem c (to_string n) = false.
Proof. apply all_digits_mem, to_string_digits. Qed.

(** ** [stoi] reads back what decimal printing wrote *)

Lemma is_digit_not_space c : is_digit c = true → Ascii.is_space c = false.
Proof. destruct c as [[] [] [] [] [] [] [] []]; by vm_compute. Qed.

Lemma is_digit_not_sign c s : is_digit c = true → read_sign (String c s) = (false, String c s).
Proof. destruct c as [[] [] [] [] [] [] [] []]; by vm_compute. Qed.

Lemma is_nat_pretty_N_char (d : N) :
  (d < 10)%N → Ascii.is_nat (pretty_N_char d) = Some (N.to_nat d).
Proof.
  intros Hd.
  assert (d = 0 ∨ d = 1 ∨ d = 2 ∨ d = 3 ∨ d = 4 ∨ d = 5 ∨ d = 6 ∨ d = 7
          ∨ d = 8 ∨ d = 9)%N as Hcases by lia.
  repeat (destruct Hcases as [->|Hcases]; [done|]). by subst.
Qed.

Lemma read_digits_pretty_N_go (x : N) s seen :
  read_digits (pretty_N_go x s) 0 seen
  = read_digits s (Z.of_N x) (seen || bool_decide (0 < x)%N).
Proof.
  revert s seen. induction (N.lt_wf_0 x) as [x _ IH]; intros s seen.
  destruct (decide (x = 0%N)) as [->|Hx].
  { rewrite pretty_N_go_0. by rewrite orb_false_r. }
  rewrite pretty_N_go_step, IH by (try apply N.div_lt; lia). simpl.
  rewrite is_nat_pretty_N_char by (apply N.mod_lt; lia).
  rewrite (bool_decide_eq_true_2 (0 < x)%N), orb_true_r by lia.
  f_equal. rewrite (N.div_mod x 10) at 3 by done. lia.
Qed.

Lemma pretty_N_go_nonempty (x : N) :
  (0 < x)%N → ∃ c s, pretty_N_go x "" = String c s ∧ is_digit c = true.
Proof.
  intros Hx. pose proof (pretty_N_go_digits x "" eq_refl) as Hd.
  destruct (pretty_N_go x "") as [|c s] eqn:Hp.
  - pose proof (read_digits_pretty_N_go x "" false) as Hr.
    rewrite Hp in Hr. simpl in Hr. by rewrite bool_decide_eq_true_2 in Hr.
  - simpl in Hd. apply andb_prop in Hd as [? _]. eauto.
Qed.

Lemma stoi_pretty_positive (p : positive) (neg : bool) :
  is_int (if neg then Z.neg p else Z.pos p) →
  stoi ((if neg then "-" else "") +:+ pretty p)
  = Ok (if neg then Z.neg p else Z.pos p).
Proof.
  intros Hint. unfold pretty, pretty_positive, pretty, pretty_N.
  rewrite decide_False by done.
  destruct (pretty_N_go_nonempty (N.pos p)) as (c & s & Hp & Hc); [lia|].
  assert (read_sign (skip_space ((if neg then "-" else "") +:+ pretty_N_go (N.pos p) ""))
          = (neg, pretty_N_go (N.pos p) "")) as Hsign.
  { rewrite Hp. destruct neg; [done|]. rewrite string_app_nil. simpl.
    by rewrite is_digit_not_space, is_digit_not_sign. }
  unfold stoi. rewrite Hsign, read_digits_pretty_N_go. simpl.
  destruct neg; by rewrite decide_True.
Qed.

Lemma stoi_pretty_Z (z : Z) :
  stoi (pretty z) = if decide (is_int z) then Ok z else Throw OutOfRange.
Proof.
  destruct z as [|p|p].
  - done.
  - change (pretty (Z.pos p)) with ("" +:+ pretty p). case_decide as Hint.
    + by apply (stoi_pretty_positive p false).
    + unfold is_int, INT_MIN, INT_MAX in Hint. unfold stoi.
      destruct (pretty_N_go_nonempty (N.pos p)) as (c & s & Hp & Hc); [lia|].
      unfold pretty, pretty_positive, pretty, pretty_N.
      rewrite decide_False, string_app_nil by done.
      assert (read_sign (skip_space (pretty_N_go (N.pos p) ""))
              = (false, pretty_N_go (N.pos p) "")) as ->.
      { rewrite Hp. simpl. by rewrite is_digit_not_space, is_digit_not_sign. }
      rewrite read_digits_pretty_N_go. simpl. by rewrite decide_False.
  - change (pretty (Z.neg p)) with ("-" +:+ pretty p). case_decide as Hint.
    + by apply (stoi_pretty_positive p true).
    + unfold stoi.
      destruct (pretty_N_go_nonempty (N.pos p)) as (c & s & Hp & Hc); [lia|].
      unfold pretty, pretty_positive, pretty, pretty_N.
      rewrite decide_False by done.
      assert (read_sign (skip_space ("-" +:+ pretty_N_go (N.pos p) ""))
              = (true, pretty_N_go (N.pos p) "")) as -> by done.
      rewrite read_digits_pretty_N_go. simpl. by rewrite decide_False.
Qed.

Lemma no_digit_skip_space s : no_digit s = true → no_digit (skip_space s) = true.
Proof.
  induction s as [|c s IH]; simpl; [done|].
  intros [Hc Hs]%andb_prop. destruct (Ascii.is_space c); [by apply IH|].
  simpl. by rewrite Hc, Hs.
Qed.

Lemma no_digit_read_sign s : no_digit s = true → no_digit (read_sign s).2 = true.
Proof.
  destruct s as [|c s]; [done|]. intros Hs.
  assert (read_sign (String c s) = (true, s) ∨ read_sign (String c s) = (false, s)
          ∨ read_sign (String c s) = (false, String c s)) as [-> | [-> | ->]].
  { destruct c as [[] [] [] [] [] [] [] []]; auto. }
  all: simpl in *; try done; by apply andb_prop in Hs as [_ ?].
Qed.

Lemma read_digits_no_digit_None s : no_digit s = true → read_digits s 0 false = None.
Proof.
  destruct s as [|c s]; [done|]. simpl. intros [Hc _]%andb_prop.
  apply negb_true_iff in Hc. unfold is_digit in Hc.
  apply bool_decide_eq_false in Hc. destruct (Ascii.is_nat c); [|done].
  by destruct Hc.
Qed.

Lemma stoi_no_digit s : no_digit s = true → stoi s = Throw InvalidArgument.
Proof.
  intros Hs. unfold stoi.
  pose proof (no_digit_read_sign _ (no_digit_skip_space _ Hs)) as Hd.
  destruct (read_sign (skip_space s)) as [neg digits]. simpl in Hd.
  by rewrite read_digits_no_digit_None.
Qed.

(** ** Properties of the conversions *)

(** C30.  [stoi] reads back the decimal notation of every [int]: the
    argument of [setmax] written in decimal converts to that number. *)
Theorem stoi_pretty (z : Z) : is_int z → stoi (pretty z) = Ok z.
Proof. intros Hz. by rewrite stoi_pretty_Z, decide_True. Qed.

(** [stoi] throws [std::out_of_range] on the decimal notation of a
    number that is not an [int]. *)
Theorem stoi_out_of_range (z : Z) :
  ¬ is_int z → stoi (pretty z) = Throw OutOfRange.
Proof. intros Hz. by rewrite stoi_pretty_Z, decide_False. Qed.

Lemma stoi_pretty_witness : stoi "2" = Ok 2 ∧ stoi "-7" = Ok (-7).
Proof.
  split; [apply (stoi_pretty 2) | apply (stoi_pretty (-7))]; compute_done.
Defined.

Lemma stoi_out_of_range_witness : stoi "2147483648" = Throw OutOfRange.
Proof. apply (stoi_out_of_range 2147483648). compute_done. Defined.
