(* ===== verification/IStream.v ===== *)
(** * IStream: standard input as [getline] sees it

    The command thread reads its commands with [getline(cin, command)]
    (src/compscifinal.cpp, line 124) and never tests the state of the
    stream.  The function is the standard library's; the definitions below
    follow its documented behaviour:

    - while the stream is good, [getline] erases the string and stores the
      characters up to the next newline in it;
    - when the stream ends before a newline, it stores the characters that
      were left, possibly none, and sets [eofbit];
    - once [eofbit] is set the sentry of every later call fails: the call
      returns at once and the string keeps the value it had;
    - on a terminal with nothing typed the call does not return.

    A stream is the list of complete lines still to be read and what
    follows them.  [getlines n] lists the values the string takes over [n]
    calls; it is the input the command loop sees. *)

From S2P Require Import Prelude.

(** ** Definitions *)

(** What follows the complete lines of a stream. *)
Inductive stream_end : Type :=
  | StreamOpen                  (* nothing yet: a read waits *)
  | StreamEof (rest : string)   (* the characters after the last newline,
                                   then the end of the stream *)
  | StreamFailed.               (* the end was reached: [eofbit] is set *)

#[global] Instance stream_end_eq_dec : EqDecision stream_end.
Proof. solve_decision. Defined.

Record istream : Type := IStream {
  is_lines : list string;
  is_end : stream_end;
}.

#[global] Instance istream_eq_dec : EqDecision istream.
Proof. solve_decision. Defined.

(** [getline(ins, str)]: the stream and the string after the call, [None]
    when the call does not return. *)
Definition getline (ins : istream) (str : string) : option (istream * string) :=
  match is_lines ins with
  | line :: lines => Some (IStream lines (is_end ins), line)
  | [] =>
      match is_end ins with
      | StreamOpen => None
      | StreamEof rest => Some (IStream [] StreamFailed, rest)
      | StreamFailed => Some (ins, str)
      end
  end.

(** The values of the string after each of [n] consecutive calls, as far
    as the calls return. *)
Fixpoint getlines (n : nat) (ins : istream) (str : string) : list string :=
  match n with
  | O => []
  | S n =>
      match getline ins str with
      | Some (ins, str) => str :: getlines n ins str
      | None => []
      end
  end.

(** [reads ins str delivered ins' str']: consecutive calls that start with
    the stream [ins] and the string [str] store the strings [delivered],
    one per call, and leave the stream [ins'] and the string [str']. *)
Inductive reads (ins : istream) (str : string)
    : list string → istream → string → Prop :=
  | reads_nil : reads ins str [] ins str
  | reads_snoc delivered ins1 str1 ins2 str2 :
      reads ins str delivered ins1 str1 →
      getline ins1 str1 = Some (ins2, str2) →
      reads ins str (delivered ++ [str2]) ins2 str2.

(** What the calls deliver once the complete lines are used up: nothing on
    an open stream, the last characters and then the same string again and
    again on a stream that ends. *)
Definition tail_lines (n : nat) (ins : istream) (str : string) : list string :=
  match is_end ins with
  | StreamOpen => []
  | StreamEof rest => replicate n rest
  | StreamFailed => replicate n (default str (last (is_lines ins)))
  end.

(** ** Lemmas *)

Lemma getline_line line lines e str :
  getline (IStream (line :: lines) e) str = Some (IStream lines e, line).
Proof. done. Qed.

Lemma getline_failed str :
  getline (IStream [] StreamFailed) str = Some (IStream [] StreamFailed, str).
Proof. done. Qed.

Lemma getline_None ins str :
  getline ins str = None ↔ ins = IStream [] StreamOpen.
Proof.
  destruct ins as [[|line lines] []]; simpl; split; intros; by simplify_eq.
Qed.

Lemma getline_is_Some ins str :
  is_Some (getline ins str) ↔ ins ≠ IStream [] StreamOpen.
Proof. rewrite <-not_eq_None_Some. by rewrite getline_None. Qed.

(** The end of an open stream stays open, and a call takes one line. *)
Lemma getline_open ins str ins' str' :
  is_end ins = StreamOpen → getline ins str = Some (ins', str') →
  is_end ins' = StreamOpen ∧ is_lines ins = str' :: is_lines ins'.
Proof.
  destruct ins as [[|line lines] e]; simpl; intros ->; [done|].
  by intros [= <- <-].
Qed.

Lemma getlines_failed n str :
  getlines n (IStream [] StreamFailed) str = replicate n str.
Proof. induction n as [|n IH]; simpl; by rewrite ?IH. Qed.

Lemma getlines_length n ins str : (length (getlines n ins str) ≤ n)%nat.
Proof.
  revert ins str. induction n as [|n IH]; intros ins str; simpl; [done|].
  destruct (getline ins str) as [[ins' str']|]; simpl; [|lia].
  specialize (IH ins' str'). lia.
Qed.

Lemma tail_lines_cons n line lines e str :
  tail_lines n (IStream (line :: lines) e) str = tail_lines n (IStream lines e) line.
Proof.
  unfold tail_lines. destruct e; simpl; [done..|].
  rewrite last_cons. by destruct (last lines).
Qed.

Lemma take_tail_lines n m k l ins str :
  (n ≤ m)%nat → (n ≤ k)%nat →
  take n (l ++ tail_lines m ins str) = take n (l ++ tail_lines k ins str).
Proof.
  intros Hm Hk. unfold tail_lines.
  destruct (is_end ins); auto using take_app_replicate.
Qed.

(** [getlines] delivers the complete lines in their order and then what
    the end of the stream gives. *)
Lemma getlines_take n ins str :
  getlines n ins str = take n (is_lines ins ++ tail_lines n ins str).
Proof.
  revert ins str. induction n as [|n IH]; intros [lines e] str; [done|].
  destruct lines as [|line lines]; simpl.
  - destruct e; simpl; [done| |].
    + by rewrite getlines_failed, take_replicate, Nat.min_id.
    + by rewrite getlines_failed, take_replicate, Nat.min_id.
  - rewrite IH. simpl. f_equal. rewrite tail_lines_cons.
    apply take_tail_lines; lia.
Qed.

(** ** The history of a stream *)

Lemma reads_nil_inv ins str ins' str' :
  reads ins str [] ins' str' → ins' = ins ∧ str' = str.
Proof.
  inversion 1 as [|delivered ????? Heq]; [done|]. by destruct delivered.
Qed.

Lemma reads_cons_inv ins str c delivered ins' str' :
  reads ins str (c :: delivered) ins' str' →
  ∃ ins1, getline ins str = Some (ins1, c) ∧ reads ins1 c delivered ins' str'.
Proof.
  remember (c :: delivered) as l eqn:Hl. intros Hr. revert delivered Hl.
  induction Hr as [|d ins1 str1 ins2 str2 Hr IH Hg]; intros delivered Hl; [done|].
  destruct d as [|c' d]; simplify_eq/=.
  - apply reads_nil_inv in Hr as [-> ->]. exists ins2. split; [done|constructor].
  - destruct (IH _ eq_refl) as (ins0 & Hg0 & Hr0). exists ins0.
    split; [done|]. by eapply reads_snoc.
Qed.

(** The strings a sequence of calls stores are the first values of
    [getlines]. *)
Lemma reads_getlines ins str delivered ins' str' :
  reads ins str delivered ins' str' →
  getlines (length delivered) ins str = delivered.
Proof.
  revert ins str. induction delivered as [|c delivered IH]; intros ins str;
    [done|].
  intros (ins1 & Hg & Hr)%reads_cons_inv. simpl. rewrite Hg. f_equal. eauto.
Qed.
