(* ===== verification/Vision.v ===== *)
(** * Vision: the capability the program consumes from the vision library

    [detectFaces] (src/compscifinal.cpp, lines 19-33) calls five operations
    of OpenCV: [cvtColor], [CascadeClassifier::detectMultiScale],
    [rectangle], the region-of-interest operator [Mat::operator()(Rect)] and
    [resize].  Their code is the library's; this file states, as the type
    class [VisionLib], the part of their contract the program depends on:
    which calls return and which fail a [CV_Assert], and the size of the
    images they return.  [StubVision] is an instance whose images record the
    operations applied to them; the witnesses evaluate on it. *)

From S2P Require Import Prelude.

(** [cv::Rect]: top-left corner, width and height, all [int]. *)
Record Rect : Type := mkRect { rx : Z; ry : Z; rwidth : Z; rheight : Z }.

#[global] Instance Rect_eq_dec : EqDecision Rect.
Proof. solve_decision. Defined.

(** The side of the canonical face image, [Size(200, 200)] at line 29. *)
Definition FACE_SIZE : Z := 200.

Class VisionLib : Type := {
  Mat : Type;
  Mat_eq_dec :: EqDecision Mat;
  CascadeClassifier : Type;
  mat_rows : Mat → Z;
  mat_cols : Mat → Z;
  (** [cvtColor(frame, gray, COLOR_BGR2GRAY)] on a frame that a successful
      [cap.read] returned. *)
  cvtColor_gray : Mat → Mat;
  (** [faceCascade.detectMultiScale(gray, faces)]. *)
  detectMultiScale : CascadeClassifier → Mat → list Rect;
  (** [rectangle(frame, face, Scalar(255, 0, 0), 2)]. *)
  rectangle : Mat → Rect → Mat;
  (** [gray(face)]: the sub-image, or a failed assertion. *)
  mat_roi : Mat → Rect → outcome Mat;
  (** [resize(src, dst, Size(w, h))]. *)
  resize : Mat → Z → Z → outcome Mat;

  rect_inside (r : Rect) (m : Mat) : Prop :=
    0 ≤ rx r ∧ 0 ≤ rwidth r ∧ rx r + rwidth r ≤ mat_cols m ∧
    0 ≤ ry r ∧ 0 ≤ rheight r ∧ ry r + rheight r ≤ mat_rows m;

  cvtColor_gray_rows m : mat_rows (cvtColor_gray m) = mat_rows m;
  cvtColor_gray_cols m : mat_cols (cvtColor_gray m) = mat_cols m;
  rectangle_rows m r : mat_rows (rectangle m r) = mat_rows m;
  rectangle_cols m r : mat_cols (rectangle m r) = mat_cols m;
  mat_roi_inside m r :
    rect_inside r m →
    ∃ m', mat_roi m r = Ok m' ∧ mat_rows m' = rheight r ∧ mat_cols m' = rwidth r;
  mat_roi_outside m r : ¬ rect_inside r m → mat_roi m r = Throw CvException;
  resize_nonempty m w h :
    0 < mat_rows m → 0 < mat_cols m → 0 < w → 0 < h →
    ∃ m', resize m w h = Ok m' ∧ mat_rows m' = h ∧ mat_cols m' = w;
  resize_empty m w h :
    mat_rows m ≤ 0 ∨ mat_cols m ≤ 0 → resize m w h = Throw CvException;
}.

Section vision_facts.
Context {V : VisionLib}.
Implicit Types (m : Mat) (r : Rect).

#[global] Instance rect_inside_dec r m : Decision (rect_inside r m).
Proof. unfold rect_inside. apply _. Defined.

(** A region that the crop and the resize of [detectFaces] both accept. *)
Definition valid_region (m : Mat) (r : Rect) : Prop :=
  rect_inside r m ∧ 0 < rwidth r ∧ 0 < rheight r.

#[global] Instance valid_region_dec m r : Decision (valid_region m r).
Proof. unfold valid_region. apply _. Defined.

(** The two library calls of lines 28-29 in sequence. *)
Definition crop_face (gray : Mat) (face : Rect) : outcome Mat :=
  faceROI ← mat_roi gray face;
  resize faceROI FACE_SIZE FACE_SIZE.

Definition canonical (m : Mat) : Prop :=
  mat_rows m = FACE_SIZE ∧ mat_cols m = FACE_SIZE.

#[global] Instance canonical_dec m : Decision (canonical m).
Proof. unfold canonical. apply _. Defined.

Lemma crop_face_valid gray face :
  valid_region gray face →
  ∃ m, crop_face gray face = Ok m ∧ canonical m.
Proof.
  intros (Hin & Hw & Hh). unfold crop_face, canonical.
  destruct (mat_roi_inside gray face Hin) as (roi & -> & Hr & Hc); simpl.
  destruct (resize_nonempty roi FACE_SIZE FACE_SIZE) as (m & -> & ? & ?);
    rewrite ?Hr, ?Hc; unfold FACE_SIZE in *; try lia.
  by exists m.
Qed.

Lemma crop_face_invalid gray face :
  ¬ valid_region gray face → crop_face gray face = Throw CvException.
Proof.
  intros Hnv. unfold crop_face.
  destruct (decide (rect_inside face gray)) as [Hin|Hout].
  - destruct (mat_roi_inside gray face Hin) as (roi & -> & Hr & Hc); simpl.
    apply resize_empty. rewrite Hr, Hc.
    assert (¬ (0 < rwidth face ∧ 0 < rheight face))
      by (unfold valid_region in Hnv; tauto).
    lia.
  - by rewrite (mat_roi_outside _ _ Hout).
Qed.

Lemma crop_face_Ok_iff gray face :
  is_Ok (crop_face gray face) ↔ valid_region gray face.
Proof.
  split.
  - intros [m Hm]. destruct (decide (valid_region gray face)); [done|].
    rewrite crop_face_invalid in Hm; done.
  - intros (m & -> & _)%crop_face_valid. apply is_Ok_Ok.
Qed.

Lemma crop_face_canonical gray face m :
  crop_face gray face = Ok m → canonical m.
Proof.
  intros Hm. destruct (decide (valid_region gray face)) as [Hv|Hv].
  - destruct (crop_face_valid _ _ Hv) as (m' & Hm' & ?). congruence.
  - rewrite crop_face_invalid in Hm; done.
Qed.

Lemma crop_face_throws gray face e :
  crop_face gray face = Throw e → e = CvException ∧ ¬ valid_region gray face.
Proof.
  intros He. destruct (decide (valid_region gray face)) as [Hv|Hv].
  - destruct (crop_face_valid _ _ Hv) as (m' & Hm' & ?). congruence.
  - rewrite crop_face_invalid in He; [|done]. by injection He as <-.
Qed.
End vision_facts.

#[export] Hint Resolve crop_face_canonical : cfd.

(** ** A stub library

    An image is its size and the trail of operations that produced it, most
    recent first; a classifier is the list of regions it reports, whatever
    the frame. *)
Module StubVision.
Inductive mat_op : Type :=
  | OpGray
  | OpRect (r : Rect)
  | OpRoi (r : Rect)
  | OpResize.

#[global] Instance mat_op_eq_dec : EqDecision mat_op.
Proof. solve_decision. Defined.

Record smat : Type := SMat { s_rows : Z; s_cols : Z; s_trail : list mat_op }.

#[global] Instance smat_eq_dec : EqDecision smat.
Proof. solve_decision. Defined.

Definition s_inside (r : Rect) (m : smat) : Prop :=
  0 ≤ rx r ∧ 0 ≤ rwidth r ∧ rx r + rwidth r ≤ s_cols m ∧
  0 ≤ ry r ∧ 0 ≤ rheight r ∧ ry r + rheight r ≤ s_rows m.

#[global] Instance s_inside_dec r m : Decision (s_inside r m).
Proof. unfold s_inside. apply _. Defined.

Definition s_gray (m : smat) : smat :=
  SMat (s_rows m) (s_cols m) (OpGray :: s_trail m).
Definition s_rectangle (m : smat) (r : Rect) : smat :=
  SMat (s_rows m) (s_cols m) (OpRect r :: s_trail m).
Definition s_roi (m : smat) (r : Rect) : outcome smat :=
  if decide (s_inside r m)
  then Ok (SMat (rheight r) (rwidth r) (OpRoi r :: s_trail m))
  else Throw CvException.
Definition s_resize (m : smat) (w h : Z) : outcome smat :=
  if decide (0 < s_rows m ∧ 0 < s_cols m)
  then Ok (SMat h w (OpResize :: s_trail m))
  else Throw CvException.

Lemma s_roi_inside m r :
  s_inside r m →
  ∃ m', s_roi m r = Ok m' ∧ s_rows m' = rheight r ∧ s_cols m' = rwidth r.
Proof. intros Hin. unfold s_roi. rewrite decide_True by done. eauto. Qed.

Lemma s_roi_outside m r : ¬ s_inside r m → s_roi m r = Throw CvException.
Proof. intros Hout. unfold s_roi. by rewrite decide_False. Qed.

Lemma s_resize_nonempty m w h :
  0 < s_rows m → 0 < s_cols m → 0 < w → 0 < h →
  ∃ m', s_resize m w h = Ok m' ∧ s_rows m' = h ∧ s_cols m' = w.
Proof. intros. unfold s_resize. rewrite decide_True by done. eauto. Qed.

Lemma s_resize_empty m w h :
  s_rows m ≤ 0 ∨ s_cols m ≤ 0 → s_resize m w h = Throw CvException.
Proof. intros. unfold s_resize. rewrite decide_False by lia. done. Qed.

#[export] Instance stub : VisionLib := {|
  Mat := smat;
  CascadeClassifier := list Rect;
  mat_rows := s_rows;
  mat_cols := s_cols;
  cvtColor_gray := s_gray;
  detectMultiScale := λ c _, c;
  rectangle := s_rectangle;
  mat_roi := s_roi;
  resize := s_resize;
  cvtColor_gray_rows := λ _, eq_refl;
  cvtColor_gray_cols := λ _, eq_refl;
  rectangle_rows := λ _ _, eq_refl;
  rectangle_cols := λ _ _, eq_refl;
  mat_roi_inside := s_roi_inside;
  mat_roi_outside := s_roi_outside;
  resize_nonempty := s_resize_nonempty;
  resize_empty := s_resize_empty;
|}.

(** A 640 x 480 camera frame. *)
Definition frame0 : smat := SMat 480 640 [].
End StubVision.
