(* ===== verification/Shared.v ===== *)
(** * Shared: the state both threads access under [dataMutex]

    The vector [capturedFaces] of [main] (src/compscifinal.cpp, line 106)
    and the global [maxFaces] (line 16) are the only data the capture loop
    and the command loop share, apart from the stop flag.  [shared] holds
    both; [shared_wf] is the well-formedness every operation preserves:
    [maxFaces] is a value of type [int] and every buffered face has the
    canonical size. *)

From S2P Require Import Prelude Vision.

Section shared.
Context {V : VisionLib}.

Record shared : Type := Shared {
  capturedFaces : list Mat;   (* vector<Mat> capturedFaces, line 106 *)
  maxFaces : Z;               (* int maxFaces, line 16 *)
}.

#[global] Instance shared_eq_dec : EqDecision shared.
Proof. solve_decision. Defined.

(** [int maxFaces = 1] and a freshly constructed vector. *)
Definition shared_init : shared := Shared [] 1.

Definition set_capturedFaces (l : list Mat) (sh : shared) : shared :=
  Shared l (maxFaces sh).
Definition set_maxFaces (n : Z) (sh : shared) : shared :=
  Shared (capturedFaces sh) n.

Record shared_wf (sh : shared) : Prop := SharedWf {
  wf_maxFaces : is_int (maxFaces sh);
  wf_canonical : Forall canonical (capturedFaces sh);
}.

#[global] Instance shared_wf_dec sh : Decision (shared_wf sh).
Proof.
  refine (cast_if_and (decide (is_int (maxFaces sh)))
                      (decide (Forall canonical (capturedFaces sh))));
    [by constructor | by intros [] | by intros []].
Defined.

(** The number of faces a frame may contribute: [maxFaces] when it is
    positive, none otherwise. *)
Definition face_limit (sh : shared) : nat := Z.to_nat (maxFaces sh).

Lemma shared_init_wf : shared_wf shared_init.
Proof. by constructor; [compute; split; discriminate | constructor]. Qed.

Lemma set_capturedFaces_wf l sh :
  shared_wf sh → Forall canonical l → shared_wf (set_capturedFaces l sh).
Proof. intros [] ?. by constructor. Qed.

Lemma set_maxFaces_wf n sh :
  shared_wf sh → is_int n → shared_wf (set_maxFaces n sh).
Proof. intros [] ?. by constructor. Qed.
End shared.

#[export] Hint Resolve shared_init_wf set_capturedFaces_wf set_maxFaces_wf : cfd.
