(* ===== verification/Detect.v ===== *)
(** * Detect: [detectFaces] and the capture loop's update of the buffer

    [detectFaces] (src/compscifinal.cpp, lines 19-33) converts the frame to
    gray, asks the classifier for regions and walks them with a counter:
    the loop stops at the first region for which [faceCount >= maxFaces],
    and before that draws the region on the frame, crops it from the gray
    image, resizes the crop to 200 x 200 and appends it to the vector.
    [detect_loop] is that loop, one clause per statement; [detectFaces] the
    function; [process_frame] the critical section of the capture loop
    (lines 176-178), which clears the vector first.

    The theorems relate the loop to the reference definition
    [detect_reference] (crop the first [maxFaces] regions), give the length
    and the size of what is buffered, show that the counter stays in the
    range of [int], and characterise the calls that throw. *)

From S2P Require Import Prelude Vision Shared.

Section detect.
Context {V : VisionLib}.
Implicit Types (frame gray : Mat) (face : Rect) (faces : list Rect).

(** The variables the loop of lines 25-32 updates. *)
Record detect_state : Type := DetectState {
  ds_frame : Mat;           (* Mat &frame *)
  ds_captured : list Mat;   (* vector<Mat> &capturedFaces *)
  ds_count : Z;             (* int faceCount *)
}.

(** Lines 27-31: one iteration after the test of line 26. *)
Definition detect_body gray face (st : detect_state) : outcome detect_state :=
  let frame' := rectangle (ds_frame st) face in
  faceROI ← mat_roi gray face;
  faceROI ← resize faceROI FACE_SIZE FACE_SIZE;
  Ok (DetectState frame' (ds_captured st ++ [faceROI])
                  (wrap_int (ds_count st + 1))).

(** Lines 25-32. *)
Fixpoint detect_loop (maxFaces : Z) gray faces (st : detect_state)
    : outcome detect_state :=
  match faces with
  | [] => Ok st
  | face :: faces =>
      if bool_decide (ds_count st >= maxFaces) then Ok st
      else st ← detect_body gray face st; detect_loop maxFaces gray faces st
  end.

(** Lines 19-33.  The frame and the vector are reference parameters: the
    result pairs their final values. *)
Definition detectFaces (maxFaces : Z) (faceCascade : CascadeClassifier)
    frame (capturedFaces : list Mat) : outcome (Mat * list Mat) :=
  let gray := cvtColor_gray frame in
  let faces := detectMultiScale faceCascade gray in
  st ← detect_loop maxFaces gray faces (DetectState frame capturedFaces 0);
  Ok (ds_frame st, ds_captured st).

(** Lines 176-178: the critical section of the capture loop. *)
Definition process_frame (faceCascade : CascadeClassifier) frame (sh : shared)
    : outcome (Mat * shared) :=
  let sh := set_capturedFaces [] sh in
  '(frame, faces) ← detectFaces (maxFaces sh) faceCascade frame (capturedFaces sh);
  Ok (frame, set_capturedFaces faces sh).

(** ** Reference definition *)

(** The regions the loop accepts: the first [maxFaces - count] ones. *)
Definition accepted (maxFaces count : Z) faces : list Rect :=
  take (Z.to_nat (maxFaces - count)) faces.

Definition detect_reference (maxFaces : Z) gray faces (st : detect_state)
    : outcome detect_state :=
  let acc := accepted maxFaces (ds_count st) faces in
  crops ← mapM (crop_face gray) acc;
  Ok (DetectState (foldl rectangle (ds_frame st) acc)
                  (ds_captured st ++ crops)
                  (ds_count st + Z.of_nat (length acc))).

(** ** The loop against the reference *)

Lemma accepted_nil maxFaces count : accepted maxFaces count [] = [].
Proof. unfold accepted. by rewrite take_nil. Qed.

Lemma accepted_stop maxFaces count faces :
  count >= maxFaces → accepted maxFaces count faces = [].
Proof. intros. unfold accepted. apply take_Z_nonpos. lia. Qed.

Lemma accepted_cons maxFaces count face faces :
  ¬ count >= maxFaces →
  accepted maxFaces count (face :: faces)
  = face :: accepted maxFaces (count + 1) faces.
Proof.
  intros. unfold accepted.
  replace (Z.to_nat (maxFaces - count))
    with (S (Z.to_nat (maxFaces - (count + 1)))) by lia.
  done.
Qed.

Lemma length_accepted maxFaces count faces :
  Z.of_nat (length (accepted maxFaces count faces))
  = Z.min (Z.of_nat (length faces)) (Z.max 0 (maxFaces - count)).
Proof. apply length_take_Z. Qed.

Lemma detect_body_crop gray face st :
  detect_body gray face st
  = crop ← crop_face gray face;
    Ok (DetectState (rectangle (ds_frame st) face) (ds_captured st ++ [crop])
                    (wrap_int (ds_count st + 1))).
Proof.
  unfold detect_body, crop_face. destruct (mat_roi gray face); simpl; done.
Qed.

Lemma detect_loop_reference maxFaces gray faces st :
  is_int maxFaces → 0 ≤ ds_count st →
  detect_loop maxFaces gray faces st = detect_reference maxFaces gray faces st.
Proof.
  intros Hmax. revert st.
  induction faces as [|face faces IH]; intros [frame capt count] Hc;
    unfold detect_reference; simpl in *.
  - rewrite accepted_nil. simpl. by rewrite app_nil_r, Z.add_0_r.
  - case_bool_decide as Hstop.
    + rewrite accepted_stop by done. simpl. by rewrite app_nil_r, Z.add_0_r.
    + rewrite accepted_cons, detect_body_crop by done. simpl.
      destruct (crop_face gray face) as [crop|e]; simpl; [|done].
      rewrite wrap_int_id by (unfold is_int, INT_MIN, INT_MAX in *; lia).
      rewrite IH by (simpl; lia). unfold detect_reference; simpl.
      destruct (mapM _ _) as [crops|e]; simpl; [|done].
      rewrite <-app_assoc. do 2 f_equal. lia.
Qed.

(** ** Consequences for [detectFaces] *)

Lemma detectFaces_reference maxFaces faceCascade frame capt :
  is_int maxFaces →
  detectFaces maxFaces faceCascade frame capt
  = let gray := cvtColor_gray frame in
    let acc := take (Z.to_nat maxFaces) (detectMultiScale faceCascade gray) in
    crops ← mapM (crop_face gray) acc;
    Ok (foldl rectangle frame acc, capt ++ crops).
Proof.
  intros Hmax. unfold detectFaces.
  rewrite detect_loop_reference by done.
  unfold detect_reference, accepted; simpl. rewrite Z.sub_0_r.
  by destruct (mapM _ _).
Qed.

Lemma detectFaces_Ok_inv maxFaces faceCascade frame capt frame' capt' :
  is_int maxFaces →
  detectFaces maxFaces faceCascade frame capt = Ok (frame', capt') →
  let gray := cvtColor_gray frame in
  let acc := take (Z.to_nat maxFaces) (detectMultiScale faceCascade gray) in
  ∃ crops, mapM (crop_face gray) acc = Ok crops ∧
           frame' = foldl rectangle frame acc ∧ capt' = capt ++ crops.
Proof.
  intros Hmax. rewrite detectFaces_reference by done. simpl.
  intros (crops & Hcrops & [= <- <-])%bind_Ok. eauto.
Qed.

(** The regions [process_frame] buffers for a frame. *)
Definition frame_regions (faceCascade : CascadeClassifier) frame (sh : shared)
    : list Rect :=
  take (face_limit sh) (detectMultiScale faceCascade (cvtColor_gray frame)).

Lemma length_frame_regions faceCascade frame sh :
  Z.of_nat (length (frame_regions faceCascade frame sh))
  = Z.min (Z.of_nat (length (detectMultiScale faceCascade (cvtColor_gray frame))))
          (Z.max 0 (maxFaces sh)).
Proof. apply length_take_Z. Qed.

Lemma process_frame_unfold faceCascade frame sh :
  is_int (maxFaces sh) →
  process_frame faceCascade frame sh
  = crops ← mapM (crop_face (cvtColor_gray frame))
                 (frame_regions faceCascade frame sh);
    Ok (foldl rectangle frame (frame_regions faceCascade frame sh),
        set_capturedFaces crops sh).
Proof.
  intros Hmax. unfold process_frame; simpl.
  rewrite detectFaces_reference by done. simpl.
  by destruct (mapM _ _).
Qed.

Lemma process_frame_Ok_inv faceCascade frame sh frame' sh' :
  is_int (maxFaces sh) →
  process_frame faceCascade frame sh = Ok (frame', sh') →
  ∃ crops,
    mapM (crop_face (cvtColor_gray frame)) (frame_regions faceCascade frame sh)
      = Ok crops ∧
    frame' = foldl rectangle frame (frame_regions faceCascade frame sh) ∧
    sh' = set_capturedFaces crops sh.
Proof.
  intros Hmax. rewrite process_frame_unfold by done.
  intros (crops & Hcrops & [= <- <-])%bind_Ok. eauto.
Qed.

(** The result of the critical section does not depend on the buffer it
    starts with, and the limit is not changed. *)
Lemma process_frame_shape faceCascade frame sh frame' sh' :
  process_frame faceCascade frame sh = Ok (frame', sh') →
  process_frame faceCascade frame (Shared [] (maxFaces sh))
  = Ok (frame', Shared (capturedFaces sh') (maxFaces sh)) ∧
  maxFaces sh' = maxFaces sh.
Proof.
  unfold process_frame. simpl.
  destruct (detectFaces _ _ _ _) as [[f faces]|]; simpl; [|done].
  by intros [= <- <-].
Qed.

(** ** Properties of the critical section *)

(** C1.  The critical section of the capture loop computes the reference
    result: the buffer becomes the crops of the first [maxFaces] detected
    regions, in detection order, whatever it held before, the frame gets
    one rectangle per buffered region, and a crop that fails makes the
    whole section throw. *)
Theorem process_frame_reference faceCascade frame sh :
  is_int (maxFaces sh) →
  process_frame faceCascade frame sh
  = let gray := cvtColor_gray frame in
    let acc := take (Z.to_nat (maxFaces sh)) (detectMultiScale faceCascade gray) in
    crops ← mapM (crop_face gray) acc;
    Ok (foldl rectangle frame acc, Shared crops (maxFaces sh)).
Proof. apply process_frame_unfold. Qed.

(** C28.  After a frame with [k] detected regions is processed with
    [maxFaces = m], the buffer holds exactly [min k (max 0 m)] faces. *)
Theorem process_frame_length faceCascade frame sh frame' sh' :
  is_int (maxFaces sh) →
  process_frame faceCascade frame sh = Ok (frame', sh') →
  Z.of_nat (length (capturedFaces sh'))
  = Z.min (Z.of_nat (length (detectMultiScale faceCascade (cvtColor_gray frame))))
          (Z.max 0 (maxFaces sh)).
Proof.
  intros Hmax (crops & Hcrops & _ & ->)%process_frame_Ok_inv; [|done].
  simpl. rewrite (mapM_outcome_length _ _ _ Hcrops).
  apply length_frame_regions.
Qed.

(** The buffer never accumulates across frames: what a frame leaves
    in the buffer does not depend on what the buffer held before. *)
Theorem process_frame_no_accumulation faceCascade frame sh old :
  process_frame faceCascade frame (set_capturedFaces old sh)
  = process_frame faceCascade frame sh.
Proof. done. Qed.

(** The critical section preserves the well-formedness of the shared
    state: [maxFaces] is untouched and every buffered face is 200 x 200. *)
Theorem process_frame_wf faceCascade frame sh frame' sh' :
  shared_wf sh →
  process_frame faceCascade frame sh = Ok (frame', sh') →
  shared_wf sh' ∧ maxFaces sh' = maxFaces sh.
Proof.
  intros [Hmax _] (crops & Hcrops & _ & ->)%process_frame_Ok_inv; [|done].
  split; [|done]. constructor; [done|]. simpl.
  eapply mapM_outcome_Forall, Hcrops. apply crop_face_canonical.
Qed.

(** The counter [faceCount] stays in the range of [int]: when the
    loop ends it equals the number of accepted regions, so the increment
    of line 31 never overflows. *)
Theorem detect_loop_count maxFaces gray faces frame capt st :
  is_int maxFaces →
  detect_loop maxFaces gray faces (DetectState frame capt 0) = Ok st →
  ds_count st = Z.min (Z.of_nat (length faces)) (Z.max 0 maxFaces)
  ∧ is_int (ds_count st) ∧ ds_count st ≤ Z.max 0 maxFaces.
Proof.
  intros Hmax. rewrite detect_loop_reference by done.
  unfold detect_reference; simpl.
  intros (crops & _ & [= <-])%bind_Ok. simpl.
  rewrite length_accepted, Z.sub_0_r.
  unfold is_int, INT_MIN, INT_MAX in *. lia.
Qed.

(** [process_frame] returns normally when every region it accepts
    lies inside the gray image and has a positive width and height. *)
Theorem process_frame_total faceCascade frame sh :
  is_int (maxFaces sh) →
  Forall (valid_region (cvtColor_gray frame)) (frame_regions faceCascade frame sh) →
  is_Ok (process_frame faceCascade frame sh).
Proof.
  intros Hmax Hvalid. rewrite process_frame_unfold by done.
  assert (is_Ok (mapM (crop_face (cvtColor_gray frame))
                      (frame_regions faceCascade frame sh))) as [crops ->].
  { apply mapM_outcome_is_Ok. eapply Forall_impl; [done|].
    intros r. apply crop_face_Ok_iff. }
  apply is_Ok_Ok.
Qed.

(** When an accepted region leaves the gray image or is empty, the
    critical section throws [cv::Exception]: the program has no handler,
    and the buffer is not updated. *)
Theorem process_frame_throws faceCascade frame sh :
  is_int (maxFaces sh) →
  Exists (λ r, ¬ valid_region (cvtColor_gray frame) r)
         (frame_regions faceCascade frame sh) →
  process_frame faceCascade frame sh = Throw CvException.
Proof.
  intros Hmax Hbad. rewrite process_frame_unfold by done.
  destruct (mapM _ _) as [crops|e] eqn:Hcrops; simpl.
  - apply mapM_outcome_Ok in Hcrops.
    apply Exists_exists in Hbad as (r & Hr & Hnv).
    apply list_elem_of_lookup in Hr as [i Hi].
    destruct (Forall2_lookup_l _ _ _ _ _ Hcrops Hi) as (m & _ & Hm).
    by rewrite crop_face_invalid in Hm.
  - apply mapM_outcome_Throw, Exists_exists in Hcrops as (r & _ & Hr).
    by apply crop_face_throws in Hr as [-> _].
Qed.
End detect.

(** ** The properties at concrete inputs

    A 640 x 480 frame in which the stub classifier reports two regions, a
    third one that leaves the image, and an empty one. *)
Section detect_witnesses.
Import StubVision.

Definition face_a : Rect := mkRect 10 20 50 60.
Definition face_b : Rect := mkRect 300 200 80 80.
Definition face_out : Rect := mkRect 600 400 80 80.
Definition face_empty : Rect := mkRect 5 5 0 10.
Definition two_faces : list Rect := [face_a; face_b].

Lemma process_frame_reference_witness :
  is_int (maxFaces (V:=stub) shared_init) ∧
  process_frame (V:=stub) two_faces frame0 shared_init
  = Ok (SMat 480 640 [OpRect face_a],
        Shared [SMat 200 200 [OpResize; OpRoi face_a; OpGray]] 1).
Proof.
  split; [compute_done|].
  by rewrite (process_frame_reference (V:=stub) two_faces frame0 shared_init)
    by compute_done.
Defined.

Lemma process_frame_length_witness :
  Z.of_nat (length (capturedFaces (V:=stub)
    (Shared [SMat 200 200 [OpResize; OpRoi face_a; OpGray]] 1))) = 1.
Proof.
  rewrite (process_frame_length (V:=stub) two_faces frame0 shared_init
             (SMat 480 640 [OpRect face_a])); [done|compute_done|done].
Defined.

Lemma process_frame_wf_witness :
  shared_wf (V:=stub) (Shared [SMat 200 200 [OpResize; OpRoi face_b; OpGray]] 7)
  ∧ shared_wf (V:=stub) (Shared [SMat 200 200 [OpResize; OpRoi face_a; OpGray];
                       SMat 200 200 [OpResize; OpRoi face_b; OpGray]] 7).
Proof.
  split; [compute_done|].
  refine (proj1 (process_frame_wf (V:=stub) two_faces frame0
    (Shared [SMat 200 200 [OpResize; OpRoi face_b; OpGray]] 7)
    (SMat 480 640 [OpRect face_b; OpRect face_a]) _ _ _));
    [compute_done | done].
Defined.

Lemma detect_loop_count_witness :
  is_int 1 ∧
  ds_count (V:=stub) (DetectState (SMat 480 640 [OpRect face_a])
              [SMat 200 200 [OpResize; OpRoi face_a; OpGray]] 1)
  = Z.min 2 (Z.max 0 1).
Proof.
  split; [compute_done|].
  refine (proj1 (detect_loop_count (V:=stub) 1 (s_gray frame0) two_faces frame0 [] _ _ _));
    [compute_done | done].
Defined.

Lemma process_frame_total_witness :
  is_Ok (process_frame (V:=stub) two_faces frame0 (Shared [] 2)).
Proof. apply process_frame_total; compute_done. Defined.

Lemma process_frame_throws_witness :
  process_frame (V:=stub) [face_a; face_out] frame0 (Shared [] 2) = Throw CvException
  ∧ process_frame (V:=stub) [face_empty] frame0 (Shared [] 2) = Throw CvException.
Proof. split; apply process_frame_throws; compute_done. Defined.
End detect_witnesses.
