(* ===== verification/FileSystem.v ===== *)
(** * FileSystem: the capture directory

    The handlers reach the file system through five calls: [imwrite]
    (src/compscifinal.cpp, line 44), [fs::directory_iterator] with
    [is_regular_file] (lines 52-53 and 80-81), [fs::remove] (line 54),
    [fs::last_write_time] (line 88) and [fs::rename] (line 97), and they
    take apart a path with [parent_path] and [extension] (line 96).

    The directory is a finite map from entry names to nodes.  A node is a
    regular file with its last-write time and content, a directory, or
    something else.  Only entries of the capture directory are
    represented: a rename whose target is not a single path component is
    resolved by the host ([Host], field [rename_outside]), which also
    supplies the clock and the calendar formatting.  [SteadyClock] and
    [PlainCalendar] are the hosts on which time stamps never repeat: the
    clock is never set back, and no local time comes twice.

    The order in which [directory_iterator] yields entries is unspecified;
    [dir_list] takes the order of [map_to_list], and the lemmas on
    [most_recent] hold for every order. *)

From S2P Require Import Prelude CppString.
From stdpp Require Import sorting pretty.
From Stdlib Require Import Ascii.

#[local] Open Scope Z_scope.

(** ** Definitions *)

Inductive node (C : Type) : Type :=
  | File (mtime : Z) (data : C)   (* is_regular_file() holds *)
  | Directory
  | Other.
Arguments File {C} mtime data.
Arguments Directory {C}.
Arguments Other {C}.

#[global] Instance node_eq_dec `{EqDecision C} : EqDecision (node C).
Proof. solve_decision. Defined.

(** [entry.is_regular_file()]. *)
Definition is_regular_file {C} (n : node C) : bool :=
  match n with File _ _ => true | _ => false end.

(** A name that denotes an entry of the directory itself: one path
    component, neither [.] nor [..]. *)
Definition has_slash (s : string) : bool := string_mem "/" s.

Definition plain_name (s : string) : Prop :=
  s ≠ "" ∧ s ≠ "." ∧ s ≠ ".." ∧ has_slash s = false.

#[global] Instance plain_name_dec s : Decision (plain_name s).
Proof. unfold plain_name. apply _. Defined.

(** What the process cannot compute by itself. *)
Class Host : Type := {
  (** The [n]-th reading of the system clock, in microseconds since the
      epoch, less the time the process has spent in [sleep_for] before
      it: what the clock would show had every sleep returned at once. *)
  clock : nat → Z;
  (** [put_time(localtime(&t), "%Y-%m-%d_%H-%M-%S")] for the [time_t]
      value [t], in seconds since the epoch. *)
  put_time : Z → string;
  (** [fs::rename] to a target that is not a plain name: the call throws,
      or the file leaves the directory ([None]), or it ends under the plain
      name the target resolves to. *)
  rename_outside : string → outcome (option string);
  put_time_no_slash t : has_slash (put_time t) = false;
  rename_outside_plain target n :
    rename_outside target = Ok (Some n) → plain_name n;
}.

(** [chrono::system_clock::to_time_t] (line 39): the whole seconds of a
    time in microseconds; [duration_cast] rounds towards zero. *)
Definition to_time_t (t : Z) : Z := t `quot` 1000000.

(** A host whose clock shows a time after the epoch and is never set
    back. *)
Class SteadyClock (HO : Host) : Prop := {
  clock_epoch : 0 ≤ clock 0;
  clock_mono m n : (m ≤ n)%nat → clock m ≤ clock n;
}.

(** A host in whose calendar no time comes twice: the local time has no
    hour that is repeated when daylight saving time ends. *)
Class PlainCalendar (HO : Host) : Prop :=
  put_time_inj t1 t2 : put_time t1 = put_time t2 → t1 = t2.

#[global] Hint Mode SteadyClock ! : typeclass_instances.
#[global] Hint Mode PlainCalendar ! : typeclass_instances.

Section filesystem.
Context {C : Type}.
#[local] Abbreviation dir := (gmap string (node C)) (only parsing).
Implicit Types (d : dir) (name : string) (n : node C).

(** [fs::directory_iterator(directory)]: the entries in some order. *)
Definition dir_list d : list (string * node C) := map_to_list d.

(** Lines 79-84 of [renameFile]: the names of the regular files. *)
Definition regular_files d : list string :=
  (filter (λ e, is_regular_file e.2 = true) (dir_list d)).*1.

(** [fs::last_write_time(path)] for an entry that is listed. *)
Definition last_write_time d name : Z :=
  match d !! name with
  | Some (File t _) => t
  | _ => 0
  end.

(** The comparator of lines 87-89 as the order [std::sort] establishes
    between consecutive elements: [a] may precede [b] when [b] is not
    strictly more recent. *)
Definition not_older d (a b : string) : Prop :=
  last_write_time d b ≤ last_write_time d a.

#[global] Instance not_older_dec d a b : Decision (not_older d a b).
Proof. unfold not_older. apply _. Defined.

(** Line 90: [sort(files.begin(), files.end(), compareLastWriteTime)]. *)
Definition sort_by_last_write d (files : list string) : list string :=
  merge_sort (not_older d) files.

(** Lines 79-94: [files[0]] after the sort, if there is a file. *)
Definition most_recent d : option string :=
  head (sort_by_last_write d (regular_files d)).

(** [cv::imwrite(filename, img)] for a name in the directory, at time [t]:
    creates or overwrites a regular file; returns [false] and writes
    nothing when the name is taken by something that is not a file. *)
Definition imwrite name (img : C) (t : Z) d : dir :=
  match d !! name with
  | Some Directory | Some Other => d
  | _ => <[name := File t img]> d
  end.

(** Lines 52-56 of [clearCapturedFaces]: [fs::remove] on every regular
    file the iterator yields. *)
Definition remove_step (acc : dir) (e : string * node C) : dir :=
  if is_regular_file e.2 then delete e.1 acc else acc.

Definition remove_regular_files d : dir :=
  foldl remove_step d (dir_list d).

(** [fs::rename(old, new)] between two names of the directory: the source
    must exist, a directory cannot be replaced by a file, anything else at
    the target is replaced. *)
Definition rename_entry (src dst : string) d : outcome dir :=
  match d !! src with
  | None => Throw FilesystemError
  | Some n =>
      match d !! dst with
      | Some Directory => Throw FilesystemError
      | _ => Ok (<[dst := n]> (delete src d))
      end
  end.

(** [fs::rename(directory / src, directory / target)]. *)
Definition fs_rename `{Host} (src target : string) d : outcome dir :=
  if decide (plain_name target) then rename_entry src target d
  else
    r ← rename_outside target;
    match r with
    | None => if d !! src is Some _ then Ok (delete src d) else Throw FilesystemError
    | Some dst => rename_entry src dst d
    end.
End filesystem.

(** [path::extension()] of a file name: from the last dot, unless the name
    is [.] or [..] or its only dot is the first character. *)
Definition path_extension (name : string) : string :=
  match name with
  | EmptyString => ""
  | String _ rest =>
      if bool_decide (name = "." ∨ name = "..") then ""
      else default "" (last_suffix_from "." rest)
  end.

(** [directory + "/face_" + timestamp + "_" + to_string(i) + ".png"]
    (line 43), relative to the directory. *)
Definition face_file_name (timestamp : string) (i : nat) : string :=
  "face_" +:+ timestamp +:+ "_" +:+ to_string i +:+ ".png".

(** A host for the witnesses: four clock readings per second from a fixed
    date, the seconds printed in decimal as the time stamp, and no place
    outside the directory to rename to. *)
Module StubHost.
Definition s_clock (n : nat) : Z := 1700000000000000 + 250000 * Z.of_nat n.
Definition s_put_time (t : Z) : string := pretty t.
Definition s_rename_outside (target : string) : outcome (option string) :=
  Throw FilesystemError.

Lemma s_put_time_no_slash t : has_slash (s_put_time t) = false.
Proof.
  unfold s_put_time, pretty, pretty_Z, has_slash.
  destruct t as [|p|p]; [done| |rewrite string_mem_app; simpl];
    (apply all_digits_mem; [apply pretty_N_digits | done]).
Qed.

Lemma s_rename_outside_plain target n :
  s_rename_outside target = Ok (Some n) → plain_name n.
Proof. done. Qed.

#[export] Instance stub_host : Host := {|
  clock := s_clock;
  put_time := s_put_time;
  rename_outside := s_rename_outside;
  put_time_no_slash := s_put_time_no_slash;
  rename_outside_plain := s_rename_outside_plain;
|}.

#[export] Instance stub_steady : SteadyClock stub_host.
Proof. split; [done|]. intros m n Hmn. simpl. unfold s_clock. lia. Qed.

#[export] Instance stub_plain : PlainCalendar stub_host.
Proof. intros t1 t2. apply (inj pretty). Qed.
End StubHost.

(** ** Lemmas on listings *)

Section listing.
Context {C : Type}.
#[local] Abbreviation dir := (gmap string (node C)) (only parsing).
Implicit Types (d : dir) (name f g : string) (n : node C).

Lemma elem_of_dir_list d name n : (name, n) ∈ dir_list d ↔ d !! name = Some n.
Proof. apply elem_of_map_to_list. Qed.

Lemma elem_of_regular_files d name :
  name ∈ regular_files d ↔ ∃ t c, d !! name = Some (File t c).
Proof.
  unfold regular_files. rewrite list_elem_of_fmap. split.
  - intros ([name' n] & -> & [Hreg Hin]%list_elem_of_filter).
    apply elem_of_dir_list in Hin. destruct n; naive_solver.
  - intros (t & c & Hname). exists (name, File t c). split; [done|].
    apply list_elem_of_filter. split; [done | by apply elem_of_dir_list].
Qed.

Lemma NoDup_regular_files d : NoDup (regular_files d).
Proof.
  eapply sublist_NoDup; [apply (NoDup_fst_map_to_list d)|].
  apply fmap_sublist, sublist_filter.
Qed.

Lemma regular_files_nil d :
  regular_files d = [] ↔ ∀ name t c, d !! name ≠ Some (File t c).
Proof.
  split.
  - intros Hnil name t c Hname.
    assert (name ∈ regular_files d) as Hin by (apply elem_of_regular_files; eauto).
    rewrite Hnil in Hin. by apply elem_of_nil in Hin.
  - intros Hno. destruct (regular_files d) as [|f l] eqn:Hl; [done|].
    assert (f ∈ regular_files d) as (t & c & Hf)%elem_of_regular_files
      by (rewrite Hl; left).
    by destruct (Hno f t c).
Qed.

Lemma last_write_time_File d name t c :
  d !! name = Some (File t c) → last_write_time d name = t.
Proof. unfold last_write_time. by intros ->. Qed.

#[global] Instance not_older_total d : Total (not_older d).
Proof. intros a b. unfold not_older. lia. Qed.

#[global] Instance not_older_trans d : Transitive (not_older d).
Proof. intros a b c. unfold not_older. lia. Qed.

#[global] Instance not_older_refl d : Reflexive (not_older d).
Proof. intros a. unfold not_older. lia. Qed.

(** [f] is a regular file and none is more recent. *)
Definition latest d (f : string) : Prop :=
  f ∈ regular_files d ∧
  ∀ g, g ∈ regular_files d → last_write_time d g ≤ last_write_time d f.

(** The head of any arrangement of the files that is sorted by the
    comparator is a latest file: this is all [renameFile] uses of the
    listing order and of the sorting algorithm. *)
Lemma head_sorted_latest d (sorted : list string) f :
  sorted ≡ₚ regular_files d →
  StronglySorted (not_older d) sorted →
  head sorted = Some f → latest d f.
Proof.
  intros Hperm Hsorted Hhead.
  destruct sorted as [|f' rest]; simplify_eq/=.
  apply StronglySorted_inv in Hsorted as [_ Hall]. split.
  - rewrite <-Hperm. left.
  - intros g. rewrite <-Hperm. intros [->|Hg]%elem_of_cons; [done|].
    by apply (proj1 (Forall_forall _ _) Hall).
Qed.

Lemma latest_unique d f g :
  (∀ a b, a ∈ regular_files d → b ∈ regular_files d →
          last_write_time d a = last_write_time d b → a = b) →
  latest d f → latest d g → f = g.
Proof.
  intros Hinj [Hf Hfmax] [Hg Hgmax]. apply Hinj; [done..|].
  specialize (Hfmax g Hg). specialize (Hgmax f Hf). lia.
Qed.

Lemma sort_by_last_write_perm d files : sort_by_last_write d files ≡ₚ files.
Proof. apply merge_sort_Permutation. Qed.

Lemma sort_by_last_write_sorted d files :
  StronglySorted (not_older d) (sort_by_last_write d files).
Proof. apply StronglySorted_merge_sort; apply _. Qed.

Lemma most_recent_latest d f : most_recent d = Some f → latest d f.
Proof.
  apply head_sorted_latest;
    [apply sort_by_last_write_perm | apply sort_by_last_write_sorted].
Qed.

Lemma most_recent_None d : most_recent d = None ↔ regular_files d = [].
Proof.
  unfold most_recent. rewrite head_None. split.
  - intros Hnil. apply Permutation_nil_r. rewrite <-Hnil.
    symmetry. apply sort_by_last_write_perm.
  - intros ->. done.
Qed.

Lemma most_recent_is_Some d name t c :
  d !! name = Some (File t c) → is_Some (most_recent d).
Proof.
  intros Hname. destruct (most_recent d) eqn:Hmr; [done|].
  apply most_recent_None in Hmr.
  by destruct (proj1 (regular_files_nil d) Hmr name t c).
Qed.
End listing.

(** ** Lemmas on the operations *)

Section operations.
Context {C : Type}.
#[local] Abbreviation dir := (gmap string (node C)) (only parsing).
Implicit Types (d : dir) (name f g : string) (n : node C).

(** [imwrite] can write under [name]: the name is free or a regular file. *)
Definition writable d name : Prop :=
  match d !! name with Some Directory | Some Other => False | _ => True end.

#[global] Instance writable_dec d name : Decision (writable d name).
Proof. unfold writable. destruct (d !! name) as [[]|]; apply _. Defined.

Lemma imwrite_writable name img t d :
  writable d name → imwrite name img t d = <[name := File t img]> d.
Proof. unfold writable, imwrite. by destruct (d !! name) as [[]|]. Qed.

Lemma imwrite_blocked name img t d :
  ¬ writable d name → imwrite name img t d = d.
Proof.
  unfold writable, imwrite. destruct (d !! name) as [[]|]; try done;
    by intros [].
Qed.

Lemma lookup_imwrite_ne name name' img t d :
  name ≠ name' → imwrite name img t d !! name' = d !! name'.
Proof.
  intros. unfold imwrite.
  destruct (d !! name) as [[]|]; by rewrite ?lookup_insert_ne.
Qed.

Lemma lookup_imwrite_eq name img t d :
  writable d name → imwrite name img t d !! name = Some (File t img).
Proof. intros. by rewrite imwrite_writable, lookup_insert_eq. Qed.

Lemma writable_imwrite name name' img t d :
  writable d name' → writable (imwrite name img t d) name'.
Proof.
  intros Hw. unfold writable.
  destruct (decide (name = name')) as [<-|].
  - destruct (decide (writable d name)); [|by rewrite imwrite_blocked].
    by rewrite lookup_imwrite_eq.
  - by rewrite lookup_imwrite_ne.
Qed.

(** The loop of [clearCapturedFaces] against its reference: keep exactly
    the entries that are not regular files. *)
Lemma lookup_foldl_remove_step (l : list (string * node C)) (acc : dir) name :
  foldl remove_step acc l !! name
  = if decide (name ∈ (filter (λ e, is_regular_file e.2 = true) l).*1)
    then None else acc !! name.
Proof.
  revert acc. induction l as [|[k n] l IH]; intros acc; simpl; [done|].
  rewrite IH, filter_cons. unfold remove_step; simpl.
  destruct (is_regular_file n) eqn:Hn; simpl; [|done].
  destruct (decide (name = k)) as [->|].
  - rewrite lookup_delete_eq, (decide_True (P:=k ∈ k :: _)) by left.
    by case_decide.
  - rewrite lookup_delete_ne by done.
    repeat case_decide; set_solver.
Qed.

Lemma lookup_remove_regular_files d name :
  remove_regular_files d !! name
  = n ← d !! name; if is_regular_file n then None else Some n.
Proof.
  unfold remove_regular_files. rewrite lookup_foldl_remove_step.
  fold (regular_files d). case_decide as Hin.
  - apply elem_of_regular_files in Hin as (t & c & ->). done.
  - destruct (d !! name) as [[t c| |]|] eqn:Hname; try done.
    destruct Hin. apply elem_of_regular_files. eauto.
Qed.

Lemma remove_regular_files_filter d :
  remove_regular_files d = filter (λ e, is_regular_file e.2 = false) d.
Proof.
  apply map_eq. intros name. rewrite lookup_remove_regular_files.
  destruct (d !! name) as [n|] eqn:Hname; simpl.
  - destruct (is_regular_file n) eqn:Hn.
    + symmetry. apply map_lookup_filter_None. right. intros n' ?; simplify_eq/=.
      congruence.
    + symmetry. by apply map_lookup_filter_Some.
  - symmetry. apply map_lookup_filter_None. by left.
Qed.

Lemma regular_files_remove d : regular_files (remove_regular_files d) = [].
Proof.
  apply regular_files_nil. intros name t c.
  rewrite lookup_remove_regular_files.
  destruct (d !! name) as [[]|]; simpl; congruence.
Qed.

Lemma rename_entry_Ok src dst d d' :
  rename_entry src dst d = Ok d' ↔
  ∃ n, d !! src = Some n ∧ d !! dst ≠ Some Directory ∧
       d' = <[dst := n]> (delete src d).
Proof.
  unfold rename_entry. split.
  - destruct (d !! src) as [n|]; [|done].
    destruct (d !! dst) as [[]|]; intros [=]; subst; eauto.
  - intros (n & -> & Hdst & ->). by destruct (d !! dst) as [[]|].
Qed.

Lemma rename_entry_same src d t c :
  d !! src = Some (File t c) → rename_entry src src d = Ok d.
Proof.
  intros Hsrc. apply rename_entry_Ok. exists (File t c).
  rewrite Hsrc. split_and!; [done..|].
  by rewrite insert_delete_eq, insert_id.
Qed.

Lemma rename_entry_throws src dst d e :
  rename_entry src dst d = Throw e →
  e = FilesystemError ∧ (d !! src = None ∨ d !! dst = Some Directory).
Proof.
  unfold rename_entry. destruct (d !! src) as [n|]; [|intros [= <-]; auto].
  destruct (d !! dst) as [[]|]; intros [= <-]; auto.
Qed.
End operations.

(** ** Lemmas on names *)

Lemma has_slash_app s t : has_slash (s +:+ t) = has_slash s || has_slash t.
Proof. apply string_mem_app. Qed.

Lemma path_extension_suffix name : ∃ stem, name = stem +:+ path_extension name.
Proof.
  destruct name as [|c rest]; [by exists ""|]. unfold path_extension.
  case_bool_decide as Hdots.
  - exists (String c rest). by rewrite string_app_nil_r.
  - destruct (last_suffix_from "." rest) as [e|] eqn:He; simpl.
    + apply last_suffix_from_suffix in He as (stem & t & -> & _).
      by exists (String c stem).
    + exists (String c rest). by rewrite string_app_nil_r.
Qed.

Lemma path_extension_shape name :
  path_extension name = "" ∨
  ∃ t, path_extension name = String "." t ∧ string_mem "." t = false.
Proof.
  destruct name as [|c rest]; [by left|]. unfold path_extension.
  case_bool_decide; [by left|].
  destruct (last_suffix_from "." rest) as [e|] eqn:He; simpl; [|by left].
  apply last_suffix_from_suffix in He as (_ & t & _ & -> & ?). eauto.
Qed.

Lemma path_extension_app c stem e :
  ¬ (String c stem = "." ∧ e = "") →
  string_mem "." e = false →
  path_extension (String c stem +:+ String "." e) = String "." e.
Proof.
  intros Hstem He. rewrite string_app_cons. unfold path_extension.
  rewrite last_suffix_from_app by done.
  rewrite bool_decide_eq_false_2; [done|].
  destruct stem as [|c1 [|c2 stem]]; rewrite ?string_app_cons, ?string_app_nil;
    intros [[=]|[=]]; subst; by destruct Hstem.
Qed.

Lemma path_extension_no_dot name :
  string_mem "." name = false → path_extension name = "".
Proof.
  destruct name as [|c rest]; [done|]. simpl.
  destruct (Ascii.eqb c "."); [done|]. intros Hrest.
  unfold path_extension. case_bool_decide; [done|].
  by rewrite (proj2 (last_suffix_from_None _ _) Hrest).
Qed.

Lemma path_extension_face ts i : path_extension (face_file_name ts i) = ".png".
Proof.
  unfold face_file_name.
  replace ("face_" +:+ ts +:+ "_" +:+ to_string i +:+ ".png")
    with (String "f" ("ace_" +:+ ts +:+ "_" +:+ to_string i) +:+ String "." "png").
  - apply path_extension_app; [by intros [[=] _] | done].
  - rewrite string_app_cons. change "face_" with (String "f" "ace_").
    rewrite !string_app_cons. f_equal.
    by rewrite !string_app_assoc.
Qed.

Lemma face_file_name_inj ts1 ts2 i j :
  face_file_name ts1 i = face_file_name ts2 j → i = j.
Proof.
  unfold face_file_name. intros Heq%(inj (String.app "face_")).
  assert (∀ ts k, last_suffix_from "_" (ts +:+ "_" +:+ to_string k +:+ ".png")
                  = Some ("_" +:+ to_string k +:+ ".png")) as Hlast.
  { intros ts k. apply (last_suffix_from_app "_" ts (to_string k +:+ ".png")).
    rewrite string_mem_app, to_string_mem by done. done. }
  pose proof (Hlast ts1 i) as H1. rewrite Heq, Hlast in H1.
  injection H1 as H1. rewrite !string_app_nil in H1.
  apply string_app_inv_tail in H1. by apply to_string_inj in H1.
Qed.

Lemma face_file_name_inj_stamp ts1 ts2 i j :
  face_file_name ts1 i = face_file_name ts2 j → ts1 = ts2.
Proof.
  intros Heq. pose proof (face_file_name_inj _ _ _ _ Heq) as ->.
  unfold face_file_name in Heq. apply (inj (String.app "face_")) in Heq.
  by apply string_app_inv_tail in Heq.
Qed.

Lemma to_time_t_mono t1 t2 : t1 ≤ t2 → to_time_t t1 ≤ to_time_t t2.
Proof. intros. apply Z.quot_le_mono; lia. Qed.

Lemma to_time_t_add t n :
  0 ≤ t → 0 ≤ n → to_time_t (t + 1000000 * n) = to_time_t t + n.
Proof.
  intros Ht Hn. unfold to_time_t. rewrite !Z.quot_div_nonneg by lia.
  rewrite (Z.mul_comm 1000000), Z.div_add; lia.
Qed.

Lemma face_file_name_plain ts i :
  has_slash ts = false → plain_name (face_file_name ts i).
Proof.
  intros Hts. unfold plain_name, face_file_name. split_and!; try done.
  rewrite !has_slash_app, Hts.
  replace (has_slash (to_string i)) with false; [done|].
  symmetry. by apply to_string_mem.
Qed.

(** ** [fs_rename] *)

Section fs_rename.
Context {C : Type} `{Host}.
Implicit Types (d : gmap string (node C)).

Lemma fs_rename_plain src target d :
  plain_name target → fs_rename src target d = rename_entry src target d.
Proof. intros. unfold fs_rename. by rewrite decide_True. Qed.

Lemma fs_rename_Ok_missing src target d d' :
  fs_rename src target d = Ok d' → is_Some (d !! src).
Proof.
  unfold fs_rename. case_decide.
  - intros (n & -> & _)%rename_entry_Ok. eauto.
  - destruct (rename_outside target) as [[dst|]|]; simpl; [..|done].
    + intros (n & -> & _)%rename_entry_Ok. eauto.
    + destruct (d !! src); [eauto|done].
Qed.
End fs_rename.

(** ** Properties of the directory operations *)

Section fs_properties.
Context {C : Type}.
Implicit Types (d : gmap string (node C)).

(** When the regular files have pairwise distinct last-write times,
    the file [renameFile] picks does not depend on the order in which the
    directory is listed nor on the sorting algorithm: the head of every
    arrangement sorted by the comparator is the same file. *)
Theorem most_recent_order_independent d (sorted : list string) :
  (∀ a b, a ∈ regular_files d → b ∈ regular_files d →
          last_write_time d a = last_write_time d b → a = b) →
  sorted ≡ₚ regular_files d →
  StronglySorted (not_older d) sorted →
  head sorted = most_recent d.
Proof.
  intros Hinj Hperm Hsorted.
  destruct (head sorted) as [f|] eqn:Hf, (most_recent d) as [g|] eqn:Hg; [..|done].
  - f_equal. eapply latest_unique; [done|..].
    + by eapply head_sorted_latest.
    + by apply most_recent_latest.
  - apply most_recent_None in Hg. rewrite Hg in Hperm.
    apply Permutation_nil_r in Hperm as ->. done.
  - apply head_None in Hf as ->. symmetry in Hperm.
    apply Permutation_nil_r in Hperm. apply most_recent_None in Hperm. congruence.
Qed.
End fs_properties.

(** The target of a rename keeps the extension of the file: for a
    non-empty new name and a file that has an extension, the extension of
    [newName + extension] is that extension again (the one exception is
    the target [..]). *)
Theorem rename_target_extension newName f :
  newName ≠ "" → path_extension f ≠ "" →
  ¬ (newName = "." ∧ path_extension f = ".") →
  path_extension (newName +:+ path_extension f) = path_extension f.
Proof.
  intros Hname Hext Hdots.
  destruct (path_extension_shape f) as [?|(t & Ht & Hdot)]; [done|].
  rewrite Ht in *. destruct newName as [|c stem]; [done|].
  apply path_extension_app; [|done]. intros [? ->]. by apply Hdots.
Qed.

(** ** The properties at concrete inputs *)

Definition two_files : gmap string (node nat) :=
  <["old.png" := File 100 1%nat]> (<["new.jpg" := File 200 2%nat]>
  (<["sub" := Directory]> ∅)).

Lemma two_files_regular : regular_files two_files = ["old.png"; "new.jpg"].
Proof. by vm_compute. Qed.

Lemma most_recent_order_independent_witness :
  head ["new.jpg"; "old.png"] = most_recent two_files.
Proof.
  apply most_recent_order_independent; rewrite ?two_files_regular.
  - intros a b Ha Hb.
    apply list_elem_of_In in Ha as [<-|[<-|[]]];
      apply list_elem_of_In in Hb as [<-|[<-|[]]]; done.
  - apply perm_swap.
  - repeat constructor. by vm_compute.
Defined.

Lemma rename_target_extension_witness :
  path_extension ("portrait" +:+ path_extension "face_1700000000_0.png") = ".png".
Proof.
  rewrite (rename_target_extension "portrait" "face_1700000000_0.png");
    [by vm_compute | done | by vm_compute | by intros [[=] _]].
Defined.
