(* ===== verification/Calendar.v ===== *)
(** * Calendar: the time stamp in the name of a stored face

    [saveCapturedFaces] turns the reading of the clock into the text
    [%Y-%m-%d_%H-%M-%S] of the local time (src/compscifinal.cpp, lines
    39-42: [to_time_t], [localtime], [put_time]).  The three calls are the
    C library's; this file gives them as the C standard and POSIX describe
    them, for a time zone given as its offset from UTC at every instant:

    - [gmtime]: the broken-down time of a count of seconds since the
      epoch in the proleptic Gregorian calendar ([civil_from_days] finds
      the year and the month by subtracting the lengths of the years and
      months since the start of a 400-year period);
    - [localtime]: [gmtime] of the seconds moved by the offset in force;
    - [put_time_fmt]: the year in decimal and five fields of two digits.

    [timegm] is the inverse of [gmtime], so [gmtime] loses nothing; a
    time stamp determines its broken-down time; hence the time stamp
    determines the second whenever the offset never makes a local time
    come twice ([calendar_plain]).  [calendar_host] is the [Host] with
    this calendar; in UTC it is a host of both classes of [FileSystem]
    ([utc_host]), and in a zone with summer time it is not
    ([put_time_repeats]). *)

From stdpp Require Import pretty.
From Stdlib Require Import Ascii.
From S2P Require Import Prelude CppString FileSystem.

#[local] Open Scope Z_scope.

(** ** Definitions *)

(** The fields of [struct tm] that the format prints: [tm_mon] counts
    from 0 and [tm_year] from 1900. *)
Record tm : Type := Tm {
  tm_sec : Z; tm_min : Z; tm_hour : Z; tm_mday : Z; tm_mon : Z; tm_year : Z
}.

#[global] Instance tm_eq_dec : EqDecision tm.
Proof. solve_decision. Defined.

Definition leap (y : Z) : bool :=
  bool_decide (y `mod` 4 = 0 ∧ (y `mod` 100 ≠ 0 ∨ y `mod` 400 = 0)).

Definition days_in_year (y : Z) : Z := if leap y then 366 else 365.

(** The days of month [m], counted from 1. *)
Definition days_in_month (y m : Z) : Z :=
  if decide (m = 2) then (if leap y then 29 else 28)
  else if decide (m = 4 ∨ m = 6 ∨ m = 9 ∨ m = 11) then 30 else 31.

(** The year and the day of the year that lie [days] days after the first
    day of year [y], looking at most [fuel] years ahead. *)
Fixpoint split_year (fuel : nat) (y days : Z) : Z * Z :=
  match fuel with
  | O => (y, days)
  | S fuel =>
      if decide (days < days_in_year y) then (y, days)
      else split_year fuel (y + 1) (days - days_in_year y)
  end.

(** The same for the month and the day of the month. *)
Fixpoint split_month (fuel : nat) (y m days : Z) : Z * Z :=
  match fuel with
  | O => (m, days)
  | S fuel =>
      if decide (days < days_in_month y m) then (m, days)
      else split_month fuel y (m + 1) (days - days_in_month y m)
  end.

(** The days of 400 years. *)
Definition DAYS_400 : Z := 146097.

(** Year, month and day of the month of the day [z] days after 1 January
    1970.  The calendar repeats every 400 years, so the year is looked for
    in the 400 years that start 400 * [era] years after 1970. *)
Definition civil_from_days (z : Z) : Z * Z * Z :=
  let era := z `div` DAYS_400 in
  let '(y, doy) := split_year 400 (1970 + 400 * era) (z `mod` DAYS_400) in
  let '(m, d) := split_month 11 y 1 doy in
  (y, m, d + 1).

(** [gmtime]. *)
Definition gmtime (t : Z) : tm :=
  let '(y, m, d) := civil_from_days (t `div` 86400) in
  let secs := t `mod` 86400 in
  Tm (secs `mod` 60) ((secs `div` 60) `mod` 60) (secs `div` 3600)
     d (m - 1) (y - 1900).

(** [localtime] in a time zone that is [utc_offset t] seconds ahead of
    UTC at the time [t]. *)
Definition localtime (utc_offset : Z → Z) (t : Z) : tm :=
  gmtime (t + utc_offset t).

(** A decimal digit. *)
Definition digit (d : Z) : ascii := ascii_of_nat (48 + Z.to_nat (d `mod` 10)).

(** A field of two digits, as [%m], [%d], [%H], [%M] and [%S] print it. *)
Definition pad2 (n : Z) : string :=
  String (digit (n `div` 10)) (String (digit n) "").

(** What follows the year in the format [%Y-%m-%d_%H-%M-%S]. *)
Definition put_time_fields (x : tm) : string :=
  "-" +:+ pad2 (tm_mon x + 1) +:+ "-" +:+ pad2 (tm_mday x) +:+ "_"
  +:+ pad2 (tm_hour x) +:+ "-" +:+ pad2 (tm_min x) +:+ "-" +:+ pad2 (tm_sec x).

(** [put_time(&x, "%Y-%m-%d_%H-%M-%S")]: the year in decimal, then the
    fields. *)
Definition put_time_fmt (x : tm) : string :=
  pretty (tm_year x + 1900) +:+ put_time_fields x.

(** Lines 40-42 for the [time_t] value [t]. *)
Definition put_time_local (utc_offset : Z → Z) (t : Z) : string :=
  put_time_fmt (localtime utc_offset t).

(** *** The inverse *)

(** The days of the [n] years from [y] on. *)
Fixpoint year_days (n : nat) (y : Z) : Z :=
  match n with
  | O => 0
  | S n => days_in_year y + year_days n (y + 1)
  end.

(** The days of the [n] months of year [y] from month [m] on. *)
Fixpoint month_days (n : nat) (y m : Z) : Z :=
  match n with
  | O => 0
  | S n => days_in_month y m + month_days n y (m + 1)
  end.

(** The days from 1 January 1970 to a date. *)
Definition days_from_civil (y m d : Z) : Z :=
  let era := (y - 1970) `div` 400 in
  DAYS_400 * era
  + year_days (Z.to_nat ((y - 1970) `mod` 400)) (1970 + 400 * era)
  + month_days (Z.to_nat (m - 1)) y 1 + (d - 1).

(** [timegm]: the seconds since the epoch of a broken-down time. *)
Definition timegm (x : tm) : Z :=
  86400 * days_from_civil (tm_year x + 1900) (tm_mon x + 1) (tm_mday x)
  + 3600 * tm_hour x + 60 * tm_min x + tm_sec x.

(** The fields of a broken-down time are in their ranges. *)
Definition tm_wf (x : tm) : Prop :=
  0 ≤ tm_sec x < 60 ∧ 0 ≤ tm_min x < 60 ∧ 0 ≤ tm_hour x < 24 ∧
  1 ≤ tm_mday x ≤ 31 ∧ 0 ≤ tm_mon x < 12.

(** ** The calendar *)

Lemma leap_period y : leap (y + 400) = leap y.
Proof.
  unfold leap. apply bool_decide_ext.
  replace (y + 400) with (y + 100 * 4) at 1 by lia.
  replace (y + 400) with (y + 4 * 100) at 1 by lia.
  replace (y + 400) with (y + 1 * 400) by lia.
  by rewrite !Z_mod_plus_full.
Qed.

Lemma days_in_year_period y : days_in_year (y + 400) = days_in_year y.
Proof. unfold days_in_year. by rewrite leap_period. Qed.

Lemma days_in_year_pos y : 365 ≤ days_in_year y ≤ 366.
Proof. unfold days_in_year. destruct (leap y); lia. Qed.

Lemma year_days_snoc n y :
  year_days (S n) y = year_days n y + days_in_year (y + Z.of_nat n).
Proof.
  revert y. induction n as [|n IH]; intros y.
  - cbn [year_days]. replace (y + Z.of_nat 0) with y by lia. lia.
  - change (year_days (S (S n)) y)
      with (days_in_year y + year_days (S n) (y + 1)).
    rewrite IH. cbn [year_days].
    replace (y + 1 + Z.of_nat n) with (y + Z.of_nat (S n)) by lia. lia.
Qed.

(** Any 400 consecutive years have the same number of days. *)
Lemma year_days_400_succ y : year_days 400 (y + 1) = year_days 400 y.
Proof.
  rewrite (year_days_snoc 399 (y + 1)).
  replace (y + 1 + Z.of_nat 399) with (y + 400) by lia.
  rewrite days_in_year_period.
  change (year_days 400 y) with (days_in_year y + year_days 399 (y + 1)). lia.
Qed.

Lemma year_days_400_add y (n : nat) :
  year_days 400 (y + Z.of_nat n) = year_days 400 y.
Proof.
  induction n as [|n IH]; [by rewrite Z.add_0_r|].
  replace (y + Z.of_nat (S n)) with (y + Z.of_nat n + 1) by lia.
  by rewrite year_days_400_succ.
Qed.

Lemma year_days_400 y : year_days 400 y = DAYS_400.
Proof.
  destruct (decide (1970 ≤ y)).
  - replace y with (1970 + Z.of_nat (Z.to_nat (y - 1970))) by lia.
    by rewrite year_days_400_add.
  - rewrite <-(year_days_400_add y (Z.to_nat (1970 - y))).
    by replace (y + Z.of_nat (Z.to_nat (1970 - y))) with 1970 by lia.
Qed.

(** The year found lies [k] years after the first, the day is in it, and
    it is a day of the year unless the search was cut off. *)
Lemma split_year_spec fuel y days :
  0 ≤ days →
  ∃ k : nat, (k ≤ fuel)%nat ∧
    (split_year fuel y days).1 = y + Z.of_nat k ∧
    days = year_days k y + (split_year fuel y days).2 ∧
    0 ≤ (split_year fuel y days).2 ∧
    ((k < fuel)%nat →
     (split_year fuel y days).2 < days_in_year (split_year fuel y days).1).
Proof.
  revert y days. induction fuel as [|fuel IH]; intros y days Hdays; simpl.
  { exists 0%nat. split_and!; simpl; lia. }
  case_decide as Hlt.
  { exists 0%nat. split_and!; simpl; lia. }
  destruct (IH (y + 1) (days - days_in_year y) ltac:(lia))
    as (k & Hk & Hy & Hd & Hpos & Hin).
  exists (S k). cbn [year_days]. split_and!; [lia|lia|lia|done|].
  intros ?. apply Hin. lia.
Qed.

Lemma split_month_spec fuel y m days :
  0 ≤ days →
  ∃ j : nat, (j ≤ fuel)%nat ∧
    (split_month fuel y m days).1 = m + Z.of_nat j ∧
    days = month_days j y m + (split_month fuel y m days).2 ∧
    0 ≤ (split_month fuel y m days).2 ∧
    ((j < fuel)%nat →
     (split_month fuel y m days).2
     < days_in_month y (split_month fuel y m days).1).
Proof.
  revert m days. induction fuel as [|fuel IH]; intros m days Hdays; simpl.
  { exists 0%nat. split_and!; simpl; lia. }
  case_decide as Hlt.
  { exists 0%nat. split_and!; simpl; lia. }
  destruct (IH (m + 1) (days - days_in_month y m) ltac:(lia))
    as (j & Hj & Hm & Hd & Hpos & Hin).
  exists (S j). cbn [month_days]. split_and!; [lia|lia|lia|done|].
  intros ?. apply Hin. lia.
Qed.

Lemma days_in_month_bound y m : 28 ≤ days_in_month y m ≤ 31.
Proof. unfold days_in_month. repeat case_decide; destruct (leap y); lia. Qed.

(** The twelve months are the year. *)
Lemma month_days_12 y : month_days 12 y 1 = days_in_year y.
Proof.
  unfold days_in_year, month_days, days_in_month. simpl.
  destruct (leap y); reflexivity.
Qed.

Lemma month_days_11 y : month_days 11 y 1 = days_in_year y - 31.
Proof.
  rewrite <-month_days_12.
  unfold days_in_year, month_days, days_in_month. simpl.
  destruct (leap y); reflexivity.
Qed.

(** [days_from_civil] is the inverse of [civil_from_days], and the month
    and the day are in their ranges. *)
Lemma civil_from_days_spec z :
  let '(y, m, d) := civil_from_days z in
  days_from_civil y m d = z ∧ 1 ≤ m ≤ 12 ∧ 1 ≤ d ≤ 31.
Proof.
  unfold civil_from_days.
  pose proof (Z.div_mod z DAYS_400 ltac:(done)) as Hz.
  pose proof (Z.mod_pos_bound z DAYS_400 ltac:(done)) as Hr.
  set (era := z `div` DAYS_400) in *. set (r := z `mod` DAYS_400) in *.
  destruct (split_year_spec 400 (1970 + 400 * era) r ltac:(lia))
    as (k & Hk & Hy & Hdays & Hpos & Hin).
  destruct (split_year 400 (1970 + 400 * era) r) as [y doy].
  cbn [fst snd] in *.
  assert (k < 400)%nat as Hk400.
  { destruct (decide (k = 400%nat)) as [->|]; [|lia].
    rewrite year_days_400 in Hdays. lia. }
  specialize (Hin Hk400).
  destruct (split_month_spec 11 y 1 doy Hpos)
    as (j & Hj & Hm & Hdoy & Hdpos & Hdin).
  destruct (split_month 11 y 1 doy) as [m d]. cbn [fst snd] in *.
  assert (d < 31) as Hd31.
  { destruct (decide (j = 11%nat)) as [->|].
    - rewrite month_days_11 in Hdoy. lia.
    - pose proof (days_in_month_bound y m). specialize (Hdin ltac:(lia)). lia. }
  split; [|lia]. unfold days_from_civil.
  replace ((y - 1970) `div` 400) with era by (subst y; Z.div_mod_to_equations; lia).
  replace ((y - 1970) `mod` 400) with (Z.of_nat k)
    by (subst y; Z.div_mod_to_equations; lia).
  replace (m - 1) with (Z.of_nat j) by lia. rewrite !Nat2Z.id. lia.
Qed.

Lemma civil_from_days_inj z1 z2 :
  civil_from_days z1 = civil_from_days z2 → z1 = z2.
Proof.
  intros Heq. pose proof (civil_from_days_spec z1) as H1.
  pose proof (civil_from_days_spec z2) as H2. rewrite Heq in H1.
  destruct (civil_from_days z2) as [[y m] d]. by destruct H1 as [<- _], H2 as [<- _].
Qed.

(** ** Broken-down time *)

Lemma gmtime_wf t : tm_wf (gmtime t).
Proof.
  unfold gmtime. pose proof (civil_from_days_spec (t `div` 86400)) as Hc.
  destruct (civil_from_days (t `div` 86400)) as [[y m] d].
  unfold tm_wf; simpl. Z.div_mod_to_equations. lia.
Qed.

(** [timegm] is the inverse of [gmtime]: the broken-down time of a
    count of seconds is the time of no other count. *)
Theorem timegm_gmtime t : timegm (gmtime t) = t.
Proof.
  unfold gmtime, timegm. pose proof (civil_from_days_spec (t `div` 86400)) as Hc.
  destruct (civil_from_days (t `div` 86400)) as [[y m] d]; simpl.
  destruct Hc as [Hc _].
  replace (y - 1900 + 1900) with y by lia. replace (m - 1 + 1) with m by lia.
  rewrite Hc. Z.div_mod_to_equations. lia.
Qed.

(** ** The format *)

Lemma string_app_inj_length s1 s2 t1 t2 :
  String.length s1 = String.length s2 →
  s1 +:+ t1 = s2 +:+ t2 → s1 = s2 ∧ t1 = t2.
Proof.
  revert s2. induction s1 as [|c s1 IH]; intros [|c2 s2]; simpl; try done.
  intros [= Hlen] [= -> Heq]. by destruct (IH s2 Hlen Heq) as [-> ->].
Qed.

Lemma digit_inj a b : digit a = digit b → a `mod` 10 = b `mod` 10.
Proof.
  unfold digit. intros Heq%(f_equal nat_of_ascii).
  pose proof (Z.mod_pos_bound a 10 ltac:(done)).
  pose proof (Z.mod_pos_bound b 10 ltac:(done)).
  rewrite !nat_ascii_embedding in Heq by lia. lia.
Qed.

(** Two digits determine a number below 100. *)
Lemma digits_inj n1 n2 :
  0 ≤ n1 < 100 → 0 ≤ n2 < 100 →
  digit (n1 `div` 10) = digit (n2 `div` 10) → digit n1 = digit n2 → n1 = n2.
Proof.
  intros ?? H1%digit_inj H2%digit_inj. Z.div_mod_to_equations. lia.
Qed.

Lemma has_slash_digit d s : has_slash (String (digit d) s) = has_slash s.
Proof.
  unfold digit. pose proof (Z.mod_pos_bound d 10 ltac:(done)).
  assert (Z.to_nat (d `mod` 10) < 10)%nat as Hlt by lia.
  destruct (Z.to_nat (d `mod` 10)) as [|k]; [done|].
  do 9 (destruct k as [|k]; [done|]). lia.
Qed.

Lemma has_slash_pretty_Z (z : Z) : has_slash (pretty z) = false.
Proof. apply (StubHost.s_put_time_no_slash z). Qed.

Lemma put_time_fields_no_slash x : has_slash (put_time_fields x) = false.
Proof.
  unfold put_time_fields, pad2. by rewrite !has_slash_app, ?has_slash_digit.
Qed.

Lemma put_time_fmt_no_slash x : has_slash (put_time_fmt x) = false.
Proof.
  unfold put_time_fmt.
  by rewrite has_slash_app, has_slash_pretty_Z, put_time_fields_no_slash.
Qed.

Lemma put_time_fields_length x : String.length (put_time_fields x) = 15%nat.
Proof. reflexivity. Qed.

(** The fields are the fields of one broken-down time. *)
Lemma put_time_fields_inj x1 x2 :
  tm_wf x1 → tm_wf x2 → put_time_fields x1 = put_time_fields x2 →
  tm_year x1 = tm_year x2 → x1 = x2.
Proof.
  destruct x1 as [S1 M1 H1 d1 m1 y1], x2 as [S2 M2 H2 d2 m2 y2].
  unfold tm_wf, put_time_fields, pad2; simpl. intros Hwf1 Hwf2 [= ] ->.
  assert (m1 + 1 = m2 + 1) by (apply digits_inj; by (lia || done)).
  f_equal; try lia; apply digits_inj; by (lia || done).
Qed.

(** A time stamp is the stamp of one broken-down time. *)
Lemma put_time_fmt_inj x1 x2 :
  tm_wf x1 → tm_wf x2 → put_time_fmt x1 = put_time_fmt x2 → x1 = x2.
Proof.
  unfold put_time_fmt. intros Hwf1 Hwf2 Heq.
  apply string_app_inj_length in Heq as [Hy%(inj pretty) Heq].
  - apply put_time_fields_inj; [done..|lia].
  - apply (f_equal String.length) in Heq.
    rewrite !string_length_app, !put_time_fields_length in Heq. lia.
Qed.

(** The local time of a time stamp is the local time of one second. *)
Lemma put_time_local_same utc_offset t1 t2 :
  put_time_local utc_offset t1 = put_time_local utc_offset t2 →
  t1 + utc_offset t1 = t2 + utc_offset t2.
Proof.
  unfold put_time_local, localtime. intros Heq.
  apply put_time_fmt_inj in Heq; [|apply gmtime_wf..].
  apply (f_equal timegm) in Heq. by rewrite !timegm_gmtime in Heq.
Qed.

(** C26.  The time stamp determines the second in every time zone in
    which no local time comes twice. *)
Theorem put_time_local_inj utc_offset t1 t2 :
  (∀ t t', t + utc_offset t = t' + utc_offset t' → t = t') →
  put_time_local utc_offset t1 = put_time_local utc_offset t2 → t1 = t2.
Proof. intros Hoff Heq. by apply Hoff, put_time_local_same. Qed.

(** ** The host of this calendar *)

(** A host is of the class [PlainCalendar] when its calendar is
    injective.  The calendar is a variable here: a kernel that compares
    [put_time] of a host with its calendar has nothing to unfold but the
    projection. *)
Lemma plain_calendar_intro c p r Hp Hr :
  (∀ t1 t2 : Z, p t1 = p t2 → t1 = t2) →
  PlainCalendar (Build_Host c p r Hp Hr).
Proof. intros Hinj t1 t2. apply Hinj. Qed.

Section calendar_host.
Variable clock0 : nat → Z.
Variable utc_offset : Z → Z.

Definition calendar_host : Host := {|
  clock := clock0;
  put_time := put_time_local utc_offset;
  rename_outside := StubHost.s_rename_outside;
  put_time_no_slash t := put_time_fmt_no_slash (localtime utc_offset t);
  rename_outside_plain := StubHost.s_rename_outside_plain;
|}.

Lemma calendar_plain :
  (∀ t t', t + utc_offset t = t' + utc_offset t' → t = t') →
  PlainCalendar calendar_host.
Proof.
  intros Hoff. apply plain_calendar_intro.
  intros t1 t2 Heq. by apply Hoff, put_time_local_same.
Qed.

Lemma calendar_steady :
  0 ≤ clock0 0 → (∀ m n, (m ≤ n)%nat → clock0 m ≤ clock0 n) →
  SteadyClock calendar_host.
Proof. by split. Qed.
End calendar_host.

(** ** Time zones and dates *)

(** Coordinated universal time. *)
Definition utc (t : Z) : Z := 0.

(** Central European time around the end of summer time in 2023: two
    hours ahead of UTC until 29 October, 01:00 UTC, one hour from then
    on. *)
Definition cet_2023 (t : Z) : Z := if decide (t < 1698541200) then 7200 else 3600.

(** The clock of the stub host with the calendar in UTC: a host of both
    classes. *)
Module UtcHost.
#[export] Instance utc_host : Host := calendar_host StubHost.s_clock utc.

#[export] Instance utc_steady : SteadyClock utc_host.
Proof. apply calendar_steady; apply StubHost.stub_steady. Qed.

#[export] Instance utc_plain : PlainCalendar utc_host.
Proof. apply calendar_plain. unfold utc. intros t t'. lia. Qed.
End UtcHost.

Lemma put_time_local_inj_witness : 1700000000 = 1699996400 + 3600.
Proof.
  apply (put_time_local_inj utc); [unfold utc; lia|]. vm_compute. reflexivity.
Defined.

(** The time stamps of four seconds: the epoch, the second before it, a
    leap day, and the date of the witnesses. *)
Theorem put_time_dates :
  put_time_local utc 0 = "1970-01-01_00-00-00" ∧
  put_time_local utc (-1) = "1969-12-31_23-59-59" ∧
  put_time_local utc 1709251199 = "2024-02-29_23-59-59" ∧
  put_time_local utc 1700000000 = "2023-11-14_22-13-20".
Proof. by vm_compute. Qed.

(** Local time comes twice when summer time ends: the seconds
    00:30 UTC and 01:30 UTC of 29 October 2023 have the same time stamp
    in Central European time. *)
Theorem put_time_repeats :
  put_time_local cet_2023 1698539400 = "2023-10-29_02-30-00" ∧
  put_time_local cet_2023 (1698539400 + 3600) = "2023-10-29_02-30-00".
Proof. by vm_compute. Qed.
