(* ===== verification/Handlers.v ===== *)
(** * Handlers: the five command handlers

    One definition per function of src/compscifinal.cpp:
    [saveCapturedFaces] (lines 36-47), [clearCapturedFaces] (50-58),
    [showCapturedFaces] (61-68), [setMaxFaces] (71-74) and [renameFile]
    (77-102).  A handler receives what the C++ function receives by
    reference and the [world] (directory, clock readings, seconds slept,
    the main dispatch queue, what was printed) and returns their new
    values; the two handlers that iterate over the directory throw when it
    is missing.

    Time is what [chrono::system_clock::now()] returns ([now]): the
    reading the host supplies plus the seconds the process has slept in
    [sleep_for] (line 122), so that two readings with a sleep between them
    are at least a second apart whenever the clock is not set back.

    [showCapturedFaces] submits one block per buffered face to the main
    dispatch queue.  The block refers to the loop variable [face], a
    reference to an element of the vector, so what it will display is what
    the slot holds when the block runs: the queue records slot indices. *)

From S2P Require Import Prelude CppString Vision Shared FileSystem.

#[local] Open Scope Z_scope.

(** ** Definitions *)

(** [dataDirectory] of [main], line 107. *)
Definition dataDirectory : string :=
  "/Users/aniketsethi/Documents/computer science/final/images".

(** What the program prints, one constructor per output statement. *)
Inductive message : Type :=
  | MsgSaved (directory : string)      (* line 46: Captured faces saved to DIR *)
  | MsgCleared                         (* line 57: Captured faces cleared. *)
  | MsgMaxFaces (n : Z)                (* line 73: Maximum number of faces ... N *)
  | MsgRenamed (newFilePath : string)  (* line 98: File renamed to: PATH *)
  | MsgNoFiles                         (* line 100: No files found ... *)
  | MsgCascadeError                    (* line 112: Error loading face cascade *)
  | MsgCameraError                     (* line 116: Error opening video capture *)
  | MsgPrompt                          (* line 123: Enter command: *)
  | MsgHelp                            (* lines 150-159: the table of commands *)
  | MsgUnknown.                        (* line 167: Unknown command. ... *)

#[global] Instance message_eq_dec : EqDecision message.
Proof. solve_decision. Defined.

(** [parent / p] for a parent without trailing separator: an absolute [p]
    replaces the parent. *)
Definition path_append (parent p : string) : string :=
  if starts_with "/" p then p else parent +:+ "/" +:+ p.

Section handlers.
Context {V : VisionLib} {HO : Host}.

Record world : Type := World {
  w_dir : option (gmap string (node Mat));  (* the capture directory, if it exists *)
  w_ticks : nat;                            (* clock readings made so far *)
  w_slept : nat;                            (* seconds spent in sleep_for *)
  w_queue : list nat;                       (* pending blocks of the main queue *)
  w_out : list message;                     (* standard output *)
}.

Definition set_dir (d : option (gmap string (node Mat))) (w : world) : world :=
  World d (w_ticks w) (w_slept w) (w_queue w) (w_out w).
Definition tick (n : nat) (w : world) : world :=
  World (w_dir w) (w_ticks w + n) (w_slept w) (w_queue w) (w_out w).
Definition enqueue (blocks : list nat) (w : world) : world :=
  World (w_dir w) (w_ticks w) (w_slept w) (w_queue w ++ blocks) (w_out w).
Definition print (m : message) (w : world) : world :=
  World (w_dir w) (w_ticks w) (w_slept w) (w_queue w) (w_out w ++ [m]).

(** [this_thread::sleep_for(chrono::seconds(n))] (line 122): the call
    returns when [n] seconds have passed; what passes beyond them is part
    of the next clock reading. *)
Definition sleep_for (n : nat) (w : world) : world :=
  World (w_dir w) (w_ticks w) (w_slept w + n) (w_queue w) (w_out w).

(** [chrono::system_clock::now()] (line 38), in microseconds. *)
Definition now (w : world) : Z :=
  clock (w_ticks w) + 1000000 * Z.of_nat (w_slept w).

(** Line 39. *)
Definition in_time_t (w : world) : Z := to_time_t (now w).

(** Lines 40-42: the time stamp of the present second. *)
Definition timestamp (w : world) : string := put_time (in_time_t w).

(** The name line 43 builds. *)
Definition save_name (w : world) (i : nat) : string :=
  face_file_name (timestamp w) i.

(** Lines 38-44: one iteration of the loop of [saveCapturedFaces].  The
    clock is read once for the name and once by the file system for the
    last-write time. *)
Definition save_one (i : nat) (face : Mat) (w : world) : world :=
  let filename := save_name w i in
  let mtime := now (tick 1 w) in
  tick 2 (set_dir (imwrite filename face mtime <$> w_dir w) w).

(** Lines 37-45. *)
Fixpoint save_loop (i : nat) (faces : list Mat) (w : world) : world :=
  match faces with
  | [] => w
  | face :: faces => save_loop (S i) faces (save_one i face w)
  end.

(** Lines 36-47. *)
Definition saveCapturedFaces (capturedFaces : list Mat) (directory : string)
    (w : world) : world :=
  print (MsgSaved directory) (save_loop 0 capturedFaces w).

(** Lines 50-58: returns the vector and the world. *)
Definition clearCapturedFaces (capturedFaces : list Mat) (directory : string)
    (w : world)
    : outcome (list Mat * world) :=
  match w_dir w with
  | None => Throw FilesystemError
  | Some d => Ok ([], print MsgCleared (set_dir (Some (remove_regular_files d)) w))
  end.

(** Lines 61-68: one block per element, each holding a reference to its
    slot of the vector. *)
Definition showCapturedFaces (faces : list Mat) (w : world) : world :=
  enqueue (seq 0 (length faces)) w.

(** Lines 71-74. *)
Definition setMaxFaces (max : Z) (sh : shared) (w : world) : shared * world :=
  let sh := set_maxFaces max sh in
  (sh, print (MsgMaxFaces (maxFaces sh)) w).

(** Lines 77-102. *)
Definition renameFile (newName : string) (directory : string) (w : world)
    : outcome world :=
  match w_dir w with
  | None => Throw FilesystemError
  | Some d =>
      match most_recent d with
      | Some mostRecentFile =>
          let target := newName +:+ path_extension mostRecentFile in
          d' ← fs_rename mostRecentFile target d;
          Ok (print (MsgRenamed (path_append directory target))
                    (set_dir (Some d') w))
      | None => Ok (print MsgNoFiles w)
      end
  end.
End handlers.

(** ** Lemmas *)

Section handler_lemmas.
Context {V : VisionLib} {HO : Host}.
Implicit Types (w : world) (d : gmap string (node Mat)) (faces : list Mat).

Lemma save_name_inj w1 w2 i j : save_name w1 i = save_name w2 j → i = j.
Proof. apply face_file_name_inj. Qed.

Lemma save_name_plain w i : plain_name (save_name w i).
Proof. apply face_file_name_plain, put_time_no_slash. Qed.

Lemma save_loop_slept i faces w : w_slept (save_loop i faces w) = w_slept w.
Proof. revert i w. induction faces as [|face faces IH]; intros; simpl; [done|by rewrite IH]. Qed.

Lemma save_loop_ticks i faces w :
  w_ticks (save_loop i faces w) = (w_ticks w + 2 * length faces)%nat.
Proof.
  revert i w. induction faces as [|face faces IH]; intros i w; simpl; [lia|].
  rewrite IH. simpl. lia.
Qed.

Lemma save_loop_queue i faces w : w_queue (save_loop i faces w) = w_queue w.
Proof. revert i w. induction faces as [|face faces IH]; intros; simpl; [done|by rewrite IH]. Qed.

Lemma save_loop_out i faces w : w_out (save_loop i faces w) = w_out w.
Proof. revert i w. induction faces as [|face faces IH]; intros; simpl; [done|by rewrite IH]. Qed.

Lemma save_loop_missing i faces w :
  w_dir w = None → w_dir (save_loop i faces w) = None.
Proof.
  revert i w. induction faces as [|face faces IH]; intros i w Hw; simpl; [done|].
  apply IH. simpl. by rewrite Hw.
Qed.

(** The file that iteration [j] of a loop started at index [i] writes. *)
Definition saved_name w (i j : nat) : string :=
  save_name (tick (2 * j) w) (i + j).
Definition saved_node w (j : nat) (face : Mat) : node Mat :=
  File (now (tick (S (2 * j)) w)) face.

Lemma now_tick_eq w1 w2 n1 n2 :
  (w_ticks w1 + n1 = w_ticks w2 + n2)%nat → w_slept w1 = w_slept w2 →
  now (tick n1 w1) = now (tick n2 w2).
Proof. unfold now; simpl. by intros -> ->. Qed.

Lemma saved_name_0 w i : saved_name w i 0 = save_name w i.
Proof.
  unfold saved_name, save_name, timestamp, in_time_t. rewrite Nat.add_0_r.
  do 3 f_equal. unfold now; simpl. by rewrite Nat.add_0_r.
Qed.

Lemma saved_name_save_one w i j face :
  saved_name (save_one i face w) (S i) j = saved_name w i (S j).
Proof.
  unfold saved_name, save_name, timestamp, in_time_t.
  rewrite (now_tick_eq _ w _ (2 * S j)) by (simpl; lia). f_equal. lia.
Qed.

Lemma saved_node_save_one w i j face face' :
  saved_node (save_one i face w) j face' = saved_node w (S j) face'.
Proof. unfold saved_node. f_equal. apply now_tick_eq; simpl; lia. Qed.

(** The directory after the loop: every face is stored under its name and
    nothing else changes. *)
Lemma save_loop_dir i faces w d :
  w_dir w = Some d →
  (∀ j, (j < length faces)%nat → writable d (saved_name w i j)) →
  ∃ d', w_dir (save_loop i faces w) = Some d' ∧
    (∀ j face, faces !! j = Some face →
       d' !! saved_name w i j = Some (saved_node w j face)) ∧
    (∀ name, (∀ j, (j < length faces)%nat → name ≠ saved_name w i j) →
       d' !! name = d !! name).
Proof.
  revert i w d. induction faces as [|face faces IH]; intros i w d Hd Hwr; simpl.
  { exists d. split_and!; [done| |done]. intros j ? [=]. }
  set (w1 := save_one i face w).
  set (d1 := imwrite (saved_name w i 0) face (now (tick 1 w)) d).
  pose proof (saved_name_0 w i) as Hn0.
  assert (w_dir w1 = Some d1) as Hd1
    by (unfold w1, d1, save_one; simpl; by rewrite Hd, Hn0).
  destruct (IH (S i) w1 d1 Hd1) as (d' & Hd' & Hput & Hframe).
  { intros j Hj. unfold w1. rewrite saved_name_save_one.
    apply writable_imwrite, Hwr. simpl. lia. }
  exists d'. split_and!; [done|..].
  - intros [|j] face' Hj; simplify_eq/=.
    + rewrite Hframe.
      * unfold d1. by rewrite lookup_imwrite_eq by (apply Hwr; simpl; lia).
      * intros j _. unfold w1. rewrite saved_name_save_one.
        intros Heq%save_name_inj. lia.
    + specialize (Hput j face' Hj). unfold w1 in Hput.
      by rewrite saved_name_save_one, saved_node_save_one in Hput.
  - intros name Hname. rewrite Hframe.
    + unfold d1. apply lookup_imwrite_ne. apply not_eq_sym, Hname. lia.
    + intros j Hj. unfold w1. rewrite saved_name_save_one. apply Hname. lia.
Qed.

Lemma saved_name_NoDup w i (n : nat) :
  NoDup ((λ j, saved_name w i j) <$> seq 0 n).
Proof.
  apply NoDup_fmap_2_strong; [|apply NoDup_seq].
  intros j1 j2 _ _ Heq%save_name_inj. lia.
Qed.
End handler_lemmas.

(** ** Further lemmas, for the properties below *)

Section handler_facts.
Context {V : VisionLib} {HO : Host}.
Implicit Types (w : world) (d : gmap string (node Mat)) (faces : list Mat).

Lemma save_loop_present i faces w d :
  w_dir w = Some d → is_Some (w_dir (save_loop i faces w)).
Proof.
  revert i w d. induction faces as [|face faces IH]; intros i w d Hd; simpl; [eauto|].
  eapply IH. simpl. by rewrite Hd.
Qed.

Lemma save_loop_size i faces w d :
  w_dir w = Some d →
  (∀ j, (j < length faces)%nat → d !! saved_name w i j = None) →
  ∃ d', w_dir (save_loop i faces w) = Some d' ∧
        size d' = (size d + length faces)%nat.
Proof.
  revert i w d. induction faces as [|face faces IH]; intros i w d Hd Hfresh; simpl.
  { exists d. split; [done | lia]. }
  pose proof (saved_name_0 w i) as Hn0.
  pose proof (Hfresh 0%nat ltac:(simpl; lia)) as Hfresh0. rewrite Hn0 in Hfresh0.
  edestruct (IH (S i) (save_one i face w)) as (d' & Hd' & Hsize).
  { unfold save_one; simpl. rewrite Hd; simpl. reflexivity. }
  { intros j Hj. rewrite saved_name_save_one. unfold imwrite. rewrite Hfresh0.
    rewrite lookup_insert_ne; [apply Hfresh; simpl; lia|].
    rewrite <-Hn0. intros Heq%save_name_inj. lia. }
  exists d'. split; [done|]. rewrite Hsize. unfold imwrite. rewrite Hfresh0.
  rewrite map_size_insert_None by done. lia.
Qed.

End handler_facts.

(** ** Properties of the handlers *)

Section handler_properties.
Context {V : VisionLib} {HO : Host}.
Implicit Types (w : world) (d : gmap string (node Mat)) (faces : list Mat).

(** C13.  [capture] persists every face of the buffer: face [j] is stored
    under [face_<timestamp>_<j>.png] with the last-write time the file
    system read from the clock, and every entry under another name is
    left as it was. *)
Theorem saveCapturedFaces_stores faces directory w d :
  w_dir w = Some d →
  (∀ j, (j < length faces)%nat → writable d (saved_name w 0 j)) →
  ∃ d', w_dir (saveCapturedFaces faces directory w) = Some d' ∧
    (∀ j face, faces !! j = Some face →
       d' !! saved_name w 0 j = Some (saved_node w j face)) ∧
    (∀ name, (∀ j, (j < length faces)%nat → name ≠ saved_name w 0 j) →
       d' !! name = d !! name).
Proof. intros. by apply save_loop_dir. Qed.

(** When none of the names is taken, [capture] adds exactly one file
    per buffered face: the names of one call are pairwise distinct, even
    when the clock advances or stands still between iterations. *)
Theorem saveCapturedFaces_count faces directory w d :
  w_dir w = Some d →
  (∀ j, (j < length faces)%nat → d !! saved_name w 0 j = None) →
  ∃ d', w_dir (saveCapturedFaces faces directory w) = Some d' ∧
        size d' = (size d + length faces)%nat.
Proof. intros. by apply save_loop_size. Qed.

(** C40.  When the capture directory does not exist, [capture] writes
    nothing, throws nothing, and still prints that the faces were saved. *)
Theorem saveCapturedFaces_missing_dir faces directory w :
  w_dir w = None →
  w_dir (saveCapturedFaces faces directory w) = None ∧
  w_out (saveCapturedFaces faces directory w) = w_out w ++ [MsgSaved directory].
Proof.
  intros Hw. unfold saveCapturedFaces; simpl.
  by rewrite save_loop_missing, save_loop_out.
Qed.

(** C15.  [clear] empties the buffer and removes exactly the regular files
    of the directory: the loop over the directory iterator equals the
    filter that keeps the entries that are not regular files. *)
Theorem clearCapturedFaces_reference faces directory w d :
  w_dir w = Some d →
  clearCapturedFaces faces directory w
  = Ok ([], print MsgCleared
              (set_dir (Some (filter (λ e, is_regular_file e.2 = false) d)) w)).
Proof.
  intros Hd. unfold clearCapturedFaces.
  by rewrite Hd, remove_regular_files_filter.
Qed.

(** [clear] on a missing directory throws [filesystem_error] from
    the directory iterator. *)
Theorem clearCapturedFaces_missing_dir faces directory w :
  w_dir w = None → clearCapturedFaces faces directory w = Throw FilesystemError.
Proof. intros Hd. unfold clearCapturedFaces. by rewrite Hd. Qed.

(** [capture] followed by [clear] leaves no regular file in the
    directory and an empty buffer, whatever the buffer and the directory
    held. *)
Theorem capture_then_clear faces directory w d :
  w_dir w = Some d →
  ∃ w' d', clearCapturedFaces faces directory (saveCapturedFaces faces directory w)
           = Ok ([], w') ∧
           w_dir w' = Some d' ∧ regular_files d' = [].
Proof.
  intros Hd. unfold clearCapturedFaces, saveCapturedFaces; simpl.
  destruct (save_loop_present 0 faces w d Hd) as [d1 ->].
  eexists _, _. split_and!; [done..|]. apply regular_files_remove.
Qed.

(** C14.  [rename] renames a regular file whose last-write time is
    maximal; the new name is the argument followed by that file's
    extension; for a target inside the directory that is not a directory
    the call returns, the file's content and last-write time move to the
    new name and every other entry, except one the target replaces, is
    untouched. *)
Theorem renameFile_latest newName directory w d :
  w_dir w = Some d → regular_files d ≠ [] →
  ∃ f n, latest d f ∧ d !! f = Some n ∧
    let target := newName +:+ path_extension f in
    (plain_name target → d !! target ≠ Some Directory →
     renameFile newName directory w
     = Ok (print (MsgRenamed (path_append directory target))
                 (set_dir (Some (<[target := n]> (delete f d))) w))).
Proof.
  intros Hd Hfiles.
  destruct (most_recent d) as [f|] eqn:Hf;
    [|by apply most_recent_None in Hf].
  pose proof (most_recent_latest _ _ Hf) as Hlatest.
  destruct (proj1 (elem_of_regular_files _ _) (proj1 Hlatest)) as (t & c & Hn).
  exists f, (File t c). split_and!; [done..|]. intros target Hplain Hnodir.
  unfold renameFile. rewrite Hd, Hf. fold target.
  rewrite fs_rename_plain by done.
  by rewrite (proj2 (rename_entry_Ok f target d _)) by eauto.
Qed.

(** [rename] in a directory without regular files changes nothing
    and prints that no file was found. *)
Theorem renameFile_no_files newName directory w d :
  w_dir w = Some d → regular_files d = [] →
  renameFile newName directory w = Ok (print MsgNoFiles w).
Proof.
  intros Hd Hnil%most_recent_None. unfold renameFile. by rewrite Hd, Hnil.
Qed.

(** [setmax] stores its argument in [maxFaces], leaves the buffer
    untouched and keeps the shared state well formed. *)
Theorem setMaxFaces_wf max sh w :
  is_int max → shared_wf sh →
  shared_wf (setMaxFaces max sh w).1 ∧
  maxFaces (setMaxFaces max sh w).1 = max ∧
  capturedFaces (setMaxFaces max sh w).1 = capturedFaces sh.
Proof. intros Hmax Hwf. split_and!; [|done..]. by apply set_maxFaces_wf. Qed.
End handler_properties.

(** ** The properties at concrete inputs

    The stub library and host, an empty capture directory, and two
    canonical faces. *)
Section handler_witnesses.
Import StubVision StubHost.

Definition img_a : smat := SMat 200 200 [OpResize; OpRoi (mkRect 10 20 50 60); OpGray].
Definition img_b : smat := SMat 200 200 [OpResize; OpRoi (mkRect 300 200 80 80); OpGray].
Definition w_empty : world (V:=stub) := World (Some ∅) 0 0 [] [].
Definition w_two : world (V:=stub) :=
  World (Some (<["old.png" := File 100 img_a]> (<["new.jpg" := File 200 img_b]>
              (<["sub" := Directory]> ∅)))) 0 0 [] [].
Definition w_nodir : world (V:=stub) := World None 0 0 [] [].

#[local] Abbreviation save := (saveCapturedFaces (V:=stub) (HO:=stub_host)).
#[local] Abbreviation clear := (clearCapturedFaces (V:=stub)).
#[local] Abbreviation rename := (renameFile (V:=stub) (HO:=stub_host)).
#[local] Abbreviation setmax := (setMaxFaces (V:=stub)).



Lemma writable_empty name : writable (C:=smat) ∅ name.
Proof. unfold writable. by rewrite lookup_empty. Qed.

Lemma saveCapturedFaces_stores_witness :
  ∃ d', w_dir (save [img_a; img_b] dataDirectory w_empty) = Some d' ∧
        d' !! "face_1700000000_0.png" = Some (File 1700000000250000 img_a) ∧
        d' !! "face_1700000000_1.png" = Some (File 1700000000750000 img_b).
Proof.
  destruct (saveCapturedFaces_stores (V:=stub) (HO:=stub_host) [img_a; img_b] dataDirectory
              w_empty ∅ eq_refl) as (d' & Hd' & Hput & _).
  { intros. apply writable_empty. }
  exists d'. split; [done|].
  split; [apply (Hput 0%nat img_a eq_refl) | apply (Hput 1%nat img_b eq_refl)].
Defined.

Lemma saveCapturedFaces_count_witness :
  ∃ d', w_dir (save [img_a; img_b] dataDirectory w_empty) = Some d' ∧
        size d' = 2%nat.
Proof.
  apply (saveCapturedFaces_count (V:=stub) (HO:=stub_host) [img_a; img_b] dataDirectory
           w_empty ∅ eq_refl).
  intros. apply lookup_empty.
Defined.

Lemma saveCapturedFaces_missing_dir_witness :
  w_dir (save [img_a] dataDirectory w_nodir) = None ∧
  w_out (save [img_a] dataDirectory w_nodir) = [MsgSaved dataDirectory].
Proof. by apply (saveCapturedFaces_missing_dir (V:=stub) (HO:=stub_host)). Defined.

Lemma clearCapturedFaces_reference_witness :
  ∃ w', clear [img_a] dataDirectory w_two = Ok ([], w') ∧
        w_out w' = [MsgCleared].
Proof.
  eexists. split.
  - by apply (clearCapturedFaces_reference (V:=stub) [img_a] dataDirectory w_two).
  - done.
Defined.

Lemma clearCapturedFaces_missing_dir_witness :
  clear [img_a] dataDirectory w_nodir = Throw FilesystemError.
Proof. by apply (clearCapturedFaces_missing_dir (V:=stub)). Defined.

Lemma capture_then_clear_witness :
  ∃ w' d', clear [img_a; img_b] dataDirectory
             (save [img_a; img_b] dataDirectory w_two) = Ok ([], w') ∧
           w_dir w' = Some d' ∧ regular_files d' = [].
Proof. by eapply (capture_then_clear (V:=stub) (HO:=stub_host)). Defined.

Lemma renameFile_latest_witness :
  ∃ f n, latest (default ∅ (w_dir w_two)) f ∧ default ∅ (w_dir w_two) !! f = Some n ∧
    (plain_name ("portrait" +:+ path_extension f) →
     default ∅ (w_dir w_two) !! ("portrait" +:+ path_extension f) ≠ Some Directory →
     is_Ok (rename "portrait" dataDirectory w_two)).
Proof.
  destruct (renameFile_latest (V:=stub) (HO:=stub_host) "portrait" dataDirectory
              w_two _ eq_refl ltac:(by vm_compute))
    as (f & n & Hlatest & Hn & Hrename).
  exists f, n. split_and!; [done..|]. intros Hplain Hnodir.
  rewrite (Hrename Hplain Hnodir). apply is_Ok_Ok.
Defined.

Lemma renameFile_no_files_witness :
  rename "portrait" dataDirectory w_empty = Ok (print MsgNoFiles w_empty).
Proof. by apply (renameFile_no_files (V:=stub) (HO:=stub_host) _ _ _ ∅). Defined.

Lemma setMaxFaces_wf_witness :
  shared_wf (V:=stub) (setmax 2 (Shared (V:=stub) [img_a] 1) w_empty).1.
Proof.
  apply (setMaxFaces_wf (V:=stub) 2 (Shared (V:=stub) [img_a] 1) w_empty); compute_done.
Defined.

End handler_witnesses.
