(* ===== verification/CommandLoop.v ===== *)
(** * CommandLoop: the command thread of [main]

    The lambda of [main] (src/compscifinal.cpp, lines 119-173) loops while
    [stopInputThread] is false: it sleeps for a second, prints a prompt,
    reads a line,
    walks an [if]/[else if] chain over the line and runs the handler of the
    command it recognises, for five of the commands inside a
    [lock_guard].  The statements that can throw, [command.substr(7)] and
    [stoi], are evaluated before the lock is taken.

    [parse_command] is the chain with the statements that precede the
    lock; [run_locked] the body of each critical section; [run_unlocked]
    the three commands that take no lock; [command_iteration] one turn of
    the loop and [command_loop] the loop over the strings that [getline]
    stores in [command]: the lines of standard input and, after its end,
    the last of them again ([IStream.getlines]). *)

From stdpp Require Import pretty.
From Stdlib Require Import Ascii.
From S2P Require Import Prelude CppString Vision Shared FileSystem Handlers.

#[local] Open Scope Z_scope.

(** ** Definitions *)

(** A recognised command with its converted argument. *)
Inductive request : Type :=
  | ReqCapture
  | ReqClear
  | ReqShow
  | ReqSetMax (max : Z)
  | ReqExit
  | ReqHelp
  | ReqRename (newName : string)
  | ReqUnknown.

#[global] Instance request_eq_dec : EqDecision request.
Proof. solve_decision. Defined.

(** Lines 125-168: the chain of comparisons, with lines 141 and 161. *)
Definition parse_command (command : string) : outcome request :=
  if decide (command = "capture") then Ok ReqCapture
  else if decide (command = "clear") then Ok ReqClear
  else if decide (command = "show") then Ok ReqShow
  else if starts_with "setmax " command then
    arg ← substr 7 command;
    max ← stoi arg;
    Ok (ReqSetMax max)
  else if decide (command = "exit") then Ok ReqExit
  else if decide (command = "help") then Ok ReqHelp
  else if starts_with "rename " command then
    newName ← substr 7 command;
    Ok (ReqRename newName)
  else Ok ReqUnknown.

(** The commands whose handler runs under [lock_guard<mutex>]. *)
Definition needs_lock (r : request) : bool :=
  match r with
  | ReqCapture | ReqClear | ReqShow | ReqSetMax _ | ReqRename _ => true
  | ReqExit | ReqHelp | ReqUnknown => false
  end.

Section command_loop.
Context {V : VisionLib} {HO : Host}.

(** The state the command thread can change. *)
Record cstate : Type := CState {
  cs_shared : shared;
  cs_world : world;
  cs_stop : bool;        (* stopInputThread *)
}.

(** Lines 126-129, 131-134, 136-139, 142-145 and 162-165: the bodies of the
    critical sections. *)
Definition run_locked (r : request) (sh : shared) (w : world)
    : outcome (shared * world) :=
  match r with
  | ReqCapture => Ok (sh, saveCapturedFaces (capturedFaces sh) dataDirectory w)
  | ReqClear =>
      '(faces, w) ← clearCapturedFaces (capturedFaces sh) dataDirectory w;
      Ok (set_capturedFaces faces sh, w)
  | ReqShow => Ok (sh, showCapturedFaces (capturedFaces sh) w)
  | ReqSetMax max => Ok (setMaxFaces max sh w)
  | ReqRename newName => w ← renameFile newName dataDirectory w; Ok (sh, w)
  | ReqExit | ReqHelp | ReqUnknown => Ok (sh, w)
  end.

(** Lines 146-148, 149-159 and 166-167. *)
Definition run_unlocked (r : request) (st : cstate) : cstate :=
  match r with
  | ReqExit => CState (cs_shared st) (cs_world st) true
  | ReqHelp => CState (cs_shared st) (print MsgHelp (cs_world st)) (cs_stop st)
  | ReqUnknown => CState (cs_shared st) (print MsgUnknown (cs_world st)) (cs_stop st)
  | _ => st
  end.

(** Lines 122-123: the pause of a second and the prompt. *)
Definition prompt (w : world) : world := print MsgPrompt (sleep_for 1 w).

(** Lines 122-168 for the line [getline] returned. *)
Definition command_iteration (command : string) (st : cstate) : outcome cstate :=
  let st := CState (cs_shared st) (prompt (cs_world st)) (cs_stop st) in
  r ← parse_command command;
  if needs_lock r then
    '(sh, w) ← run_locked r (cs_shared st) (cs_world st);
    Ok (CState sh w (cs_stop st))
  else Ok (run_unlocked r st).

(** Lines 121-172: the loop, for the values [getline] gives to [command].
    The loop ends when the flag is set; when the values are used up the
    thread is in [getline]. *)
Fixpoint command_loop (lines : list string) (st : cstate) : outcome cstate :=
  match lines with
  | [] => Ok st
  | command :: lines =>
      if cs_stop st then Ok st
      else st ← command_iteration command st; command_loop lines st
  end.
End command_loop.

(** ** Lemmas on the chain of comparisons *)

Lemma setmax_app arg :
  "setmax " +:+ arg
  = String "s"%char (String "e"%char (String "t"%char (String "m"%char (String "a"%char (String "x"%char
      (String " "%char arg)))))).
Proof. by rewrite !string_app_cons, string_app_nil. Qed.

Lemma rename_app arg :
  "rename " +:+ arg
  = String "r"%char (String "e"%char (String "n"%char (String "a"%char (String "m"%char (String "e"%char
      (String " "%char arg)))))).
Proof. by rewrite !string_app_cons, string_app_nil. Qed.

Lemma substr_7_app p arg :
  String.length p = 7%nat → substr 7 (p +:+ arg) = Ok arg.
Proof. intros <-. apply substr_app. Qed.

Lemma substr_7_starts_with p s :
  String.length p = 7%nat → starts_with p s = true →
  ∃ rest, substr 7 s = Ok rest ∧ s = p +:+ rest.
Proof. intros <-. apply substr_starts_with. Qed.

Lemma parse_command_setmax arg :
  parse_command ("setmax " +:+ arg) = max ← stoi arg; Ok (ReqSetMax max).
Proof.
  unfold parse_command.
  rewrite !decide_False by (rewrite setmax_app; discriminate).
  by rewrite starts_with_app, (substr_7_app "setmax " arg) by done.
Qed.

Lemma parse_command_rename newName :
  parse_command ("rename " +:+ newName) = Ok (ReqRename newName).
Proof.
  unfold parse_command.
  rewrite !decide_False by (rewrite rename_app; discriminate).
  rewrite (starts_with_app "rename "), (substr_7_app "rename " newName) by done.
  by rewrite starts_with_prefix, rename_app.
Qed.

(** What a line that the chain accepts was. *)
Lemma parse_command_Ok_inv command r :
  parse_command command = Ok r →
  match r with
  | ReqCapture => command = "capture"
  | ReqClear => command = "clear"
  | ReqShow => command = "show"
  | ReqSetMax max => ∃ arg, command = "setmax " +:+ arg ∧ stoi arg = Ok max
  | ReqExit => command = "exit"
  | ReqHelp => command = "help"
  | ReqRename newName => command = "rename " +:+ newName
  | ReqUnknown =>
      command ≠ "capture" ∧ command ≠ "clear" ∧ command ≠ "show" ∧
      command ≠ "exit" ∧ command ≠ "help"
  end.
Proof.
  unfold parse_command.
  destruct (decide (command = "capture")); [by intros [= <-]|].
  destruct (decide (command = "clear")); [by intros [= <-]|].
  destruct (decide (command = "show")); [by intros [= <-]|].
  destruct (starts_with "setmax " command) eqn:Hs.
  { destruct (substr_7_starts_with "setmax " _ eq_refl Hs) as (arg & -> & ->).
    simpl. destruct (stoi arg) eqn:?; intros [= <-]. eauto. }
  destruct (decide (command = "exit")); [by intros [= <-]|].
  destruct (decide (command = "help")); [by intros [= <-]|].
  destruct (starts_with "rename " command) eqn:Hr; [|by intros [= <-]].
  destruct (substr_7_starts_with "rename " _ eq_refl Hr) as (arg & -> & ->).
  by intros [= <-].
Qed.

Lemma parse_command_exit command r :
  parse_command command = Ok r → r = ReqExit ↔ command = "exit".
Proof.
  intros Hp. split; intros ->.
  - by apply parse_command_Ok_inv in Hp.
  - vm_compute in Hp. by simplify_eq.
Qed.

Lemma parse_command_Throw_inv command e :
  parse_command command = Throw e →
  ∃ arg, command = "setmax " +:+ arg ∧ stoi arg = Throw e.
Proof.
  unfold parse_command.
  destruct (decide (command = "capture")); [done|].
  destruct (decide (command = "clear")); [done|].
  destruct (decide (command = "show")); [done|].
  destruct (starts_with "setmax " command) eqn:Hs.
  { destruct (substr_7_starts_with "setmax " _ eq_refl Hs) as (arg & -> & ->).
    simpl. destruct (stoi arg) eqn:?; intros [= <-]. eauto. }
  destruct (decide (command = "exit")); [done|].
  destruct (decide (command = "help")); [done|].
  destruct (starts_with "rename " command) eqn:Hr; [|done].
  by destruct (substr_7_starts_with "rename " _ eq_refl Hr) as (arg & -> & ->).
Qed.

Section command_loop_lemmas.
Context {V : VisionLib} {HO : Host}.
Implicit Types (st : cstate) (sh : shared) (w : world) (r : request).

(** The state a turn starts its command with: the prompt is printed. *)
Definition prompted st : cstate :=
  CState (cs_shared st) (prompt (cs_world st)) (cs_stop st).

(** A command that was accepted, run on the state. *)
Definition run_request r st : outcome cstate :=
  if needs_lock r then
    '(sh, w) ← run_locked r (cs_shared st) (cs_world st);
    Ok (CState sh w (cs_stop st))
  else Ok (run_unlocked r st).

Lemma command_iteration_unfold command st :
  command_iteration command st
  = r ← parse_command command; run_request r (prompted st).
Proof. done. Qed.

Lemma run_locked_shared r sh w sh' w' :
  run_locked r sh w = Ok (sh', w') →
  sh' = match r with
        | ReqClear => set_capturedFaces [] sh
        | ReqSetMax max => set_maxFaces max sh
        | _ => sh
        end.
Proof.
  destruct r; simpl; try by intros [= <- <-].
  - unfold clearCapturedFaces. destruct (w_dir w); simpl; by intros [= <- <-].
  - destruct (renameFile _ _ _); simpl; by intros [= <- <-].
Qed.

Lemma run_request_stop r st st' :
  run_request r st = Ok st' →
  cs_stop st' = cs_stop st || bool_decide (r = ReqExit).
Proof.
  unfold run_request. destruct (needs_lock r) eqn:Hl.
  - destruct (run_locked _ _ _) as [[sh w]|]; simpl; intros [= <-]; simpl.
    destruct r; by rewrite ?orb_false_r.
  - intros [= <-]. destruct r; simpl; by rewrite ?orb_false_r, ?orb_true_r.
Qed.

Lemma run_request_shared r st st' :
  run_request r st = Ok st' →
  cs_shared st'
  = match r with
    | ReqClear => set_capturedFaces [] (cs_shared st)
    | ReqSetMax max => set_maxFaces max (cs_shared st)
    | _ => cs_shared st
    end.
Proof.
  unfold run_request. destruct (needs_lock r) eqn:Hl.
  - destruct (run_locked _ _ _) as [[sh w]|] eqn:Hr; simpl; intros [= <-].
    apply (run_locked_shared _ _ _ _ _ Hr).
  - intros [= <-]. by destruct r.
Qed.

Lemma command_iteration_shared_wf command st st' :
  shared_wf (cs_shared st) →
  command_iteration command st = Ok st' →
  shared_wf (cs_shared st').
Proof.
  rewrite command_iteration_unfold. intros Hwf (r & Hp & Hr)%bind_Ok.
  rewrite (run_request_shared _ _ _ Hr). apply parse_command_Ok_inv in Hp.
  destruct r; simpl; auto with cfd.
  destruct Hp as (arg & _ & Hs%stoi_is_int). auto with cfd.
Qed.

Lemma command_loop_stopped lines st :
  cs_stop st = true → command_loop lines st = Ok st.
Proof. intros Hs. destruct lines; simpl; by rewrite ?Hs. Qed.

Lemma command_loop_app lines1 lines2 st :
  command_loop (lines1 ++ lines2) st
  = st ← command_loop lines1 st; command_loop lines2 st.
Proof.
  revert st. induction lines1 as [|c lines1 IH]; intros st; simpl; [done|].
  destruct (cs_stop st) eqn:Hs; simpl; [by rewrite command_loop_stopped|].
  destruct (command_iteration c st); simpl; [apply IH|done].
Qed.
End command_loop_lemmas.

(** ** Properties of the command thread *)

Section command_loop_properties.
Context {V : VisionLib} {HO : Host}.
Implicit Types (st : cstate) (sh : shared) (w : world) (r : request).

(** [setmax] followed by the decimal notation of an [int] stores that
    number in [maxFaces], reports it, and changes nothing else. *)
Theorem command_iteration_setmax (n : Z) st :
  is_int n →
  command_iteration ("setmax " +:+ pretty n) st
  = Ok (CState (set_maxFaces n (cs_shared st))
               (print (MsgMaxFaces n) (prompt (cs_world st)))
               (cs_stop st)).
Proof.
  intros Hn. rewrite command_iteration_unfold, parse_command_setmax.
  by rewrite stoi_pretty_Z, decide_True.
Qed.

(** C32.  [setmax] followed by text without a digit leaves the command
    thread with [std::invalid_argument], which nothing catches: the state
    is not kept and no message about the command is printed. *)
Theorem command_iteration_setmax_invalid arg st :
  no_digit arg = true →
  command_iteration ("setmax " +:+ arg) st = Throw InvalidArgument.
Proof.
  intros Hd. rewrite command_iteration_unfold, parse_command_setmax.
  by rewrite stoi_no_digit.
Qed.

(** C16.  A turn of the command thread throws only for [setmax] with an
    argument [stoi] rejects, for [clear] when the directory cannot be
    listed, and for [rename] when [renameFile] throws. *)
Theorem command_iteration_throws command st e :
  command_iteration command st = Throw e →
  (∃ arg, command = "setmax " +:+ arg ∧ stoi arg = Throw e)
  ∨ (command = "clear" ∧ w_dir (cs_world st) = None ∧ e = FilesystemError)
  ∨ (∃ newName, command = "rename " +:+ newName ∧
       renameFile newName dataDirectory (prompt (cs_world st)) = Throw e).
Proof.
  rewrite command_iteration_unfold. intros [Hp|(r & Hp & Hr)]%bind_Throw.
  { left. by apply parse_command_Throw_inv. }
  right. apply parse_command_Ok_inv in Hp. unfold run_request in Hr.
  destruct r; simpl in Hr; try done.
  - left. unfold clearCapturedFaces, print in Hr. simpl in Hr.
    by destruct (w_dir (cs_world st)); simpl in Hr; simplify_eq.
  - right. exists newName. split; [done|].
    by destruct (renameFile _ _ _); simpl in Hr; simplify_eq.
Qed.

(** The command thread never adds a face to the buffer: after a
    turn the buffer is empty when the command was [clear] and unchanged
    otherwise. *)
Theorem command_iteration_buffer command st st' :
  command_iteration command st = Ok st' →
  capturedFaces (cs_shared st')
  = if decide (command = "clear") then [] else capturedFaces (cs_shared st).
Proof.
  rewrite command_iteration_unfold. intros (r & Hp & Hr)%bind_Ok.
  rewrite (run_request_shared _ _ _ Hr). apply parse_command_Ok_inv in Hp.
  destruct r; simpl; try destruct Hp as (arg & -> & _); subst;
    try (by rewrite decide_False by (rewrite ?setmax_app, ?rename_app; done)).
  - done.
  - by rewrite decide_False by (intros ?; by destruct_and!).
Qed.

(** The flag [stopInputThread] is set by the command [exit] and by
    no other line. *)
Theorem command_iteration_stop command st st' :
  command_iteration command st = Ok st' →
  cs_stop st' = cs_stop st || bool_decide (command = "exit").
Proof.
  rewrite command_iteration_unfold. intros (r & Hp & Hr)%bind_Ok.
  rewrite (run_request_stop _ _ _ Hr). f_equal.
  by apply bool_decide_ext, parse_command_exit.
Qed.

(** After [exit] the command thread reads no further line: the
    lines that follow it have no effect. *)
Theorem command_loop_exit lines rest st st1 :
  command_loop lines st = Ok st1 →
  cs_stop st1 = false →
  command_loop (lines ++ "exit" :: rest) st
  = Ok (CState (cs_shared st1) (prompt (cs_world st1)) true).
Proof.
  intros Hl Hs. rewrite command_loop_app, Hl. simpl. rewrite Hs. simpl.
  by rewrite command_loop_stopped.
Qed.

(** The command thread keeps the shared state well formed over any
    sequence of lines it survives. *)
Theorem command_loop_wf lines st st' :
  shared_wf (cs_shared st) →
  command_loop lines st = Ok st' →
  shared_wf (cs_shared st').
Proof.
  revert st. induction lines as [|c lines IH]; intros st Hwf; simpl.
  { by intros [= <-]. }
  destruct (cs_stop st); [by intros [= <-]|].
  intros (st1 & H1 & H2)%bind_Ok.
  eauto using command_iteration_shared_wf.
Qed.
End command_loop_properties.

(** ** The properties at concrete states *)

Section command_loop_witnesses.
Import StubVision StubHost.

(** A state over an empty directory. *)
Definition st_of (slept : nat) (faces : list smat) (max : Z) (queue : list nat)
    (out : list message) (stop : bool) : cstate (V:=stub) :=
  CState (Shared (V:=stub) faces max)
         (World (V:=stub) (Some ∅) 0 slept queue out) stop.

Definition st_start : cstate (V:=stub) := st_of 0 [] 1 [] [] false.
Definition st_nodir : cstate (V:=stub) := CState shared_init w_nodir false.
Definition st_face : cstate (V:=stub) := st_of 0 [img_a] 1 [] [] false.

#[local] Abbreviation turn := (command_iteration (V:=stub) (HO:=stub_host)).
#[local] Abbreviation turns := (command_loop (V:=stub) (HO:=stub_host)).

Lemma command_iteration_setmax_witness :
  turn "setmax 3" st_start = Ok (st_of 1 [] 3 [] [MsgPrompt; MsgMaxFaces 3] false).
Proof. apply (command_iteration_setmax 3 st_start). compute_done. Defined.

Lemma command_iteration_setmax_invalid_witness :
  turn "setmax abc" st_start = Throw InvalidArgument.
Proof. by apply (command_iteration_setmax_invalid "abc" st_start). Defined.

Lemma command_iteration_throws_witness :
  (∃ arg, "clear" = "setmax " +:+ arg ∧ stoi arg = Throw FilesystemError)
  ∨ ("clear" = "clear" ∧ w_dir (cs_world st_nodir) = None
     ∧ FilesystemError = FilesystemError)
  ∨ (∃ newName, "clear" = "rename " +:+ newName ∧
       renameFile (HO:=stub_host) newName dataDirectory
         (prompt (cs_world st_nodir)) = Throw FilesystemError).
Proof. by apply (command_iteration_throws "clear" st_nodir). Defined.

Lemma command_iteration_buffer_witness :
  capturedFaces (cs_shared (st_of 1 [img_a] 1 [0%nat] [MsgPrompt] false)) = [img_a].
Proof. by apply (command_iteration_buffer "show" st_face). Defined.

Lemma command_iteration_stop_witness :
  cs_stop (st_of 1 [] 1 [] [MsgPrompt] true) = true.
Proof. by apply (command_iteration_stop "exit" st_start). Defined.

Lemma command_loop_exit_witness :
  turns ["show"; "exit"; "clear"] st_face
  = Ok (st_of 2 [img_a] 1 [0%nat] [MsgPrompt; MsgPrompt] true).
Proof.
  by apply (command_loop_exit ["show"] ["clear"] st_face
              (st_of 1 [img_a] 1 [0%nat] [MsgPrompt] false)).
Defined.

Lemma command_loop_wf_witness :
  shared_wf (cs_shared
    (st_of 2 [img_a] 4 [0%nat] [MsgPrompt; MsgMaxFaces 4; MsgPrompt] false)).
Proof.
  apply (command_loop_wf (HO:=stub_host) ["setmax 4"; "show"] st_face); [|done].
  constructor; [compute_done|]. repeat constructor.
Defined.
End command_loop_witnesses.
