(* ===== verification/System.v ===== *)
(** * System: the two threads of [main] as one transition system

    [main] (src/compscifinal.cpp, lines 104-190) loads the classifier, opens
    the camera, starts the command thread and runs the capture loop; when
    the loop ends it joins the command thread and returns 0.  Both threads
    take [dataMutex] around their accesses to [capturedFaces] and
    [maxFaces].

    A state [sys] holds the shared data, the world, the flag
    [stopInputThread], the variable [command], the owner of the mutex, one
    program counter per thread and what the environment will still deliver:
    camera frames, results of [waitKey] and the stream [cin].  [main_step]
    and [input_step] execute the statement a thread is at; a thread that
    waits (for the mutex, for a line on a terminal, in [join]) has no step.
    [getline] is the function of [IStream]: after the end of standard input
    it returns at once and leaves [command] as it was.  The critical
    section of the capture loop is executed statement by statement, one
    step per iteration of the loop of [detectFaces], so the states in which
    the vector is half filled are states of the system.  A handler of the
    command thread is one step: it runs with the mutex held and the capture
    loop touches nothing a handler reads while it waits for the mutex.

    An exception that leaves a thread calls [std::terminate]: the state
    becomes [Terminated e] and no thread steps any more.

    The one-second sleep of line 122 is part of the step that prints the
    prompt: it advances the time of the world ([prompt]).  The ten
    milliseconds of [waitKey] change no state and are not a step. *)

From S2P Require Import Prelude CppString IStream Vision Shared Detect.
From S2P Require Import FileSystem Handlers CommandLoop.
From stdpp Require Import relations.

#[local] Open Scope Z_scope.

(** ** Definitions *)

Inductive tid : Type := TMain | TInput.

#[global] Instance tid_eq_dec : EqDecision tid.
Proof. solve_decision. Defined.

(** How the process ended, if it did. *)
Inductive status : Type :=
  | Running
  | Exited (code : Z)       (* [return] from [main] *)
  | Terminated (e : exn).   (* [std::terminate] after an uncaught exception *)

#[global] Instance status_eq_dec : EqDecision status.
Proof. solve_decision. Defined.

(** The key code of ESC, line 181. *)
Definition KEY_ESC : Z := 27.

Section system.
Context {V : VisionLib} {HO : Host}.

(** Where the main thread is.  [frame] is the variable of line 110; the
    loop of [detectFaces] carries its locals [gray], the regions still to
    visit and [faceCount]. *)
Inductive main_pc : Type :=
  | MLoad                    (* line 111: faceCascade.load *)
  | MOpen                    (* line 115: cap.isOpened *)
  | MSpawn                   (* line 119: thread inputThread *)
  | MRead                    (* line 174: cap.read(frame) *)
  | MLock (frame : Mat)      (* line 176: lock_guard *)
  | MClear (frame : Mat)     (* line 177: capturedFaces.clear() *)
  | MDetect (frame : Mat)    (* lines 20-24 of detectFaces *)
  | MLoop (frame gray : Mat) (faces : list Rect) (faceCount : Z)
                             (* lines 25-32 of detectFaces *)
  | MUnlock (frame : Mat)    (* line 179: end of the lock_guard's scope *)
  | MShow (frame : Mat)      (* line 180: imshow *)
  | MWaitKey                 (* line 181: waitKey(10) == 27 *)
  | MJoin                    (* lines 186-188: inputThread.join() *)
  | MReturn                  (* line 189: return 0 *)
  | MDone.

(** Where the command thread is. *)
Inductive input_pc : Type :=
  | INotStarted
  | ICheck                   (* line 121: while (!stopInputThread) *)
  | IPrompt                  (* lines 122-123 *)
  | IGetline                 (* line 124 *)
  | IParse                   (* the chain of lines 125-166, lines 141, 161 *)
  | ILock (r : request)      (* lock_guard of lines 127, 132, 137, 143, 163 *)
  | IRun (r : request)       (* the handler *)
  | IUnlock                  (* end of the lock_guard's scope *)
  | IPlain (r : request)     (* lines 147-148, 150-159, 167 *)
  | IAfter                   (* line 169: if (stopInputThread) break *)
  | IDone.

#[global] Instance main_pc_eq_dec : EqDecision main_pc.
Proof. solve_decision. Defined.
#[global] Instance input_pc_eq_dec : EqDecision input_pc.
Proof. solve_decision. Defined.

Record sys : Type := Sys {
  s_shared : shared;             (* capturedFaces, maxFaces *)
  s_world : world;               (* directory, clock, main queue, output *)
  s_stop : bool;                 (* stopInputThread *)
  s_mutex : option tid;          (* owner of dataMutex *)
  s_main : main_pc;
  s_input : input_pc;
  s_status : status;
  s_display : list Mat;          (* frames shown in the window, line 180 *)
  s_faceCascade : CascadeClassifier;   (* line 105, after load *)
  s_loaded : bool;               (* result of faceCascade.load, line 111 *)
  s_opened : bool;               (* cap.isOpened(), line 115 *)
  s_camera : list Mat;           (* frames cap.read will deliver *)
  s_keys : list Z;               (* results of the calls of waitKey(10) *)
  s_cin : istream;               (* what getline will read *)
  s_command : string;            (* command, line 120 *)
}.

Definition set_shared (sh : shared) (s : sys) : sys :=
  Sys sh (s_world s) (s_stop s) (s_mutex s) (s_main s) (s_input s)
      (s_status s) (s_display s) (s_faceCascade s) (s_loaded s) (s_opened s)
      (s_camera s) (s_keys s) (s_cin s) (s_command s).
Definition set_world (w : world) (s : sys) : sys :=
  Sys (s_shared s) w (s_stop s) (s_mutex s) (s_main s) (s_input s)
      (s_status s) (s_display s) (s_faceCascade s) (s_loaded s) (s_opened s)
      (s_camera s) (s_keys s) (s_cin s) (s_command s).
Definition set_stop (b : bool) (s : sys) : sys :=
  Sys (s_shared s) (s_world s) b (s_mutex s) (s_main s) (s_input s)
      (s_status s) (s_display s) (s_faceCascade s) (s_loaded s) (s_opened s)
      (s_camera s) (s_keys s) (s_cin s) (s_command s).
Definition set_mutex (m : option tid) (s : sys) : sys :=
  Sys (s_shared s) (s_world s) (s_stop s) m (s_main s) (s_input s)
      (s_status s) (s_display s) (s_faceCascade s) (s_loaded s) (s_opened s)
      (s_camera s) (s_keys s) (s_cin s) (s_command s).
Definition set_main (pc : main_pc) (s : sys) : sys :=
  Sys (s_shared s) (s_world s) (s_stop s) (s_mutex s) pc (s_input s)
      (s_status s) (s_display s) (s_faceCascade s) (s_loaded s) (s_opened s)
      (s_camera s) (s_keys s) (s_cin s) (s_command s).
Definition set_input (pc : input_pc) (s : sys) : sys :=
  Sys (s_shared s) (s_world s) (s_stop s) (s_mutex s) (s_main s) pc
      (s_status s) (s_display s) (s_faceCascade s) (s_loaded s) (s_opened s)
      (s_camera s) (s_keys s) (s_cin s) (s_command s).
Definition set_status (st : status) (s : sys) : sys :=
  Sys (s_shared s) (s_world s) (s_stop s) (s_mutex s) (s_main s) (s_input s)
      st (s_display s) (s_faceCascade s) (s_loaded s) (s_opened s)
      (s_camera s) (s_keys s) (s_cin s) (s_command s).
Definition set_display (l : list Mat) (s : sys) : sys :=
  Sys (s_shared s) (s_world s) (s_stop s) (s_mutex s) (s_main s) (s_input s)
      (s_status s) l (s_faceCascade s) (s_loaded s) (s_opened s) (s_camera s)
      (s_keys s) (s_cin s) (s_command s).
Definition set_camera (l : list Mat) (s : sys) : sys :=
  Sys (s_shared s) (s_world s) (s_stop s) (s_mutex s) (s_main s) (s_input s)
      (s_status s) (s_display s) (s_faceCascade s) (s_loaded s) (s_opened s) l
      (s_keys s) (s_cin s) (s_command s).
Definition set_keys (l : list Z) (s : sys) : sys :=
  Sys (s_shared s) (s_world s) (s_stop s) (s_mutex s) (s_main s) (s_input s)
      (s_status s) (s_display s) (s_faceCascade s) (s_loaded s) (s_opened s)
      (s_camera s) l (s_cin s) (s_command s).
Definition set_cin (ins : istream) (s : sys) : sys :=
  Sys (s_shared s) (s_world s) (s_stop s) (s_mutex s) (s_main s) (s_input s)
      (s_status s) (s_display s) (s_faceCascade s) (s_loaded s) (s_opened s)
      (s_camera s) (s_keys s) ins (s_command s).
Definition set_command (c : string) (s : sys) : sys :=
  Sys (s_shared s) (s_world s) (s_stop s) (s_mutex s) (s_main s) (s_input s)
      (s_status s) (s_display s) (s_faceCascade s) (s_loaded s) (s_opened s)
      (s_camera s) (s_keys s) (s_cin s) c.

(** What the environment supplies to a run. *)
Record environment : Type := Env {
  e_faceCascade : CascadeClassifier;
  e_loaded : bool;
  e_opened : bool;
  e_frames : list Mat;
  e_keys : list Z;
  e_lines : list string;
  e_dir : option (gmap string (node Mat));
  e_end : stream_end;
}.

(** Lines 14, 16, 105-110 and 120: the state when [main] starts. *)
Definition init (e : environment) : sys :=
  Sys shared_init (World (e_dir e) 0 0 [] []) false None MLoad INotStarted Running
      [] (e_faceCascade e) (e_loaded e) (e_opened e) (e_frames e) (e_keys e)
      (IStream (e_lines e) (e_end e)) "".

(** [return code] from [main]. *)
Definition exit_main (code : Z) (s : sys) : sys :=
  set_status (Exited code) (set_main MDone s).

(** One iteration of the loop of lines 25-32, on the vector in place. *)
Definition main_loop_step (frame gray : Mat) (faces : list Rect) (faceCount : Z)
    (s : sys) : sys :=
  match faces with
  | [] => set_main (MUnlock frame) s
  | face :: faces =>
      if bool_decide (faceCount >= maxFaces (s_shared s))
      then set_main (MUnlock frame) s
      else
        match detect_body gray face
                (DetectState frame (capturedFaces (s_shared s)) faceCount) with
        | Ok st =>
            set_shared (set_capturedFaces (ds_captured st) (s_shared s))
              (set_main (MLoop (ds_frame st) gray faces (ds_count st)) s)
        | Throw e => set_status (Terminated e) s
        end
  end.

(** The statement the main thread is at. *)
Definition main_step (s : sys) : option sys :=
  match s_main s with
  | MLoad =>
      if s_loaded s then Some (set_main MOpen s)
      else Some (exit_main (-1)
                   (set_world (print MsgCascadeError (s_world s)) s))
  | MOpen =>
      if s_opened s then Some (set_main MSpawn s)
      else Some (exit_main (-1)
                   (set_world (print MsgCameraError (s_world s)) s))
  | MSpawn => Some (set_input ICheck (set_main MRead s))
  | MRead =>
      match s_camera s with
      | frame :: frames => Some (set_camera frames (set_main (MLock frame) s))
      | [] => Some (set_main MJoin s)
      end
  | MLock frame =>
      match s_mutex s with
      | None => Some (set_mutex (Some TMain) (set_main (MClear frame) s))
      | Some _ => None
      end
  | MClear frame =>
      Some (set_shared (set_capturedFaces [] (s_shared s))
              (set_main (MDetect frame) s))
  | MDetect frame =>
      let gray := cvtColor_gray frame in
      let faces := detectMultiScale (s_faceCascade s) gray in
      Some (set_main (MLoop frame gray faces 0) s)
  | MLoop frame gray faces faceCount =>
      Some (main_loop_step frame gray faces faceCount s)
  | MUnlock frame => Some (set_mutex None (set_main (MShow frame) s))
  | MShow frame =>
      Some (set_display (s_display s ++ [frame]) (set_main MWaitKey s))
  | MWaitKey =>
      let key := hd (-1) (s_keys s) in
      let s := set_keys (tail (s_keys s)) s in
      if bool_decide (key = KEY_ESC) then Some (set_stop true (set_main MJoin s))
      else Some (set_main MRead s)
  | MJoin =>
      match s_input s with
      | IDone => Some (set_main MReturn s)
      | _ => None
      end
  | MReturn => Some (exit_main 0 s)
  | MDone => None
  end.

(** The statement the command thread is at. *)
Definition input_step (s : sys) : option sys :=
  match s_input s with
  | INotStarted => None
  | ICheck =>
      Some (set_input (if s_stop s then IDone else IPrompt) s)
  | IPrompt =>
      Some (set_world (prompt (s_world s)) (set_input IGetline s))
  | IGetline =>
      match getline (s_cin s) (s_command s) with
      | Some (ins, command) =>
          Some (set_cin ins (set_command command (set_input IParse s)))
      | None => None
      end
  | IParse =>
      match parse_command (s_command s) with
      | Ok r => Some (set_input (if needs_lock r then ILock r else IPlain r) s)
      | Throw e => Some (set_status (Terminated e) s)
      end
  | ILock r =>
      match s_mutex s with
      | None => Some (set_mutex (Some TInput) (set_input (IRun r) s))
      | Some _ => None
      end
  | IRun r =>
      match run_locked r (s_shared s) (s_world s) with
      | Ok (sh, w) => Some (set_shared sh (set_world w (set_input IUnlock s)))
      | Throw e => Some (set_status (Terminated e) s)
      end
  | IUnlock => Some (set_mutex None (set_input IAfter s))
  | IPlain r =>
      let st := run_unlocked r (CState (s_shared s) (s_world s) (s_stop s)) in
      Some (set_stop (cs_stop st) (set_world (cs_world st)
              (set_input (if r is ReqExit then IDone else IAfter) s)))
  | IAfter =>
      Some (set_input (if s_stop s then IDone else ICheck) s)
  | IDone => None
  end.

(** A step of thread [t]; none once the process has ended. *)
Definition thread_step (t : tid) (s : sys) : option sys :=
  match s_status s with
  | Running =>
      match t with TMain => main_step s | TInput => input_step s end
  | _ => None
  end.

Definition step (s s' : sys) : Prop := ∃ t, thread_step t s = Some s'.

(** The states a run from [init e] passes through. *)
Definition reachable (e : environment) (s : sys) : Prop := rtc step (init e) s.

(** A schedule names the thread that runs next; a thread that cannot step
    is passed over. *)
Fixpoint run (schedule : list tid) (s : sys) : sys :=
  match schedule with
  | [] => s
  | t :: schedule => run schedule (default s (thread_step t s))
  end.

(** Lines 174-185 as a function: the capture loop when no other thread
    runs.  The result is the shared data, the frames shown, the frames and
    keys left, and whether the loop ended by ESC. *)
Fixpoint capture_loop (faceCascade : CascadeClassifier) (camera : list Mat)
    (keys : list Z) (sh : shared) (display : list Mat)
    : outcome (shared * list Mat * list Mat * list Z * bool) :=
  match camera with
  | [] => Ok (sh, display, [], keys, false)
  | frame :: camera =>
      '(frame, sh) ← process_frame faceCascade frame sh;
      let display := display ++ [frame] in
      if bool_decide (hd (-1) keys = KEY_ESC)
      then Ok (sh, display, camera, tail keys, true)
      else capture_loop faceCascade camera (tail keys) sh display
  end.

(** The threads that hold the mutex, by program counter. *)
Definition main_holds (pc : main_pc) : bool :=
  match pc with
  | MClear _ | MDetect _ | MLoop _ _ _ _ | MUnlock _ => true
  | _ => false
  end.

Definition input_holds (pc : input_pc) : bool :=
  match pc with
  | IRun _ | IUnlock => true
  | _ => false
  end.

(** The statements of [main] that precede the start of the command
    thread. *)
Definition before_spawn (pc : main_pc) : bool :=
  match pc with
  | MLoad | MOpen | MSpawn => true
  | _ => false
  end.

(** A request whose argument is a value of type [int]. *)
Definition request_wf (r : request) : Prop :=
  match r with ReqSetMax max => is_int max | _ => True end.

Definition input_pc_wf (pc : input_pc) : Prop :=
  match pc with
  | ILock r | IRun r | IPlain r => request_wf r
  | _ => True
  end.

(** The counter of the loop of [detectFaces] is a value of type [int]. *)
Definition main_pc_wf (pc : main_pc) : Prop :=
  match pc with MLoop _ _ _ faceCount => is_int faceCount | _ => True end.

(** The view the command thread has of a state. *)
Definition cstate_of (s : sys) : cstate :=
  CState (s_shared s) (s_world s) (s_stop s).

(** A state whose values have their C++ types: [maxFaces], [faceCount] and
    the argument of [setmax] are values of type [int], and every buffered
    face has the size [resize] gives it. *)
Definition sys_typed (s : sys) : Prop :=
  shared_wf (s_shared s) ∧ input_pc_wf (s_input s) ∧ main_pc_wf (s_main s).
End system.

(** ** Tactics *)

#[global] Arguments parse_command : simpl never.
#[global] Arguments run_locked : simpl never.
#[global] Arguments run_unlocked : simpl never.
#[global] Arguments detect_body : simpl never.

(** Case analysis on the statement a step executed. *)
(** Case analysis on the statement a step of a thread executed. *)
Ltac step_cases H :=
  repeat match type of H with
  | context [match ?x with _ => _ end] => destruct x eqn:?; simpl in H
  end;
  simplify_eq/=.
Ltac main_step_inv H :=
  unfold main_step, main_loop_step, exit_main in H; simpl in H; step_cases H.
Ltac input_step_inv H :=
  unfold input_step in H; simpl in H; step_cases H.

(** ** Reachability *)

Section system_lemmas.
Context {V : VisionLib} {HO : Host}.
Implicit Types (s : sys) (e : environment) (t : tid).

Lemma reachable_init e : reachable e (init e).
Proof. apply rtc_refl. Qed.

Lemma reachable_step e s t s' :
  reachable e s → thread_step t s = Some s' → reachable e s'.
Proof. intros Hr Hs. eapply rtc_r; [done|]. by exists t. Qed.

Lemma reachable_run e schedule s :
  reachable e s → reachable e (run schedule s).
Proof.
  revert s. induction schedule as [|t schedule IH]; intros s Hr; simpl; [done|].
  apply IH. destruct (thread_step t s) eqn:Hs; simpl; [|done].
  by eapply reachable_step.
Qed.

(** Induction on the steps of a run. *)
Lemma reachable_inv (P : sys → Prop) e :
  P (init e) →
  (∀ s t s', reachable e s → P s → thread_step t s = Some s' → P s') →
  ∀ s, reachable e s → P s.
Proof.
  intros Hi Hs. apply rtc_ind_r; [done|].
  intros s1 s2 Hr [t Ht] IH. by eapply Hs.
Qed.

Lemma run_cons t schedule s s' :
  thread_step t s = Some s' → run (t :: schedule) s = run schedule s'.
Proof. simpl. by intros ->. Qed.

Lemma run_app sch1 sch2 s : run (sch1 ++ sch2) s = run sch2 (run sch1 s).
Proof. revert s. induction sch1; intros s; simpl; [done|]. apply IHsch1. Qed.

(** A relation that the steps of both threads establish. *)
Lemma thread_step_cases (R : sys → sys → Prop) :
  (∀ s s', s_status s = Running → main_step s = Some s' → R s s') →
  (∀ s s', s_status s = Running → input_step s = Some s' → R s s') →
  ∀ s t s', thread_step t s = Some s' → R s s'.
Proof.
  intros Hm Hi s t s'. unfold thread_step.
  destruct (s_status s) eqn:Hst; [|done..]. destruct t; eauto.
Qed.

(** ** The mutex *)

(** The owner of the mutex is the thread whose program counter is inside a
    critical section, and the command thread does not run before it is
    started. *)
Definition mutex_inv s : Prop :=
  s_mutex s =
    (if main_holds (s_main s) then Some TMain
     else if input_holds (s_input s) then Some TInput else None)
  ∧ main_holds (s_main s) && input_holds (s_input s) = false
  ∧ (before_spawn (s_main s) = true → s_input s = INotStarted).

Lemma mutex_inv_step s t s' :
  mutex_inv s → thread_step t s = Some s' → mutex_inv s'.
Proof.
  intros Hinv Hs. revert s t s' Hs Hinv. unfold mutex_inv.
  apply (thread_step_cases (λ s s', _ → _)); intros s s' _ Hs (Hm & Hx & Hb).
  - destruct s as [? ? ? ? pc ? ? ? ? ? ? ? ? ? ?]; simpl in *.
    destruct pc; simpl in *; try (specialize (Hb eq_refl); subst);
      main_step_inv Hs; repeat case_match; simplify_eq/=; done || congruence.
  - destruct s as [? ? ? ? ? pc ? ? ? ? ? ? ? ? ?]; simpl in *.
    destruct pc; input_step_inv Hs; repeat case_match; simplify_eq/=;
      try (done || congruence); naive_solver.
Qed.

Lemma reachable_mutex_inv e s : reachable e s → mutex_inv s.
Proof.
  apply reachable_inv; [done|]. intros ??? _. apply mutex_inv_step.
Qed.
(** ** Well-formedness of the shared data *)

Definition wf_inv s : Prop :=
  shared_wf (s_shared s) ∧ input_pc_wf (s_input s).

Lemma parse_command_wf command r : parse_command command = Ok r → request_wf r.
Proof.
  intros Hp%parse_command_Ok_inv. destruct r; try done.
  destruct Hp as (arg & _ & Hs). by eapply stoi_is_int.
Qed.

Lemma detect_body_Ok_inv gray face st st' :
  detect_body gray face st = Ok st' →
  ∃ crop, crop_face gray face = Ok crop ∧
    st' = DetectState (rectangle (ds_frame st) face) (ds_captured st ++ [crop])
                      (wrap_int (ds_count st + 1)).
Proof.
  rewrite detect_body_crop. destruct (crop_face gray face) as [crop|]; [|done].
  intros [= <-]. eauto.
Qed.

Lemma run_locked_wf r sh w sh' w' :
  shared_wf sh → request_wf r → run_locked r sh w = Ok (sh', w') → shared_wf sh'.
Proof.
  intros Hwf Hr ->%run_locked_shared. destruct r; auto with cfd.
Qed.

Lemma wf_inv_step s t s' :
  wf_inv s → thread_step t s = Some s' → wf_inv s'.
Proof.
  intros Hinv Hs. revert s t s' Hs Hinv. unfold wf_inv.
  apply (thread_step_cases (λ s s', _ → _)); intros s s' _ Hs [Hwf Hpc];
    destruct s.
  - main_step_inv Hs; try (split; auto with cfd; fail).
    match goal with H : detect_body _ _ _ = Ok _ |- _ =>
      apply detect_body_Ok_inv in H as (crop & Hc & ->) end.
    split; [|done]. apply set_capturedFaces_wf; [done|]. simpl.
    apply Forall_app. split; [apply Hwf|]. eauto with cfd.
  - input_step_inv Hs;
      split; eauto using parse_command_wf, run_locked_wf with cfd.
Qed.

Lemma main_pc_wf_step s t s' :
  main_pc_wf (s_main s) → thread_step t s = Some s' → main_pc_wf (s_main s').
Proof.
  intros Hinv Hs. revert s t s' Hs Hinv.
  apply (thread_step_cases (λ s s', _ → _)); intros s s' _ Hs Hpc;
    destruct s; simpl in *.
  - main_step_inv Hs; try done.
    match goal with H : detect_body _ _ _ = Ok _ |- _ =>
      apply detect_body_Ok_inv in H as (crop & _ & ->) end.
    apply wrap_int_is_int.
  - by input_step_inv Hs.
Qed.

Lemma init_typed e : sys_typed (init e).
Proof. split_and!; [apply shared_init_wf|done..]. Qed.

Lemma reachable_wf_inv e s : reachable e s → wf_inv s.
Proof.
  apply reachable_inv; [|intros ??? _; apply wf_inv_step].
  split; [apply shared_init_wf|done].
Qed.

(** ** The counter of the detection loop *)

(** Inside the critical section of the capture loop [faceCount] is the
    length of the vector, and the vector is not longer than the limit. *)
Definition count_inv s : Prop :=
  let n := Z.of_nat (length (capturedFaces (s_shared s))) in
  match s_main s with
  | MDetect _ => capturedFaces (s_shared s) = []
  | MLoop _ _ _ faceCount =>
      faceCount = n ∧ n ≤ Z.max 0 (maxFaces (s_shared s))
  | MUnlock _ => n ≤ Z.max 0 (maxFaces (s_shared s))
  | _ => True
  end.

Lemma count_inv_step s t s' :
  mutex_inv s → wf_inv s → count_inv s → thread_step t s = Some s' →
  count_inv s'.
Proof.
  intros Hm Hwf Hc Hs. revert s t s' Hs Hm Hwf Hc. unfold count_inv.
  apply (thread_step_cases (λ s s', _ → _ → _ → _));
    intros s s' _ Hs (_ & Hx & _) [[Hmax _] _] Hc; destruct s; simpl in *.
  - main_step_inv Hs; try (done || lia).
    + rewrite Hc. simpl. lia.
    + match goal with H : detect_body _ _ _ = Ok _ |- _ =>
        apply detect_body_Ok_inv in H as (crop & _ & ->) end.
      simpl. rewrite length_app. simpl. destruct Hc as [-> Hc].
      match goal with H : bool_decide _ = false |- _ =>
        apply bool_decide_eq_false in H end.
      rewrite wrap_int_id by (unfold is_int, INT_MIN, INT_MAX in *; lia). lia.
  - input_step_inv Hs; try done.
    by destruct s_main0.
Qed.

Lemma reachable_count_inv e s : reachable e s → count_inv s.
Proof.
  apply reachable_inv; [done|]. intros s1 t s2 Hr.
  apply count_inv_step; eauto using reachable_mutex_inv, reachable_wf_inv.
Qed.

(** ** How the process ends *)

(** What the program counter of [main] says about the start-up checks. *)
Definition started (pc : main_pc) (loaded opened : bool) : Prop :=
  match pc with
  | MLoad | MDone => True
  | MOpen => loaded = true
  | _ => loaded = true ∧ opened = true
  end.

Definition exit_inv e s : Prop :=
  s_loaded s = e_loaded e ∧ s_opened s = e_opened e ∧
  started (s_main s) (s_loaded s) (s_opened s) ∧
  (s_input s = IDone → s_stop s = true) ∧
  (s_main s = MReturn → s_input s = IDone) ∧
  (s_input s = INotStarted → before_spawn (s_main s) = true ∨ s_main s = MDone) ∧
  match s_status s with
  | Exited code =>
      s_main s = MDone ∧
      if s_loaded s && s_opened s then code = 0 ∧ s_input s = IDone
      else code = -1 ∧ s_input s = INotStarted
  | _ => s_main s ≠ MDone
  end.

Lemma exit_inv_step e s t s' :
  mutex_inv s → exit_inv e s → thread_step t s = Some s' → exit_inv e s'.
Proof.
  intros Hm He Hs. revert s t s' Hs Hm He. unfold exit_inv, mutex_inv.
  apply (thread_step_cases (λ s s', _ → _ → _));
    intros s s' Hr Hs (_ & _ & Hb) (Hl & Ho & Hst & Hd & Hret & Hn & Hx);
    destruct s; simpl in *; subst.
  - main_step_inv Hs; split_and?; try done;
      destruct (e_loaded e), (e_opened e); simpl in *; intuition congruence.
  - input_step_inv Hs; split_and?; try done; intuition congruence.
Qed.

Lemma reachable_exit_inv e s : reachable e s → exit_inv e s.
Proof.
  apply reachable_inv.
  { unfold exit_inv. simpl. split_and?; auto; done. }
  intros s1 t s2 Hr.
  apply exit_inv_step; eauto using reachable_mutex_inv.
Qed.

(** ** A thread running alone *)

(** [n] consecutive steps of thread [t]. *)
Definition run_thread (t : tid) (n : nat) (s : sys) : sys :=
  run (replicate n t) s.

Lemma run_thread_add t n m s :
  run_thread t (n + m) s = run_thread t m (run_thread t n s).
Proof. unfold run_thread. by rewrite replicate_add, run_app. Qed.

Lemma run_thread_S t n s s' :
  thread_step t s = Some s' → run_thread t (S n) s = run_thread t n s'.
Proof. unfold run_thread. simpl. by intros ->. Qed.

Lemma run_thread_ended t n s :
  s_status s ≠ Running → run_thread t n s = s.
Proof.
  intros Hs. unfold run_thread. induction n as [|n IH]; simpl; [done|].
  unfold thread_step. by destruct (s_status s).
Qed.

End system_lemmas.

(** Steps of a thread running alone, one statement at a time; [tac]
    rewrites the calls whose result is known. *)
Ltac thread_steps tac :=
  repeat (erewrite run_thread_S
            by (unfold thread_step, main_step, input_step; simpl; tac; simpl;
                reflexivity)).

Section system_runs.
Context {V : VisionLib} {HO : Host}.
Implicit Types (s : sys) (e : environment) (t : tid).

(** The loop of [detectFaces], stepped to its end. *)
Lemma run_main_loop faces s frame gray faceCount :
  s_status s = Running → s_main s = MLoop frame gray faces faceCount →
  ∃ n, (n ≤ length faces + 1)%nat ∧
    match detect_loop (maxFaces (s_shared s)) gray faces
            (DetectState frame (capturedFaces (s_shared s)) faceCount) with
    | Ok st =>
        run_thread TMain n s
        = set_shared (set_capturedFaces (ds_captured st) (s_shared s))
            (set_main (MUnlock (ds_frame st)) s)
    | Throw e => s_status (run_thread TMain n s) = Terminated e
    end.
Proof.
  revert s frame faceCount.
  induction faces as [|face faces IH]; intros s frame faceCount Hr Hpc.
  { exists 1%nat. split; [simpl; lia|]. simpl.
    erewrite run_thread_S by (unfold thread_step, main_step; by rewrite Hr, Hpc).
    destruct s as [[] ?]; simpl in *. by subst. }
  simpl. destruct (bool_decide (faceCount >= _)) eqn:Hstop.
  { exists 1%nat. split; [simpl; lia|].
    erewrite run_thread_S by (unfold thread_step, main_step; by rewrite Hr, Hpc).
    unfold main_loop_step. rewrite Hstop. destruct s as [[] ?]; simpl in *.
    by subst. }
  destruct (detect_body gray face _) as [st1|e] eqn:Hbody; simpl.
  - set (s1 := set_shared (set_capturedFaces (ds_captured st1) (s_shared s))
                 (set_main (MLoop (ds_frame st1) gray faces (ds_count st1)) s)).
    destruct (IH s1 (ds_frame st1) (ds_count st1)) as (n & Hn & Hrun); [done..|].
    exists (S n). split; [simpl; lia|].
    erewrite run_thread_S; last first.
    { unfold thread_step, main_step. rewrite Hr, Hpc. unfold main_loop_step.
      by rewrite Hstop, Hbody. }
    fold s1. simpl in Hrun. destruct st1. simpl in *.
    destruct (detect_loop _ _ _ _) as [st|e]; [|done].
    rewrite Hrun. by destruct s.
  - exists 1%nat. split; [simpl; lia|].
    erewrite run_thread_S; last first.
    { unfold thread_step, main_step. rewrite Hr, Hpc. unfold main_loop_step.
      by rewrite Hstop, Hbody. }
    done.
Qed.

(** The critical section of the capture loop, from the lock to the
    unlock. *)
Lemma run_critical_section s frame :
  s_status s = Running → s_main s = MLock frame → s_mutex s = None →
  ∃ n, (n ≤ length (detectMultiScale (s_faceCascade s) (cvtColor_gray frame)) + 5)%nat ∧
    match process_frame (s_faceCascade s) frame (s_shared s) with
    | Ok (frame', sh') =>
        run_thread TMain n s = set_shared sh' (set_main (MShow frame') s)
    | Throw e => s_status (run_thread TMain n s) = Terminated e
    end.
Proof.
  intros Hr Hpc Hm.
  set (gray := cvtColor_gray frame).
  set (faces := detectMultiScale (s_faceCascade s) gray).
  set (s3 := set_mutex (Some TMain) (set_shared (set_capturedFaces [] (s_shared s))
               (set_main (MLoop frame gray faces 0) s))).
  assert (run_thread TMain 3 s = s3) as H3.
  { destruct s; simpl in *; by subst. }
  destruct (run_main_loop faces s3 frame gray 0) as (n & Hn & Hrun); [done..|].
  unfold process_frame, detectFaces. fold gray faces. simpl in Hrun.
  destruct (detect_loop _ _ _ _) as [st|e]; simpl.
  - exists (3 + (n + 1))%nat. split; [lia|].
    rewrite run_thread_add, H3, run_thread_add, Hrun.
    destruct s; simpl in *; by subst.
  - exists (3 + n)%nat. split; [lia|]. by rewrite run_thread_add, H3.
Qed.

(** One turn of the command thread, from the test of the flag to the next
    test. *)
Definition after_turn (ins : istream) (command : string) (st : cstate)
    (s : sys) : sys :=
  set_cin ins (set_command command
    (set_input (if cs_stop st then IDone else ICheck)
       (set_stop (cs_stop st)
          (set_world (cs_world st) (set_shared (cs_shared st) s))))).

Lemma run_input_turn s ins command :
  s_status s = Running → s_input s = ICheck → s_stop s = false →
  s_mutex s = None → getline (s_cin s) (s_command s) = Some (ins, command) →
  ∃ n, (n ≤ 8)%nat ∧
    match command_iteration command (cstate_of s) with
    | Ok st => run_thread TInput n s = after_turn ins command st s
    | Throw e => s_status (run_thread TInput n s) = Terminated e
    end.
Proof.
  intros Hr Hpc Hstop Hm Hin. rewrite command_iteration_unfold.
  destruct s as [sh w ? ? ? ? ? ? ? ? ? ? ? ? ?]; simpl in *; subst.
  destruct (parse_command command) as [r|e] eqn:Hp; simpl; last first.
  { exists 4%nat. split; [lia|]. by thread_steps ltac:(rewrite ?Hin, ?Hp). }
  unfold run_request. destruct (needs_lock r) eqn:Hl; simpl.
  - destruct (run_locked r sh (prompt w)) as [[sh' w']|e] eqn:Hrun; simpl.
    + exists 8%nat. split; [lia|].
      by thread_steps ltac:(rewrite ?Hin, ?Hp, ?Hl, ?Hrun).
    + exists 6%nat. split; [lia|].
      by thread_steps ltac:(rewrite ?Hin, ?Hp, ?Hl, ?Hrun).
  - destruct r; try done; (exists 6%nat + exists 5%nat); (split; [lia|]);
      by thread_steps ltac:(rewrite ?Hin, ?Hp).
Qed.

(** One iteration of the capture loop, from [cap.read] to the test of the
    key. *)
Definition after_frame (frame : Mat) (sh : shared) (s : sys) : sys :=
  let esc := bool_decide (hd (-1) (s_keys s) = KEY_ESC) in
  set_main (if esc then MJoin else MRead)
    (set_stop (s_stop s || esc)
       (set_keys (tail (s_keys s))
          (set_display (s_display s ++ [frame])
             (set_camera (tail (s_camera s)) (set_shared sh s))))).

Lemma run_capture_iteration s frame frames :
  s_status s = Running → s_main s = MRead → s_mutex s = None →
  s_camera s = frame :: frames →
  ∃ n, (0 < n)%nat ∧
    match process_frame (s_faceCascade s) frame (s_shared s) with
    | Ok (frame', sh') => run_thread TMain n s = after_frame frame' sh' s
    | Throw e => s_status (run_thread TMain n s) = Terminated e
    end.
Proof.
  intros Hr Hpc Hm Hcam.
  set (s1 := set_camera frames (set_main (MLock frame) s)).
  assert (run_thread TMain 1 s = s1) as H1.
  { destruct s; simpl in *; by subst. }
  destruct (run_critical_section s1 frame) as (n & _ & Hrun); [done..|].
  change (s_faceCascade s1) with (s_faceCascade s) in Hrun.
  change (s_shared s1) with (s_shared s) in Hrun.
  destruct (process_frame _ _ _) as [[frame' sh']|e].
  - exists (1 + (n + 2))%nat. split; [lia|].
    rewrite run_thread_add, H1, run_thread_add, Hrun.
    unfold after_frame. subst s1. destruct s; simpl in *; subst.
    destruct (bool_decide (hd (-1) s_keys0 = KEY_ESC)) eqn:Hk;
      thread_steps ltac:(rewrite ?Hk); by rewrite ?orb_true_r, ?orb_false_r.
  - exists (1 + n)%nat. split; [lia|]. by rewrite run_thread_add, H1.
Qed.

(** The capture loop running alone computes [capture_loop]. *)
Lemma run_capture_loop s :
  s_status s = Running → s_main s = MRead → s_mutex s = None →
  ∃ n,
    match capture_loop (s_faceCascade s) (s_camera s) (s_keys s) (s_shared s)
            (s_display s) with
    | Ok (sh, display, camera, keys, esc) =>
        run_thread TMain n s
        = set_main MJoin (set_stop (s_stop s || esc) (set_keys keys
            (set_display display (set_camera camera (set_shared sh s)))))
    | Throw e => s_status (run_thread TMain n s) = Terminated e
    end.
Proof.
  remember (s_camera s) as camera eqn:Hcam. revert s Hcam.
  induction camera as [|frame camera IH]; intros s Hcam Hr Hpc Hm.
  { exists 1%nat. simpl. destruct s; simpl in *; subst.
    thread_steps ltac:(idtac). by rewrite orb_false_r. }
  destruct (run_capture_iteration s frame camera) as (n & _ & Hrun); [done..|].
  simpl. destruct (process_frame _ _ _) as [[frame' sh']|e]; simpl;
    [|by exists n].
  unfold after_frame in Hrun.
  destruct (bool_decide (hd (-1) (s_keys s) = KEY_ESC)) eqn:Hesc.
  { exists n. by rewrite Hrun, <-Hcam. }
  rewrite orb_false_r in Hrun.
  match type of Hrun with _ = ?s2' => set (s2 := s2') in * end.
  destruct (IH s2) as (m & Hm');
    [subst s2; simpl; by rewrite <-Hcam | done..|].
  exists (n + m)%nat. rewrite run_thread_add, Hrun.
  subst s2. simpl in Hm'. rewrite <-Hcam in Hm' |- *. simpl in Hm' |- *.
  destruct (capture_loop _ _ _ _ _) as [[[[[sh d] c] k] esc]|e]; [|done].
  rewrite Hm'. by destruct s.
Qed.

Lemma cstate_of_after_turn ins command st s :
  cstate_of (after_turn ins command st s) = st.
Proof. by destruct st. Qed.

Lemma run_command_loop_nil s :
  s_status s = Running → s_input s = ICheck →
  ∃ k,
    cstate_of (run_thread TInput k s) = cstate_of s ∧
    s_status (run_thread TInput k s) = Running ∧
    s_input (run_thread TInput k s) = (if s_stop s then IDone else ICheck).
Proof.
  intros Hr Hpc. destruct (s_stop s) eqn:Hstop.
  - exists 1%nat. destruct s; simpl in *; subst. by thread_steps ltac:(idtac).
  - by exists 0%nat.
Qed.

(** The command thread running alone computes [command_loop] on the
    strings that [getline] stores in [command]. *)
Lemma run_command_loop n s :
  s_status s = Running → s_input s = ICheck → s_mutex s = None →
  ∃ k,
    match command_loop (getlines n (s_cin s) (s_command s)) (cstate_of s) with
    | Ok st =>
        cstate_of (run_thread TInput k s) = st ∧
        s_status (run_thread TInput k s) = Running ∧
        s_input (run_thread TInput k s) = (if cs_stop st then IDone else ICheck)
    | Throw e => s_status (run_thread TInput k s) = Terminated e
    end.
Proof.
  revert s. induction n as [|n IH]; intros s Hr Hpc Hm.
  { by apply run_command_loop_nil. }
  simpl. destruct (getline _ _) as [[ins command]|] eqn:Hin;
    [|by apply run_command_loop_nil].
  simpl. destruct (s_stop s) eqn:Hstop.
  { exists 1%nat. destruct s; simpl in *; subst.
    by thread_steps ltac:(idtac). }
  destruct (run_input_turn s ins command) as (k & _ & Hrun); [done..|].
  destruct (command_iteration _ _) as [st1|e]; simpl; [|by exists k].
  destruct (cs_stop st1) eqn:Hstop1.
  { exists k. rewrite command_loop_stopped by done.
    by rewrite Hrun, cstate_of_after_turn, Hstop1; unfold after_turn; rewrite Hstop1. }
  set (s1 := after_turn ins command st1 s) in *.
  destruct (IH s1) as (m & Hrun');
    [done | by unfold s1, after_turn; simpl; rewrite Hstop1 | done|].
  exists (k + m)%nat. rewrite run_thread_add, Hrun.
  change (s_cin s1) with ins in Hrun'. change (s_command s1) with command in Hrun'.
  replace (cstate_of s1) with st1 in Hrun'; [done|].
  by rewrite <-(cstate_of_after_turn ins command st1 s).
Qed.

(** Without a key press the capture loop ends only when the camera
    does. *)
Lemma capture_loop_no_key faceCascade camera sh display r :
  capture_loop faceCascade camera [] sh display = Ok r →
  ∃ sh' display', r = (sh', display', [], [], false) ∧
    length display' = (length display + length camera)%nat.
Proof.
  revert sh display. induction camera as [|frame camera IH]; intros sh display.
  { intros [= <-]. eexists _, _. split; [done|]. simpl. lia. }
  simpl. destruct (process_frame _ _ _) as [[frame' sh']|]; [|done]. simpl.
  intros (sh2 & d2 & -> & Hlen)%IH. eexists _, _. split; [done|].
  rewrite Hlen, length_app. simpl. lia.
Qed.

(** ** Progress *)

Lemma main_step_enabled s :
  s_main s ≠ MDone → s_main s ≠ MJoin →
  (∀ frame, s_main s = MLock frame → s_mutex s = None) →
  is_Some (main_step s).
Proof.
  intros Hd Hj Hl. unfold main_step.
  destruct (s_main s) eqn:Hpc; try done; repeat case_match; eauto.
  by specialize (Hl _ eq_refl).
Qed.

Lemma input_step_enabled s :
  s_input s ≠ INotStarted → s_input s ≠ IDone →
  (s_input s = IGetline → s_cin s ≠ IStream [] StreamOpen) →
  (∀ r, s_input s = ILock r → s_mutex s = None) →
  is_Some (input_step s).
Proof.
  intros Hn Hd Hg Hl. unfold input_step.
  destruct (s_input s) eqn:Hpc; try done; repeat case_match; eauto.
  - specialize (Hg eq_refl). by rewrite <-(getline_None _ (s_command s)) in Hg.
  - by specialize (Hl _ eq_refl).
Qed.

End system_runs.

(** ** Properties of the system *)

Section system_properties.
Context {V : VisionLib} {HO : Host}.
Implicit Types (s : sys) (e : environment) (t : tid).

(** C2.  Mutual exclusion: in every state of every run at most one thread
    is inside a critical section, and [dataMutex] is owned by exactly that
    thread. *)
Theorem mutual_exclusion e s :
  reachable e s →
  match s_mutex s with
  | None => main_holds (s_main s) = false ∧ input_holds (s_input s) = false
  | Some TMain => main_holds (s_main s) = true ∧ input_holds (s_input s) = false
  | Some TInput => main_holds (s_main s) = false ∧ input_holds (s_input s) = true
  end.
Proof.
  intros (Hm & Hx & _)%reachable_mutex_inv. rewrite Hm.
  by destruct (main_holds _), (input_holds _).
Qed.

(** C18.  In every state of every run, the half-filled states of the
    critical section included, [maxFaces] is a value of type [int] and every
    buffered face is 200 x 200. *)
Theorem reachable_shared_wf e s : reachable e s → shared_wf (s_shared s).
Proof. by intros [? _]%reachable_wf_inv. Qed.

(** C17.  Every step keeps the state typed: after any statement of either
    thread [maxFaces], [faceCount] and the argument of a pending [setmax]
    are values of type [int] and every buffered face is 200 x 200. *)
Theorem thread_step_typed s t s' :
  sys_typed s → thread_step t s = Some s' → sys_typed s'.
Proof.
  intros (Hsh & Hi & Hm) Hs.
  destruct (wf_inv_step s t s' (conj Hsh Hi) Hs) as [Hsh' Hi'].
  split_and!; eauto using main_pc_wf_step.
Qed.

(** Inside the critical section of the capture loop [faceCount]
    equals the length of the vector, so it never overflows, and when the
    capture loop releases the mutex the vector holds at most [maxFaces]
    faces. *)
Theorem critical_section_bound e s :
  reachable e s →
  let n := Z.of_nat (length (capturedFaces (s_shared s))) in
  match s_main s with
  | MLoop _ _ _ faceCount => faceCount = n ∧ n ≤ Z.max 0 (maxFaces (s_shared s))
  | MUnlock _ => n ≤ Z.max 0 (maxFaces (s_shared s))
  | _ => True
  end.
Proof.
  intros Hc%reachable_count_inv. unfold count_inv in Hc.
  by destruct (s_main s).
Qed.

Lemma not_started_display e s :
  reachable e s → s_input s = INotStarted → s_display s = [].
Proof.
  revert s. apply (reachable_inv (λ s, _ → _)); [done|].
  intros s t s' Hr IH Hs.
  destruct (reachable_exit_inv _ _ Hr) as (_ & _ & _ & _ & _ & Hn & _).
  clear Hr. revert s t s' Hs IH Hn.
  apply (thread_step_cases (λ s s', (_ → _) → (_ → _) → _ → _));
    intros s s' _ Hs IH Hn Hi; destruct s; simpl in *.
  - main_step_inv Hs; auto. by destruct (Hn eq_refl).
  - input_step_inv Hs; auto.
Qed.

(** C20.  The exit status is decided by the start-up checks: [main]
    returns -1 when the classifier does not load or the camera does not
    open, before the command thread exists, and 0 otherwise, after the
    command thread has ended with the stop flag set. *)
Theorem exit_code e s code :
  reachable e s → s_status s = Exited code →
  if e_loaded e && e_opened e
  then code = 0 ∧ s_input s = IDone ∧ s_stop s = true
  else code = -1 ∧ s_input s = INotStarted ∧ s_display s = [] .
Proof.
  intros Hr Hst.
  destruct (reachable_exit_inv _ _ Hr) as (Hl & Ho & _ & Hd & _ & _ & Hx).
  rewrite Hst, Hl, Ho in Hx. destruct Hx as [_ Hx].
  destruct (e_loaded e && e_opened e); [naive_solver|].
  destruct Hx as [-> Hn]. eauto using not_started_display.
Qed.

(** Some thread can step, or [main] waits for a command thread that waits
    for a line. *)
Lemma step_or_wait e s :
  reachable e s → s_status s = Running →
  (∃ t s', thread_step t s = Some s')
  ∨ (s_main s = MJoin ∧ s_input s = IGetline ∧ s_cin s = IStream [] StreamOpen).
Proof.
  intros Hr Hst.
  destruct (reachable_mutex_inv _ _ Hr) as (Hm & Hx & Hb).
  destruct (reachable_exit_inv _ _ Hr) as (_ & _ & _ & _ & _ & Hn & Hd).
  rewrite Hst in Hd. unfold thread_step. rewrite Hst.
  destruct (decide (input_holds (s_input s) = true)) as [Hi|Hi].
  { left. exists TInput. apply input_step_enabled;
      destruct (s_input s); done. }
  apply not_true_is_false in Hi. rewrite Hi in Hm.
  destruct (decide (s_main s = MJoin)) as [Hj|Hj]; last first.
  { left. exists TMain. apply main_step_enabled; [done..|].
    intros frame Hpc. by rewrite Hm, Hpc. }
  rewrite Hj in *. simpl in *.
  destruct (decide (s_input s = IDone)) as [Hdone|Hdone].
  { left. exists TMain. unfold main_step. rewrite Hj, Hdone. eauto. }
  destruct (decide (s_input s = IGetline ∧ s_cin s = IStream [] StreamOpen))
    as [[??]|Hg];
    [by right|].
  left. exists TInput. apply input_step_enabled; try done.
  - intros Hns. by destruct (Hn Hns).
  - intros ??. apply Hg. done.
Qed.

(** C19.  No deadlock on the mutex: in every state of a run that has not
    ended some thread can take a step, unless [main] waits in [join] for a
    command thread that waits for a line of input. *)
Theorem progress e s :
  reachable e s → s_status s = Running →
  (∃ t s', thread_step t s = Some s')
  ∨ (s_main s = MJoin ∧ s_input s = IGetline ∧ s_cin s = IStream [] StreamOpen).
Proof. apply step_or_wait. Qed.

(** C5.  Refinement of the capture loop: the main thread running alone
    from [cap.read] computes the function [capture_loop]; it ends in [join]
    with the frames shown and the buffer of the last frame, or the process
    is terminated by the exception [capture_loop] throws. *)
Theorem capture_loop_refines s :
  s_status s = Running → s_main s = MRead → s_mutex s = None →
  ∃ n,
    match capture_loop (s_faceCascade s) (s_camera s) (s_keys s) (s_shared s)
            (s_display s) with
    | Ok (sh, display, camera, keys, esc) =>
        run_thread TMain n s
        = set_main MJoin (set_stop (s_stop s || esc) (set_keys keys
            (set_display display (set_camera camera (set_shared sh s)))))
    | Throw e => s_status (run_thread TMain n s) = Terminated e
    end.
Proof. apply run_capture_loop. Qed.

(** C7.  Refinement of the command loop: the command thread running alone
    computes [command_loop] on the strings that [getline] stores in
    [command], which are the lines of standard input and, when the stream
    has ended, the last of them again; it ends when the flag is set, or the
    process is terminated by the exception [command_loop] throws. *)
Theorem command_loop_refines n s :
  s_status s = Running → s_input s = ICheck → s_mutex s = None →
  ∃ k,
    match command_loop (getlines n (s_cin s) (s_command s)) (cstate_of s) with
    | Ok st =>
        cstate_of (run_thread TInput k s) = st ∧
        s_status (run_thread TInput k s) = Running ∧
        s_input (run_thread TInput k s) = (if cs_stop st then IDone else ICheck)
    | Throw e => s_status (run_thread TInput k s) = Terminated e
    end.
Proof. apply run_command_loop. Qed.

(** C33.  The capture loop does not read the stop flag: after the command
    [exit] has ended the command thread, the main thread still reads,
    processes and shows every frame the camera delivers, and reaches [join]
    only when the camera ends. *)
Theorem capture_loop_ignores_stop s r :
  s_status s = Running → s_main s = MRead → s_mutex s = None →
  s_input s = IDone → s_stop s = true → s_keys s = [] →
  capture_loop (s_faceCascade s) (s_camera s) [] (s_shared s) (s_display s)
  = Ok r →
  ∃ n, let s' := run_thread TMain n s in
    s_main s' = MJoin ∧ s_camera s' = [] ∧
    length (s_display s') = (length (s_display s) + length (s_camera s))%nat.
Proof.
  intros Hr Hpc Hm _ _ Hk Hloop.
  destruct (run_capture_loop s) as (n & Hrun); [done..|].
  rewrite Hk, Hloop in Hrun.
  apply capture_loop_no_key in Hloop as (sh & display & -> & Hlen).
  exists n. simpl. by rewrite Hrun.
Qed.

(** C34.  The end of the camera stream does not signal the command thread:
    when the camera delivers no frame and no line is typed, the run reaches
    a state in which the flag is clear, [main] waits in [join], the command
    thread waits for a line and no thread can step. *)
Theorem camera_end_blocks e :
  e_loaded e = true → e_opened e = true → e_frames e = [] → e_lines e = [] →
  e_end e = StreamOpen →
  let s := run [TMain; TMain; TMain; TMain; TInput; TInput] (init e) in
  reachable e s ∧ s_status s = Running ∧ s_stop s = false ∧
  s_main s = MJoin ∧ s_input s = IGetline ∧ ∀ t, thread_step t s = None.
Proof.
  intros Hl Ho Hf Hi He s. split; [apply reachable_run, reachable_init|].
  assert (s = Sys shared_init (prompt (World (e_dir e) 0 0 [] [])) false None
                MJoin IGetline Running [] (e_faceCascade e) true true []
                (e_keys e) (IStream [] StreamOpen) "") as ->.
  { unfold s, init. by rewrite Hl, Ho, Hf, Hi, He. }
  split_and!; try done. by intros [].
Qed.

(** C29.  The buffer does not accumulate across frames: after any number
    of frames processed in sequence the buffer is the result of the last
    frame alone, processed from an empty buffer. *)
Theorem capture_loop_last_frame faceCascade frames frame sh display
    sh' display' camera keys esc :
  capture_loop faceCascade (frames ++ [frame]) [] sh display
  = Ok (sh', display', camera, keys, esc) →
  ∃ frame',
    process_frame faceCascade frame (Shared [] (maxFaces sh)) = Ok (frame', sh') ∧
    last display' = Some frame'.
Proof.
  revert sh display. induction frames as [|f frames IH]; intros sh display; simpl.
  - destruct (process_frame _ _ _) as [[frame' sh1]|] eqn:Hp; [|done]. simpl.
    intros [= <- <- <- <- <-]. exists frame'. by rewrite last_snoc.
  - destruct (process_frame _ _ _) as [[frame' sh1]|] eqn:Hp; [|done]. simpl.
    apply process_frame_shape in Hp as [_ Hm]. rewrite <-Hm. apply IH.
Qed.
End system_properties.

(** ** The properties at concrete runs *)

Section system_witnesses.
Import StubVision StubHost.

(** One frame with two faces, and the command [show]. *)
Definition env_demo : environment (V:=stub) :=
  Env (V:=stub) two_faces true true [frame0] [] ["show"] None StreamOpen.
(** The classifier file is missing. *)
Definition env_fail : environment (V:=stub) :=
  Env (V:=stub) two_faces false true [frame0] [] [] None StreamOpen.
(** Two frames, and the command [exit]. *)
Definition env_exit : environment (V:=stub) :=
  Env (V:=stub) two_faces true true [frame0; frame0] [] ["exit"] None StreamOpen.
(** No frame and no line. *)
Definition env_idle : environment (V:=stub) :=
  Env (V:=stub) two_faces true true [] [] [] None StreamOpen.

#[local] Abbreviation start := (init (V:=stub)).
#[local] Abbreviation sched := (run (V:=stub) (HO:=stub_host)).

(** [main] up to [cap.read]. *)
Definition to_read : list tid := [TMain; TMain; TMain].

Lemma mutual_exclusion_witness :
  main_holds (s_main (sched (to_read ++ [TMain; TMain; TInput]) (start env_demo)))
  = true ∧
  input_holds (s_input (sched (to_read ++ [TMain; TMain; TInput]) (start env_demo)))
  = false.
Proof.
  apply (mutual_exclusion (HO:=stub_host) env_demo
           (sched (to_read ++ [TMain; TMain; TInput]) (start env_demo))).
  apply reachable_run, reachable_init.
Defined.

Lemma reachable_shared_wf_witness :
  shared_wf (s_shared (sched (to_read ++ replicate 5 TMain) (start env_demo))).
Proof.
  apply (reachable_shared_wf (HO:=stub_host) env_demo).
  apply reachable_run, reachable_init.
Defined.

Lemma thread_step_typed_witness : sys_typed (sched [TMain] (start env_demo)).
Proof.
  apply (thread_step_typed (HO:=stub_host) (start env_demo) TMain);
    [apply init_typed | done].
Defined.

Lemma critical_section_bound_witness :
  0 = Z.of_nat (length (capturedFaces (s_shared
        (sched (to_read ++ replicate 4 TMain) (start env_demo)))))
  ∧ 0 ≤ Z.max 0 1.
Proof.
  apply (critical_section_bound (HO:=stub_host) env_demo
           (sched (to_read ++ replicate 4 TMain) (start env_demo))).
  apply reachable_run, reachable_init.
Defined.

Lemma exit_code_witness :
  -1 = -1 ∧
  s_input (sched [TMain] (start env_fail)) = INotStarted ∧
  s_display (sched [TMain] (start env_fail)) = [].
Proof.
  apply (exit_code (HO:=stub_host) env_fail (sched [TMain] (start env_fail)) (-1));
    [apply reachable_run, reachable_init | done].
Defined.

Lemma progress_witness :
  (∃ t s', thread_step (HO:=stub_host) t (sched to_read (start env_demo)) = Some s')
  ∨ (s_main (sched to_read (start env_demo)) = MJoin ∧
     s_input (sched to_read (start env_demo)) = IGetline ∧
     s_cin (sched to_read (start env_demo)) = IStream [] StreamOpen).
Proof.
  apply (progress (HO:=stub_host) env_demo);
    [apply reachable_run, reachable_init | done].
Defined.

Lemma capture_loop_refines_witness :
  ∃ n, run_thread (HO:=stub_host) TMain n (sched to_read (start env_demo))
       = set_main MJoin (set_display [SMat 480 640 [OpRect face_a]]
           (set_camera []
              (set_shared (Shared [SMat 200 200 [OpResize; OpRoi face_a; OpGray]] 1)
                 (sched to_read (start env_demo))))).
Proof.
  by apply (capture_loop_refines (HO:=stub_host) (sched to_read (start env_demo))).
Defined.

Lemma command_loop_refines_witness :
  ∃ n,
    cstate_of (run_thread (HO:=stub_host) TInput n (sched to_read (start env_demo)))
    = CState shared_init (prompt (World None 0 0 [] [])) false ∧
    s_status (run_thread (HO:=stub_host) TInput n (sched to_read (start env_demo)))
    = Running ∧
    s_input (run_thread (HO:=stub_host) TInput n (sched to_read (start env_demo)))
    = ICheck.
Proof.
  by apply (command_loop_refines (HO:=stub_host) 1 (sched to_read (start env_demo))).
Defined.

(** The command thread has executed [exit]; the main thread is at
    [cap.read] with two frames to come. *)
Definition after_exit : sys (V:=stub) :=
  sched (to_read ++ replicate 5 TInput) (start env_exit).

Lemma capture_loop_ignores_stop_witness :
  ∃ n, let s' := run_thread (HO:=stub_host) TMain n after_exit in
    s_main s' = MJoin ∧ s_camera s' = [] ∧ length (s_display s') = 2%nat.
Proof.
  by eapply (capture_loop_ignores_stop (HO:=stub_host) after_exit).
Defined.

Lemma camera_end_blocks_witness :
  let s := sched [TMain; TMain; TMain; TMain; TInput; TInput] (start env_idle) in
  reachable (HO:=stub_host) env_idle s ∧ s_status s = Running ∧ s_stop s = false ∧
  s_main s = MJoin ∧ s_input s = IGetline ∧
  ∀ t, thread_step (HO:=stub_host) t s = None.
Proof. by apply (camera_end_blocks (HO:=stub_host) env_idle). Defined.

Lemma capture_loop_last_frame_witness :
  ∃ frame',
    process_frame (V:=stub) two_faces frame0 (Shared [] 1)
    = Ok (frame', Shared [SMat 200 200 [OpResize; OpRoi face_a; OpGray]] 1) ∧
    last [SMat 480 640 [OpRect face_a]; SMat 480 640 [OpRect face_a]]
    = Some frame'.
Proof.
  by apply (capture_loop_last_frame (V:=stub) two_faces [frame0] frame0
              (Shared (V:=stub) [SMat 200 200 []] 1) [] _ _ [] [] false).
Defined.
End system_witnesses.
