(* ===== verification/Atomic.v ===== *)
(** * Atomic: the critical sections are atomic

    The specification of the locking discipline is the system in which a
    critical section is one step: the capture loop replaces the buffer by
    the result of [process_frame] at once, and a handler of the command
    thread runs at once.  [atomic_main_step] and [atomic_input_step] are
    [main_step] and [input_step] with these two changes; the mutex is never
    taken.

    [simulates] relates a state of the interleaved system of [System] to a
    state of the atomic system: outside the critical sections the two are
    equal; inside the critical section of the capture loop the atomic
    system still waits at the lock, and what remains of the section
    computes the result [process_frame] gives it.  Every step of the
    interleaved system is matched by at most one step of the atomic system
    ([simulation_step]), so every state the program reaches with the mutex
    free is a state of the atomic system, and a handler never reads a
    buffer that the atomic system could not hold. *)

From stdpp Require Import relations.
From S2P Require Import Prelude CppString IStream Vision Shared Detect.
From S2P Require Import FileSystem Handlers CommandLoop System.

#[local] Open Scope Z_scope.

(** ** Definitions *)

Section atomic.
Context {V : VisionLib} {HO : Host}.
Implicit Types (s a : sys) (e : environment) (t : tid).

(** The main thread with the critical section of lines 175-179 as one
    step. *)
Definition atomic_main_step (a : sys) : option sys :=
  match s_main a with
  | MLock frame =>
      Some match process_frame (s_faceCascade a) frame (s_shared a) with
           | Ok (frame', sh') => set_shared sh' (set_main (MShow frame') a)
           | Throw e => set_status (Terminated e) a
           end
  | MClear _ | MDetect _ | MLoop _ _ _ _ | MUnlock _ => None
  | _ => main_step a
  end.

(** The command thread with each [lock_guard] block as one step. *)
Definition atomic_input_step (a : sys) : option sys :=
  match s_input a with
  | ILock r =>
      Some match run_locked r (s_shared a) (s_world a) with
           | Ok (sh, w) => set_shared sh (set_world w (set_input IAfter a))
           | Throw e => set_status (Terminated e) a
           end
  | IRun _ | IUnlock => None
  | _ => input_step a
  end.

Definition atomic_thread_step (t : tid) (a : sys) : option sys :=
  match s_status a with
  | Running =>
      match t with
      | TMain => atomic_main_step a
      | TInput => atomic_input_step a
      end
  | _ => None
  end.

Definition atomic_step (a a' : sys) : Prop :=
  ∃ t, atomic_thread_step t a = Some a'.

Definition atomic_reachable (e : environment) (a : sys) : Prop :=
  rtc atomic_step (init e) a.

(** What the rest of the critical section of the capture loop computes,
    from the statement [pc] and the shared data [sh]. *)
Definition finish (faceCascade : CascadeClassifier) (pc : main_pc) (sh : shared)
    : outcome (Mat * shared) :=
  match pc with
  | MClear frame => process_frame faceCascade frame sh
  | MDetect frame =>
      '(frame, faces) ← detectFaces (maxFaces sh) faceCascade frame
                          (capturedFaces sh);
      Ok (frame, set_capturedFaces faces sh)
  | MLoop frame gray faces faceCount =>
      st ← detect_loop (maxFaces sh) gray faces
             (DetectState frame (capturedFaces sh) faceCount);
      Ok (ds_frame st, set_capturedFaces (ds_captured st) sh)
  | MUnlock frame => Ok (frame, sh)
  | _ => Throw CvException
  end.

(** The statement of the atomic command thread that stands for a
    statement of the command thread: inside a critical section the atomic
    thread is before it or past it. *)
Definition lower_input (pc : input_pc) : input_pc :=
  match pc with
  | IRun r => ILock r
  | IUnlock => IAfter
  | _ => pc
  end.

Definition lower (s : sys) : sys :=
  set_mutex None (set_input (lower_input (s_input s)) s).

(** The state [a] of the atomic system that stands for the state [s] of
    the interleaved system. *)
Definition simulates (s a : sys) : Prop :=
  if main_holds (s_main s) then
    ∃ frame sh,
      a = lower (set_shared sh (set_main (MLock frame) s)) ∧
      finish (s_faceCascade s) (s_main s) (s_shared s)
      = process_frame (s_faceCascade s) frame sh
  else a = lower s.
End atomic.

(** ** The rest of the critical section *)

#[global] Arguments finish : simpl never.
#[global] Arguments process_frame : simpl never.

Section finish_lemmas.
Context {V : VisionLib} {HO : Host}.
Implicit Types (sh : shared) (frame gray : Mat) (faces : list Rect).

Lemma finish_clear faceCascade frame sh :
  finish faceCascade (MDetect frame) (set_capturedFaces [] sh)
  = finish faceCascade (MClear frame) sh.
Proof. done. Qed.

Lemma finish_detect faceCascade frame sh :
  let gray := cvtColor_gray frame in
  finish faceCascade (MLoop frame gray (detectMultiScale faceCascade gray) 0) sh
  = finish faceCascade (MDetect frame) sh.
Proof.
  unfold finish, detectFaces. simpl. by destruct (detect_loop _ _ _ _).
Qed.

Lemma finish_loop_nil faceCascade frame gray faceCount sh :
  finish faceCascade (MUnlock frame) sh
  = finish faceCascade (MLoop frame gray [] faceCount) sh.
Proof. by destruct sh. Qed.

Lemma finish_loop_stop faceCascade frame gray face faces faceCount sh :
  bool_decide (faceCount >= maxFaces sh) = true →
  finish faceCascade (MUnlock frame) sh
  = finish faceCascade (MLoop frame gray (face :: faces) faceCount) sh.
Proof. intros Hstop. unfold finish. simpl. rewrite Hstop. by destruct sh. Qed.

Lemma finish_loop_body faceCascade frame gray face faces faceCount sh st :
  bool_decide (faceCount >= maxFaces sh) = false →
  detect_body gray face (DetectState frame (capturedFaces sh) faceCount) = Ok st →
  finish faceCascade (MLoop (ds_frame st) gray faces (ds_count st))
    (set_capturedFaces (ds_captured st) sh)
  = finish faceCascade (MLoop frame gray (face :: faces) faceCount) sh.
Proof.
  intros Hstop Hbody. unfold finish. simpl. rewrite Hstop, Hbody. by destruct st.
Qed.

Lemma finish_loop_throw faceCascade frame gray face faces faceCount sh e :
  bool_decide (faceCount >= maxFaces sh) = false →
  detect_body gray face (DetectState frame (capturedFaces sh) faceCount) = Throw e →
  finish faceCascade (MLoop frame gray (face :: faces) faceCount) sh = Throw e.
Proof. intros Hstop Hbody. unfold finish. simpl. by rewrite Hstop, Hbody. Qed.
End finish_lemmas.

(** ** The simulation *)

Section simulation.
Context {V : VisionLib} {HO : Host}.
Implicit Types (s a : sys) (e : environment) (t : tid).

(** The atomic system takes the step the interleaved system took. *)
Ltac same_step :=
  eexists; split;
    [right; unfold main_step, input_step; simpl;
     repeat match goal with
     | H : bool_decide _ = _ |- _ => rewrite H
     | H : parse_command _ = _ |- _ => rewrite H
     | H : getline _ _ = _ |- _ => rewrite H
     | H : run_locked _ _ _ = _ |- _ => rewrite H
     | H : needs_lock _ = _ |- _ => rewrite H
     end; reflexivity
    |first [reflexivity | by eexists _, _]].

(** A step of the atomic system, or none. *)
Definition matched (t : tid) (a a' : sys) : Prop :=
  a' = a ∨ atomic_thread_step t a = Some a'.

Lemma simulation_main s a s' :
  mutex_inv s → s_status s = Running → simulates s a →
  main_step s = Some s' →
  ∃ a', matched TMain a a' ∧ simulates s' a'.
Proof.
  unfold simulates, mutex_inv, matched, atomic_thread_step, atomic_main_step.
  intros (Hm & Hx & Hb) Hr Hsim Hs.
  destruct s as [sh w stop mx pc ipc ? ? casc ? ? ? ? ? ?]; simpl in *.
  destruct pc; simpl in *; try destruct Hsim as (frame0 & sh0 & -> & Hfin);
    subst; main_step_inv Hs; try by same_step.
  all: try (eexists; split; [left; reflexivity|]; eexists _, _;
            split; [reflexivity|]; rewrite <-?Hfin;
            eauto using finish_clear, finish_detect, finish_loop_nil,
              finish_loop_stop, finish_loop_body; fail).
  - eexists. split.
    + right. rewrite <-Hfin. erewrite finish_loop_throw by done. reflexivity.
    + by eexists _, _.
  - eexists. split; [right; by rewrite <-Hfin|done].
Qed.
Lemma simulation_input s a s' :
  mutex_inv s → s_status s = Running → simulates s a →
  input_step s = Some s' →
  ∃ a', matched TInput a a' ∧ simulates s' a'.
Proof.
  unfold simulates, mutex_inv, matched, atomic_thread_step, atomic_input_step.
  intros (Hm & Hx & Hb) Hr Hsim Hs.
  destruct s as [sh w stop mx pc ipc ? ? casc ? ? ? ? ? ?]; simpl in *.
  destruct (main_holds pc) eqn:Hpc; simpl in *;
    try destruct Hsim as (frame0 & sh0 & -> & Hfin); subst;
    destruct ipc; simpl in *; input_step_inv Hs; rewrite ?Hpc;
    try by same_step.
  all: by eexists; split; [left; reflexivity|].
Qed.

(** Every step of the interleaved system is a step of the atomic system
    or leaves its state where it is. *)
Lemma simulation_step s a t s' :
  mutex_inv s → simulates s a → thread_step t s = Some s' →
  ∃ a', matched t a a' ∧ simulates s' a'.
Proof.
  intros Hm Hsim. unfold thread_step.
  destruct (s_status s) eqn:Hr; [|done..].
  destruct t; eauto using simulation_main, simulation_input.
Qed.

Lemma matched_reachable e t a a' :
  atomic_reachable e a → matched t a a' → atomic_reachable e a'.
Proof.
  intros Ha [->|Hs]; [done|]. eapply rtc_r; [done|]. by exists t.
Qed.

Lemma simulates_init e : simulates (init e) (init e).
Proof. done. Qed.

(** Every state of the interleaved system stands for a state of the
    atomic system. *)
Lemma reachable_simulates e s :
  reachable e s → ∃ a, atomic_reachable e a ∧ simulates s a.
Proof.
  apply (reachable_inv (λ s, ∃ a, atomic_reachable e a ∧ simulates s a)).
  { exists (init e). split; [apply rtc_refl | apply simulates_init]. }
  intros s1 t s2 Hr (a & Ha & Hsim) Hs.
  destruct (simulation_step s1 a t s2) as (a' & Hm & Hsim');
    eauto using reachable_mutex_inv, matched_reachable.
Qed.
Lemma lower_free s : mutex_inv s → s_mutex s = None → lower s = s.
Proof.
  intros (Hm & _ & _) Hnone. rewrite Hnone in Hm.
  destruct s as [? ? ? ? pc ipc ? ? ? ? ? ? ? ? ?]; simpl in *; subst.
  destruct (main_holds pc); [done|]. by destruct ipc.
Qed.

(** ** Properties *)

(** C3.  Refinement of the locking discipline: every state the program
    reaches with the mutex free is a state of the system in which the
    critical sections are single steps. *)
Theorem quiescent_atomic e s :
  reachable e s → s_mutex s = None → atomic_reachable e s.
Proof.
  intros Hr Hnone. destruct (reachable_simulates e s Hr) as (a & Ha & Hsim).
  pose proof (reachable_mutex_inv e s Hr) as Hinv.
  unfold simulates in Hsim. destruct Hinv as (Hm & Hx).
  rewrite Hnone in Hm. destruct (main_holds (s_main s)); [done|].
  subst a. rewrite lower_free in Ha; [done| |done].
  apply (reachable_mutex_inv e s Hr).
Qed.
End simulation.

(** ** The property at a concrete run *)

Section atomic_witnesses.
Import StubVision StubHost.

#[local] Abbreviation start := (init (V:=stub)).
#[local] Abbreviation sched := (run (V:=stub) (HO:=stub_host)).

(** The first frame has been processed and the mutex released. *)
Definition frame_done : list tid := to_read ++ replicate 7 TMain.

Lemma quiescent_atomic_witness :
  atomic_reachable (HO:=stub_host) env_demo (sched frame_done (start env_demo)).
Proof.
  apply (quiescent_atomic (HO:=stub_host) env_demo);
    [apply reachable_run, reachable_init | done].
Defined.
End atomic_witnesses.
