(* ===== verification/Snapshot.v ===== *)
(** * Snapshot: what a handler can read

    A handler of the command thread runs with the mutex held.  The buffer
    it reads is a _snapshot_: empty, or the complete result of
    [process_frame] on one frame the camera delivered, under a limit
    [maxFaces] that was in force at some time.  The limits that were in
    force are read off the output: [setMaxFaces] prints every value it
    stores.

    The property is an invariant of the atomic system of [Atomic]; the
    simulation carries it to every state of the interleaved system in which
    a handler runs, and to every state in which the mutex is free. *)

From stdpp Require Import relations.
From S2P Require Import Prelude CppString IStream Vision Shared Detect.
From S2P Require Import FileSystem Handlers CommandLoop System Atomic.

#[local] Open Scope Z_scope.

(** ** Definitions *)

Section snapshot.
Context {V : VisionLib} {HO : Host}.

(** The limits the operator has set so far, with the initial one: the
    values of [maxFaces] the output reports. *)
Definition limit_of (m : message) : option Z :=
  match m with MsgMaxFaces n => Some n | _ => None end.

Definition limits (out : list message) : list Z := 1 :: omap limit_of out.

(** A buffer that is empty or holds the complete result of one frame of
    the camera under a limit that was set, next to a limit that was set. *)
Definition snapshot (e : environment) (w : world) (sh : shared) : Prop :=
  maxFaces sh ∈ limits (w_out w) ∧
  (capturedFaces sh = [] ∨
   ∃ frame m frame',
     frame ∈ e_frames e ∧ m ∈ limits (w_out w) ∧
     process_frame (e_faceCascade e) frame (Shared [] m)
     = Ok (frame', Shared (capturedFaces sh) m)).
End snapshot.

(** ** Lemmas *)

Section snapshot_lemmas.
Context {V : VisionLib} {HO : Host}.
Implicit Types (s a : sys) (e : environment) (t : tid) (w : world) (sh : shared).

Lemma limits_app out msgs n : n ∈ limits out → n ∈ limits (out ++ msgs).
Proof.
  unfold limits. rewrite omap_app, !elem_of_cons, elem_of_app. tauto.
Qed.

Lemma limits_snoc out n : n ∈ limits (out ++ [MsgMaxFaces n]).
Proof.
  unfold limits. rewrite omap_app, elem_of_cons, elem_of_app. simpl.
  right. right. by apply list_elem_of_singleton.
Qed.

(** More output keeps a snapshot. *)
Lemma snapshot_out e w w' sh msgs :
  w_out w' = w_out w ++ msgs → snapshot e w sh → snapshot e w' sh.
Proof.
  intros Hout [Hmax Hbuf]. split; rewrite Hout; [by apply limits_app|].
  destruct Hbuf as [?|(frame & m & frame' & ? & ? & ?)]; [by left|right].
  exists frame, m, frame'. eauto using limits_app.
Qed.

Lemma snapshot_print e w sh m : snapshot e w sh → snapshot e (print m w) sh.
Proof. by apply snapshot_out with [m]. Qed.

Lemma snapshot_frame e w sh frame frame' sh' :
  frame ∈ e_frames e → snapshot e w sh →
  process_frame (e_faceCascade e) frame sh = Ok (frame', sh') →
  snapshot e w sh'.
Proof.
  intros Hin [Hmax _] (Hp & Hm)%process_frame_shape.
  split; [by rewrite Hm|]. right. by exists frame, (maxFaces sh), frame'.
Qed.

Lemma renameFile_out newName directory w w' :
  renameFile newName directory w = Ok w' → ∃ m, w_out w' = w_out w ++ [m].
Proof.
  unfold renameFile. destruct (w_dir w); [|done].
  destruct (most_recent _); [|intros [= <-]; by eexists].
  destruct (fs_rename _ _ _); simpl; [|done]. intros [= <-]. by eexists.
Qed.

Lemma run_locked_snapshot e r sh w sh' w' :
  snapshot e w sh → run_locked r sh w = Ok (sh', w') → snapshot e w' sh'.
Proof.
  intros Hsnap. destruct r; unfold run_locked.
  - intros [= <- <-]. apply snapshot_print.
    apply (snapshot_out e w _ sh []); [|done].
    by rewrite save_loop_out, app_nil_r.
  - unfold clearCapturedFaces. destruct (w_dir w); simpl; [|done].
    intros [= <- <-]. apply snapshot_print. destruct Hsnap as [Hmax _].
    split; [done|by left].
  - intros [= <- <-]. apply (snapshot_out e w _ sh []); [|done].
    simpl. by rewrite app_nil_r.
  - intros [= <- <-]. destruct Hsnap as [Hmax Hbuf]. split.
    + apply limits_snoc.
    + destruct Hbuf as [?|(frame & m & frame' & ? & ? & ?)]; [by left|right].
      exists frame, m, frame'. split_and!; [done| |done]. by apply limits_app.
  - by intros [= <- <-].
  - by intros [= <- <-].
  - destruct (renameFile _ _ _) as [w1|] eqn:Hren; simpl; [|done].
    intros [= <- <-]. apply renameFile_out in Hren as [m Hout].
    by eapply snapshot_out.
  - by intros [= <- <-].
Qed.
End snapshot_lemmas.

(** ** The invariant of the atomic system *)

Section atomic_invariant.
Context {V : VisionLib} {HO : Host}.
Implicit Types (s a : sys) (e : environment) (t : tid) (w : world) (sh : shared).

Definition atomic_inv e a : Prop :=
  s_faceCascade a = e_faceCascade e ∧
  s_camera a ⊆ e_frames e ∧
  (∀ frame, s_main a = MLock frame → frame ∈ e_frames e) ∧
  snapshot e (s_world a) (s_shared a).

Lemma atomic_inv_init e : atomic_inv e (init e).
Proof.
  split_and!; try done. split; [apply list_elem_of_here|by left].
Qed.

Lemma atomic_inv_step e a t a' :
  atomic_inv e a → atomic_thread_step t a = Some a' → atomic_inv e a'.
Proof.
  unfold atomic_inv, atomic_thread_step.
  intros (Hc & Hcam & Hpc & Hsnap) Hs.
  destruct (s_status a) eqn:Hr; [|done..].
  destruct a as [sh w ? ? pc ipc ? ? casc ? ? ? ? ? ?]; simpl in *; subst.
  destruct t.
  - unfold atomic_main_step in Hs. simpl in Hs. main_step_inv Hs;
      split_and?; eauto using snapshot_print, snapshot_frame; try done;
      try (intros x Hx; apply Hcam; by apply list_elem_of_further).
    intros ? [= <-]. apply Hcam, list_elem_of_here.
  - unfold atomic_input_step in Hs. simpl in Hs. input_step_inv Hs;
      split_and?; eauto using snapshot_print, run_locked_snapshot; try done.
Qed.

Lemma atomic_reachable_inv e a : atomic_reachable e a → atomic_inv e a.
Proof.
  apply rtc_ind_r; [apply atomic_inv_init|].
  intros a1 a2 _ [t Hs] IH. by eapply atomic_inv_step.
Qed.

(** Outside the critical section of the capture loop the atomic state
    that stands for a state has its shared data and its world. *)
Lemma simulates_free s a :
  main_holds (s_main s) = false → simulates s a →
  s_shared a = s_shared s ∧ s_world a = s_world s.
Proof. unfold simulates. by intros -> ->. Qed.

Lemma reachable_snapshot e s :
  reachable e s → main_holds (s_main s) = false →
  snapshot e (s_world s) (s_shared s).
Proof.
  intros (a & Ha & Hsim)%reachable_simulates Hfree.
  destruct (simulates_free s a Hfree Hsim) as [<- <-].
  by destruct (atomic_reachable_inv e a Ha) as (_ & _ & _ & ?).
Qed.
End atomic_invariant.

(** ** Properties *)

Section snapshot_properties.
Context {V : VisionLib} {HO : Host}.
Implicit Types (s a : sys) (e : environment) (t : tid) (w : world) (sh : shared).

(** C6.  No torn read: when a handler of the command thread runs, and
    whenever the capture loop is outside its critical section, the buffer
    is empty or is the complete result of one frame of the camera under a
    limit that was set, and [maxFaces] is a limit that was set. *)
Theorem no_torn_read e s :
  reachable e s →
  main_holds (s_main s) = false ∨ (∃ r, s_input s = IRun r) →
  snapshot e (s_world s) (s_shared s).
Proof.
  intros Hr Hcase. apply reachable_snapshot; [done|].
  destruct Hcase as [?|[r Hpc]]; [done|].
  destruct (reachable_mutex_inv e s Hr) as (_ & Hx & _).
  rewrite Hpc in Hx. simpl in Hx. by rewrite andb_true_r in Hx.
Qed.
End snapshot_properties.

(** ** The properties at concrete runs *)

Section snapshot_witnesses.
Import StubVision StubHost.

#[local] Abbreviation start := (init (V:=stub)).
#[local] Abbreviation sched := (run (V:=stub) (HO:=stub_host)).

(** Then the command thread has taken the mutex for [show]. *)
Definition show_running : list tid := frame_done ++ replicate 5 TInput.

Lemma no_torn_read_witness :
  snapshot (V:=stub) env_demo
    (s_world (sched show_running (start env_demo)))
    (s_shared (sched show_running (start env_demo))).
Proof.
  apply (no_torn_read (HO:=stub_host) env_demo);
    [apply reachable_run, reachable_init | right; by exists ReqShow].
Defined.
End snapshot_witnesses.
