(* ===== verification/Orchestrator.v ===== *)
(** * Orchestrator: the life cycle of the process

    The behavioural description gives the process four phases:
    _Initializing_ (the classifier is loaded and the camera opened),
    _Running_ (both loops are active), _Stopping_ (a loop has seen a stop
    condition: the cancellation key, the command [exit], or the end of the
    camera stream) and _Terminated_ (with status 0 after a graceful stop,
    non-zero after a failed start).  [phase_step] is that state machine.

    [phase_of] reads the phase off a state of the transition system of
    [System]: [main] (src/compscifinal.cpp, lines 104-190) is in
    _Initializing_ up to the statement that starts the command thread
    (line 119), in _Stopping_ once the flag is set, the command thread has
    returned or [main] has left its loop (lines 186-189), and in
    _Terminated_ after a [return].  The program has a fifth phase, which
    the description does not have: _Aborted_, after an exception that
    nothing catches.

    [phase_refines] is the refinement: every step of the program keeps
    the phase, takes a step of the state machine, or aborts.
    [stopping_cause] names the three statements that enter _Stopping_.
    [stop_noticed] is the bounded opportunity the description gives the
    command loop to notice the flag: once the flag is set the thread takes
    at most seven steps, after which it has returned, waits for a line or
    for the mutex, or the process has ended. *)

From stdpp Require Import relations.
From S2P Require Import Prelude CppString IStream Vision Shared Detect.
From S2P Require Import FileSystem Handlers CommandLoop System.

#[local] Open Scope Z_scope.

(** ** Definitions *)

(** The phases of the description, and the abort the program adds. *)
Inductive phase : Type :=
  | PhInitializing
  | PhRunning
  | PhStopping
  | PhTerminated (code : Z)
  | PhAborted (e : exn).

#[global] Instance phase_eq_dec : EqDecision phase.
Proof. solve_decision. Defined.

(** The state machine of the description. *)
Inductive phase_step : phase → phase → Prop :=
  | phase_started : phase_step PhInitializing PhRunning
  | phase_failed : phase_step PhInitializing (PhTerminated (-1))
  | phase_stopping : phase_step PhRunning PhStopping
  | phase_stopped : phase_step PhStopping (PhTerminated 0).

Section orchestrator.
Context {V : VisionLib} {HO : Host}.
Implicit Types (s : sys) (e : environment) (t : tid).

(** [main] has left the capture loop (lines 186-189). *)
Definition after_loop (pc : main_pc) : bool :=
  match pc with MJoin | MReturn | MDone => true | _ => false end.

(** A loop has seen a stop condition. *)
Definition stop_seen s : bool :=
  s_stop s || bool_decide (s_input s = IDone) || after_loop (s_main s).

Definition phase_of s : phase :=
  match s_status s with
  | Exited code => PhTerminated code
  | Terminated e => PhAborted e
  | Running =>
      if before_spawn (s_main s) then PhInitializing
      else if stop_seen s then PhStopping else PhRunning
  end.

(** The three stop conditions: the cancellation key at [waitKey] (line
    181), the end of the camera stream at [cap.read] (line 174), and the
    command [exit] (line 146). *)
Definition stop_condition t s : Prop :=
  match t with
  | TMain =>
      (s_main s = MWaitKey ∧ hd (-1) (s_keys s) = KEY_ESC) ∨
      (s_main s = MRead ∧ s_camera s = [])
  | TInput => s_input s = IPlain ReqExit
  end.

(** The statements the command thread can still execute before it tests
    the flag and returns, when the flag is set. *)
Definition steps_to_return (pc : input_pc) : nat :=
  match pc with
  | INotStarted | IDone => 0
  | ICheck | IAfter => 1
  | IUnlock | IPlain _ => 2
  | IRun _ => 3
  | ILock _ => 4
  | IParse => 5
  | IGetline => 6
  | IPrompt => 7
  end.
End orchestrator.

(** ** Lemmas *)

Section orchestrator_lemmas.
Context {V : VisionLib} {HO : Host}.
Implicit Types (s : sys) (e : environment) (t : tid).

(** Before the command thread is started the flag is clear. *)
Definition spawn_inv s : Prop :=
  before_spawn (s_main s) = true → s_stop s = false ∧ s_input s = INotStarted.

Lemma reachable_spawn_inv e : ∀ s, reachable e s → spawn_inv s.
Proof.
  apply (reachable_inv (λ s, spawn_inv s)); [done|].
  intros s1 t s2 (_ & _ & Hb)%reachable_mutex_inv Hinv Hs.
  revert s1 t s2 Hs Hb Hinv.
  apply (thread_step_cases (λ s s', _ → spawn_inv s → spawn_inv s'));
    unfold spawn_inv; intros s s' _ Hs Hb Hinv;
    destruct s as [sh w stop ? pc ipc ? ? casc ? ? cam ? cin c]; simpl in *.
  - destruct pc; main_step_inv Hs; naive_solver.
  - destruct ipc; input_step_inv Hs; intros Hsp; by specialize (Hb Hsp).
Qed.

(** What a step does to the phase, given the invariants of [System]. *)
Lemma main_step_phase s s' :
  spawn_inv s → s_status s = Running → main_step s = Some s' →
  phase_of s' = phase_of s ∨ phase_step (phase_of s) (phase_of s') ∨
  ∃ x, phase_of s' = PhAborted x ∧ before_spawn (s_main s) = false.
Proof.
  unfold phase_of, stop_seen, spawn_inv. intros Hsp Hr Hs.
  destruct s as [sh w stop ? pc ipc ? ? casc ? ? cam ? cin c]; simpl in *; subst.
  destruct pc; try (destruct (Hsp eq_refl) as [-> ->]);
    main_step_inv Hs; simpl;
    repeat (case_bool_decide || case_match); simplify_eq/=;
    rewrite ?orb_true_r in *; try done; eauto using phase_step.
Qed.

Lemma input_step_phase s s' :
  before_spawn (s_main s) = false →
  s_status s = Running → input_step s = Some s' →
  phase_of s' = phase_of s ∨ phase_step (phase_of s) (phase_of s') ∨
  ∃ x, phase_of s' = PhAborted x.
Proof.
  unfold phase_of, stop_seen. intros Hb Hr Hs.
  destruct s as [sh w stop ? pc ipc ? ? casc ? ? cam ? cin c]; simpl in *; subst.
  rewrite Hb. destruct ipc; input_step_inv Hs; simpl; rewrite ?Hb;
    repeat (case_bool_decide || case_match); simplify_eq/=;
    eauto using phase_step.
Qed.

(** With the flag set every step of the command thread brings it closer
    to its return, and no step clears the flag. *)
Lemma input_step_to_return s s' :
  s_stop s = true → input_step s = Some s' →
  s_stop s' = true ∧
  (s_status s = Running → s_status s' = Running →
   (steps_to_return (s_input s') < steps_to_return (s_input s))%nat).
Proof.
  intros Hstop Hs.
  destruct s as [sh w stop ? pc ipc st ? casc ? ? cam ? cin c]; simpl in *; subst.
  destruct ipc; input_step_inv Hs; simpl; split; try done; try lia.
  all: by intros ->.
Qed.

(** The command thread running alone stops within [n] steps when at
    most [n] statements separate it from its return. *)
Lemma run_thread_to_return n s :
  s_stop s = true → (steps_to_return (s_input s) ≤ n)%nat →
  ∃ m, (m ≤ n)%nat ∧ thread_step TInput (run_thread TInput m s) = None.
Proof.
  revert s. induction n as [|n IH]; intros s Hstop Hn.
  { exists 0%nat. split; [done|]. change (run_thread TInput 0 s) with s.
    unfold thread_step, input_step.
    destruct (s_status s); [|done..]. destruct (s_input s); simpl in Hn; (done || lia). }
  destruct (thread_step TInput s) as [s'|] eqn:Hs; [|by exists 0%nat; split; [lia|]].
  pose proof Hs as Hin. unfold thread_step in Hin.
  destruct (s_status s) eqn:Hst; [|done..].
  destruct (input_step_to_return s s' Hstop Hin) as [Hstop' Hless].
  destruct (decide (s_status s' = Running)) as [Hrun|Hend].
  - destruct (IH s' Hstop' ltac:(specialize (Hless Hst Hrun); lia))
      as (m & Hm & Hnone).
    exists (S m). split; [lia|]. by rewrite (run_thread_S _ _ _ _ Hs).
  - exists 1%nat. split; [lia|]. rewrite (run_thread_S _ _ _ _ Hs).
    change (run_thread TInput 0 s') with s'.
    unfold thread_step. by destruct (s_status s').
Qed.
End orchestrator_lemmas.

(** ** Properties *)

Section orchestrator_properties.
Context {V : VisionLib} {HO : Host}.
Implicit Types (s : sys) (e : environment) (t : tid).

(** The phase of a state from which a thread steps, past the start. *)
Lemma phase_after_spawn s :
  s_status s = Running → before_spawn (s_main s) = false →
  phase_of s = PhRunning ∨ phase_of s = PhStopping.
Proof.
  unfold phase_of. intros -> ->. destruct (stop_seen s); by (left + right).
Qed.

(** The command thread does not step before it is started. *)
Lemma input_step_spawned e s s' :
  reachable e s → input_step s = Some s' → before_spawn (s_main s) = false.
Proof.
  intros (_ & _ & Hb)%reachable_mutex_inv Hs.
  destruct (before_spawn (s_main s)); [|done].
  unfold input_step in Hs. by rewrite (Hb eq_refl) in Hs.
Qed.

(** C11.  The program refines the state machine of the description, up to
    abort: every step of a thread keeps the phase, takes a step of the
    state machine (the start succeeds, the start fails with status -1, a
    stop condition is seen, the process ends with status 0), or is an
    uncaught exception in the phase Running or Stopping. *)
Theorem phase_refines e s t s' :
  reachable e s → thread_step t s = Some s' →
  phase_of s' = phase_of s ∨ phase_step (phase_of s) (phase_of s') ∨
  ∃ x, phase_of s' = PhAborted x ∧
       (phase_of s = PhRunning ∨ phase_of s = PhStopping).
Proof.
  intros Hr Hs. unfold thread_step in Hs.
  destruct (s_status s) eqn:Hst; [|done..]. destruct t.
  - destruct (main_step_phase s s' (reachable_spawn_inv e s Hr) Hst Hs)
      as [?|[?|(x & ? & ?)]]; eauto 6 using phase_after_spawn.
  - pose proof (input_step_spawned e s s' Hr Hs) as Hb.
    destruct (input_step_phase s s' Hb Hst Hs) as [?|[?|(x & ?)]];
      eauto 6 using phase_after_spawn.
Qed.

(** C23.  The phase Stopping is entered by a stop condition and by nothing
    else: the cancellation key at [waitKey], the end of the camera stream
    at [cap.read], or the command [exit]. *)
Theorem stopping_cause e s t s' :
  reachable e s → thread_step t s = Some s' →
  phase_of s = PhRunning → phase_of s' = PhStopping →
  stop_condition t s.
Proof.
  unfold thread_step, phase_of, stop_seen, stop_condition.
  intros (_ & _ & _ & Hdone & _)%reachable_exit_inv Hs.
  destruct (s_status s) eqn:Hst; [|done..].
  destruct s as [sh w stop ? pc ipc ? ? casc ? ? cam ? cin c]; simpl in *; subst.
  destruct t.
  - destruct pc; main_step_inv Hs; simpl;
      repeat (case_bool_decide || case_match); simplify_eq/=;
      rewrite ?orb_true_r, ?orb_false_r in *; try done; eauto.
  - destruct ipc; input_step_inv Hs; simpl;
      repeat (case_bool_decide || case_match); simplify_eq/=;
      rewrite ?orb_true_r, ?orb_false_r in *; try done; eauto.
Qed.

(** C24.  The command loop notices the stop: once the flag is set the
    command thread, however far it is into a turn, takes at most seven
    steps; then it has returned, or it waits for a line on the terminal or
    for the mutex, or the process has ended. *)
Theorem stop_noticed s :
  s_stop s = true →
  ∃ m s', (m ≤ 7)%nat ∧ s' = run_thread TInput m s ∧
    thread_step TInput s' = None ∧
    (s_status s' = Running →
     s_input s' = IDone ∨ s_input s' = INotStarted ∨
     (s_input s' = IGetline ∧ s_cin s' = IStream [] StreamOpen) ∨
     (∃ r, s_input s' = ILock r ∧ is_Some (s_mutex s'))).
Proof.
  intros Hstop.
  destruct (run_thread_to_return 7 s Hstop) as (m & Hm & Hnone).
  { destruct (s_input s); simpl; lia. }
  exists m, (run_thread TInput m s). split_and!; [done..|].
  set (s' := run_thread TInput m s) in *. intros Hrun.
  destruct (decide (s_input s' = IDone)); [by left|].
  destruct (decide (s_input s' = INotStarted)); [by right; left|].
  right; right. unfold thread_step in Hnone. rewrite Hrun in Hnone.
  destruct (decide (s_input s' = IGetline ∧ s_cin s' = IStream [] StreamOpen))
    as [|Hg]; [by left|right].
  destruct (s_input s') eqn:Hpc; try done; unfold input_step in Hnone;
    rewrite Hpc in Hnone; simplify_eq/=; repeat case_match; simplify_eq; eauto.
  destruct Hg. split; [done|]. by eapply getline_None.
Qed.

(** Each stop condition is seen: the step of the thread that is at it
    leaves the phase Running for Stopping. *)
Theorem stop_condition_stops e s t :
  reachable e s → phase_of s = PhRunning → stop_condition t s →
  ∃ s', thread_step t s = Some s' ∧ phase_of s' = PhStopping.
Proof.
  unfold thread_step, phase_of, stop_seen, stop_condition. intros _.
  destruct (s_status s) eqn:Hst; [|done..].
  destruct s as [sh w stop ? pc ipc ? ? casc ? ? cam ? cin c]; simpl in *; subst.
  destruct (before_spawn pc) eqn:Hb; [done|].
  destruct t; [intros Hp [[-> Hkey]|[-> ->]]|intros Hp ->].
  - eexists. unfold main_step; simpl. rewrite bool_decide_true by done.
    split; [done|]. simpl. by rewrite ?orb_true_r.
  - eexists. split; [done|]. simpl. by rewrite ?orb_true_r.
  - eexists. split; [done|]. simpl. by rewrite Hb.
Qed.
End orchestrator_properties.

(** ** The properties at concrete runs *)

Section orchestrator_witnesses.
Import StubVision StubHost.

#[local] Abbreviation start := (init (V:=stub)).
#[local] Abbreviation sched := (run (V:=stub) (HO:=stub_host)).

(** One frame, and ESC at the first call of [waitKey]. *)
Definition env_key : environment (V:=stub) :=
  Env (V:=stub) two_faces true true [frame0] [KEY_ESC] [] None StreamOpen.

(** The capture loop up to [waitKey]. *)
Definition at_waitKey : sys (V:=stub) := sched (replicate 11 TMain) (start env_key).

Lemma phase_refines_witness :
  phase_of (sched [TMain] at_waitKey) = phase_of at_waitKey
  ∨ phase_step (phase_of at_waitKey) (phase_of (sched [TMain] at_waitKey))
  ∨ ∃ x, phase_of (sched [TMain] at_waitKey) = PhAborted x ∧
         (phase_of at_waitKey = PhRunning
          ∨ phase_of at_waitKey = PhStopping).
Proof.
  apply (phase_refines (HO:=stub_host) env_key at_waitKey TMain);
    [apply reachable_run, reachable_init | done].
Defined.

Lemma stopping_cause_witness : stop_condition TMain at_waitKey.
Proof.
  apply (stopping_cause (HO:=stub_host) env_key at_waitKey TMain
           (sched [TMain] at_waitKey));
    [apply reachable_run, reachable_init | done | by vm_compute..].
Defined.

Lemma stop_noticed_witness :
  ∃ m s', (m ≤ 7)%nat ∧ s' = run_thread (HO:=stub_host) TInput m (sched [TMain] at_waitKey) ∧
    thread_step (HO:=stub_host) TInput s' = None ∧
    (s_status s' = Running →
     s_input s' = IDone ∨ s_input s' = INotStarted ∨
     (s_input s' = IGetline ∧ s_cin s' = IStream [] StreamOpen) ∨
     (∃ r, s_input s' = ILock r ∧ is_Some (s_mutex s'))).
Proof. by apply (stop_noticed (HO:=stub_host) (sched [TMain] at_waitKey)). Defined.

(** The phases of a run that starts, sees ESC at the first frame, and
    ends when the command thread has found the flag set. *)
Theorem phases_of_run :
  phase_of <$> [start env_key; sched (replicate 3 TMain) (start env_key);
                sched (replicate 12 TMain) (start env_key);
                sched (replicate 12 TMain ++ [TInput; TMain; TMain])
                  (start env_key)]
  = [PhInitializing; PhRunning; PhStopping; PhTerminated 0].
Proof. by vm_compute. Qed.
End orchestrator_witnesses.
