(* ===== verification/Termination.v ===== *)
(** * Termination: which runs end

    [main] has two loops: the capture loop (src/compscifinal.cpp, lines
    174-185), which ends when the camera delivers no frame or ESC is
    pressed, and the loop of the command thread (lines 121-172), which ends
    when [stopInputThread] is set.  Neither loop tests whether its input
    could be read at all.

    On a terminal ([StreamOpen]) a read of the command thread consumes a
    line or waits, so every thread takes a bounded number of steps:
    [steps_left] bounds them and every step decreases it.  All runs are
    finite, whatever the scheduler does; a run ends with the process exited
    or terminated, or in the state of [System.progress] in which [join]
    waits for a line that is never typed.

    When standard input has ended, [getline] returns at once and leaves
    [command] as it is.  The command thread then runs the last command
    again in every turn; unless that command is [exit] or throws, the
    states of [livelock] are never left and the run has no end. *)

From stdpp Require Import relations.
From S2P Require Import Prelude CppString IStream Vision Shared Detect.
From S2P Require Import FileSystem Handlers CommandLoop System.

#[local] Open Scope nat_scope.

(** ** Definitions *)

Section termination.
Context {V : VisionLib} {HO : Host}.
Implicit Types (s : sys) (e : environment) (t : tid).

(** The steps of the main thread for one frame: the lock, [clear], the
    call of the classifier, one step per region and the exit of the loop,
    the unlock, [imshow], [waitKey] and the next [cap.read]. *)
Definition frame_cost (faceCascade : CascadeClassifier) (frame : Mat) : nat :=
  length (detectMultiScale faceCascade (cvtColor_gray frame)) + 8.

Definition camera_cost (faceCascade : CascadeClassifier) (camera : list Mat)
    : nat :=
  sum_list (frame_cost faceCascade <$> camera).

(** The steps the main thread can still take. *)
Definition main_rank s : nat :=
  let rest := camera_cost (s_faceCascade s) (s_camera s) in
  let regions frame :=
    length (detectMultiScale (s_faceCascade s) (cvtColor_gray frame)) in
  match s_main s with
  | MLoad => rest + 6
  | MOpen => rest + 5
  | MSpawn => rest + 4
  | MRead => rest + 3
  | MLock frame => rest + regions frame + 10
  | MClear frame => rest + regions frame + 9
  | MDetect frame => rest + regions frame + 8
  | MLoop _ _ faces _ => rest + length faces + 7
  | MUnlock _ => rest + 6
  | MShow _ => rest + 5
  | MWaitKey => rest + 4
  | MJoin => 2
  | MReturn => 1
  | MDone => 0
  end.

(** The steps the command thread can still take when every read consumes
    a line. *)
Definition input_rank s : nat :=
  let rest := 8 * length (is_lines (s_cin s)) in
  match s_input s with
  | INotStarted | ICheck => rest + 2
  | IPrompt => rest + 1
  | IGetline => rest
  | IParse => rest + 7
  | ILock _ | IPlain _ => rest + 6
  | IRun _ => rest + 5
  | IUnlock => rest + 4
  | IAfter => rest + 3
  | IDone => 0
  end.

Definition steps_left s : nat :=
  match s_status s with
  | Running => main_rank s + input_rank s
  | _ => 0
  end.

(** Every run from [s] is finite. *)
Definition terminating s : Prop := sn step s.

(** A scheduler names the thread that runs at each tick; [exec σ n s] is
    the state after [n] ticks.  A thread that cannot step lets its tick
    pass. *)
Fixpoint exec (σ : nat → tid) (n : nat) s : sys :=
  match n with
  | O => s
  | S n => let s' := exec σ n s in default s' (thread_step (σ n) s')
  end.

(** A fair scheduler runs every thread again and again. *)
Definition fair (σ : nat → tid) : Prop := ∀ n t, ∃ m, n ≤ m ∧ σ m = t.

(** The scheduler that alternates between the threads. *)
Definition round_robin (n : nat) : tid := if Nat.even n then TMain else TInput.

(** No thread can step. *)
Definition quiescent s : Prop := ∀ t, thread_step t s = None.

(** The commands that never throw and never set the flag. *)
Definition repeatable (r : request) : bool :=
  match r with
  | ReqCapture | ReqShow | ReqSetMax _ | ReqHelp | ReqUnknown => true
  | ReqClear | ReqExit | ReqRename _ => false
  end.

(** The states of the command thread after the end of standard input,
    while the capture loop has ended without ESC. *)
Definition livelock s : Prop :=
  s_status s = Running ∧ s_main s = MJoin ∧ s_stop s = false ∧
  s_cin s = IStream [] StreamFailed ∧
  ∃ r, parse_command (s_command s) = Ok r ∧ repeatable r = true ∧
    match s_input s with
    | ICheck | IPrompt | IGetline | IParse | IAfter => s_mutex s = None
    | ILock r' => r' = r ∧ needs_lock r = true ∧ s_mutex s = None
    | IRun r' => r' = r ∧ needs_lock r = true
    | IUnlock => True
    | IPlain r' => r' = r ∧ needs_lock r = false ∧ s_mutex s = None
    | INotStarted | IDone => False
    end.
End termination.

(** ** Every step uses up one of the steps that are left *)

Section termination_lemmas.
Context {V : VisionLib} {HO : Host}.
Implicit Types (s : sys) (e : environment) (t : tid).

Lemma camera_cost_cons faceCascade frame camera :
  camera_cost faceCascade (frame :: camera)
  = frame_cost faceCascade frame + camera_cost faceCascade camera.
Proof. done. Qed.

(** What a run keeps of an open stream. *)
Definition open_inv s : Prop :=
  is_end (s_cin s) = StreamOpen ∧
  (before_spawn (s_main s) = true → s_input s = INotStarted).

Lemma open_inv_step s t s' :
  mutex_inv s → open_inv s → thread_step t s = Some s' → open_inv s'.
Proof.
  intros Hm [Ho _] Hs. split; [|by eapply mutex_inv_step].
  clear Hm. revert s t s' Hs Ho.
  apply (thread_step_cases (λ s s', _ → _)); intros s s' _ Hs Ho;
    destruct s; simpl in *; [by main_step_inv Hs|].
  input_step_inv Hs; try done; by eapply getline_open.
Qed.

Lemma reachable_open_inv e s :
  e_end e = StreamOpen → reachable e s → open_inv s.
Proof.
  intros He. apply reachable_inv; [done|].
  intros s1 t s2 Hr. apply open_inv_step. by eapply reachable_mutex_inv.
Qed.

Lemma main_step_rank s s' :
  s_status s = Running → open_inv s → main_step s = Some s' →
  steps_left s' < steps_left s.
Proof.
  intros Hr [_ Hb] Hs. unfold steps_left, main_rank, input_rank.
  destruct s as [? ? ? ? pc ipc ? ? ? ? ? cam ? ? ?]; simpl in *; subst.
  destruct pc; try (specialize (Hb eq_refl); subst ipc);
    main_step_inv Hs; rewrite ?camera_cost_cons; unfold frame_cost; lia.
Qed.

Lemma input_step_rank s s' :
  s_status s = Running → open_inv s → input_step s = Some s' →
  steps_left s' < steps_left s.
Proof.
  intros Hr [Ho _] Hs. unfold steps_left, main_rank, input_rank.
  destruct s as [? ? ? ? pc ipc ? ? ? ? ? ? ? ins ?]; simpl in *; subst.
  destruct ipc; input_step_inv Hs; try (destruct pc; lia).
  match goal with H : getline _ _ = Some _ |- _ =>
    apply getline_open in H as [_ Hl]; [|done] end.
  simpl in Hl. rewrite Hl. simpl. destruct pc; lia.
Qed.

Lemma thread_step_rank s t s' :
  open_inv s → thread_step t s = Some s' → steps_left s' < steps_left s.
Proof.
  intros Ho. unfold thread_step. destruct (s_status s) eqn:Hr; [|done..].
  destruct t; eauto using main_step_rank, input_step_rank.
Qed.

Lemma open_step_rank e s s' :
  e_end e = StreamOpen →
  reachable e s → step s s' → reachable e s' ∧ steps_left s' < steps_left s.
Proof.
  intros He Hr [t Hs]. split; [by eapply reachable_step|].
  eapply thread_step_rank; [|done]. by eapply reachable_open_inv.
Qed.

(** ** Fair schedulers *)

Lemma quiescent_or_enabled s :
  quiescent s ∨ ∃ t, is_Some (thread_step t s).
Proof.
  destruct (thread_step TMain s) eqn:Hm; [right; exists TMain; by rewrite Hm|].
  destruct (thread_step TInput s) eqn:Hi; [right; exists TInput; by rewrite Hi|].
  left. by intros [].
Qed.

Lemma round_robin_fair : fair round_robin.
Proof.
  intros n [].
  - exists (2 * n). split; [lia|]. unfold round_robin.
    by rewrite Nat.even_mul.
  - exists (2 * n + 1). split; [lia|]. unfold round_robin.
    by rewrite Nat.add_1_r, Nat.even_succ, Nat.odd_mul.
Qed.

Lemma reachable_exec e σ n s : reachable e s → reachable e (exec σ n s).
Proof.
  intros Hr. induction n as [|n IH]; simpl; [done|].
  destruct (thread_step _ _) eqn:Hs; simpl; [|done]. by eapply reachable_step.
Qed.

Lemma exec_quiescent σ n m s :
  quiescent (exec σ n s) → exec σ (n + m) s = exec σ n s.
Proof.
  intros Hq. induction m as [|m IH]; [by rewrite Nat.add_0_r|].
  rewrite Nat.add_succ_r. simpl. by rewrite IH, Hq.
Qed.

Lemma quiescent_waits e s :
  reachable e s → s_status s = Running → quiescent s →
  s_main s = MJoin ∧ s_input s = IGetline ∧ s_cin s = IStream [] StreamOpen.
Proof.
  intros Hr Hst Hq. destruct (step_or_wait e s Hr Hst) as [(t & s' & Hs)|?]; [|done].
  by rewrite Hq in Hs.
Qed.

Section fair_runs.
Context (e : environment) (σ : nat → tid).
Context (Hopen : e_end e = StreamOpen) (Hfair : fair σ).

#[local] Abbreviation at_tick n := (exec σ n (init e)).

Lemma exec_rank n : steps_left (at_tick (S n)) ≤ steps_left (at_tick n).
Proof.
  simpl. destruct (thread_step _ _) eqn:Hs; simpl; [|done].
  apply Nat.lt_le_incl. eapply thread_step_rank; [|done].
  by apply (reachable_open_inv e), reachable_exec, reachable_init.
Qed.

Lemma exec_rank_le n m : n ≤ m → steps_left (at_tick m) ≤ steps_left (at_tick n).
Proof.
  induction 1 as [|m _ IH]; [done|]. etrans; [apply exec_rank|done].
Qed.

(** A thread that can step does so at its next tick, unless the other
    thread has stepped before. *)
Lemma enabled_steps d n t :
  σ (n + d) = t → is_Some (thread_step t (at_tick n)) →
  ∃ m, n < m ∧ steps_left (at_tick m) < steps_left (at_tick n).
Proof.
  revert n. induction d as [|d IH]; intros n Hσ Hen.
  { rewrite Nat.add_0_r in Hσ. exists (S n). split; [lia|]. simpl. rewrite Hσ.
    destruct Hen as [s' Hs]. rewrite Hs. simpl.
    eapply thread_step_rank; [|done].
    by apply (reachable_open_inv e), reachable_exec, reachable_init. }
  destruct (thread_step (σ n) (at_tick n)) as [s'|] eqn:Hs.
  { exists (S n). split; [lia|]. simpl. rewrite Hs. simpl.
    eapply thread_step_rank; [|done].
    by apply (reachable_open_inv e), reachable_exec, reachable_init. }
  destruct (IH (S n)) as (m & Hm & Hlt).
  { by rewrite <-Hσ, Nat.add_succ_comm. }
  { simpl. by rewrite Hs. }
  exists m. split; [lia|]. simpl in Hlt. by rewrite Hs in Hlt.
Qed.

Lemma fair_quiescent k n :
  steps_left (at_tick n) ≤ k → ∃ m, n ≤ m ∧ quiescent (at_tick m).
Proof.
  revert n. induction k as [k IH] using lt_wf_ind. intros n Hk.
  destruct (quiescent_or_enabled (at_tick n)) as [Hq|[t Hen]]; [by exists n|].
  destruct (Hfair n t) as (j & Hj & Hσ).
  destruct (enabled_steps (j - n) n t) as (m & Hm & Hlt);
    [by replace (n + (j - n)) with j by lia | done |].
  destruct (IH (steps_left (at_tick m)) ltac:(lia) m) as (m' & Hm' & Hq');
    [done|].
  exists m'. split; [lia|done].
Qed.
End fair_runs.

(** ** After the end of standard input *)

Lemma run_locked_repeatable r sh w :
  repeatable r = true → is_Ok (run_locked r sh w).
Proof. destruct r; try done; intros _; by eexists. Qed.

(** The command thread can always step inside [livelock], and stays
    there. *)
Lemma livelock_step s :
  livelock s → ∃ s', thread_step TInput s = Some s' ∧ livelock s'.
Proof.
  intros (Hr & Hm & Hstop & Hin & r & Hp & Hrep & Hpc).
  unfold thread_step, input_step, livelock. rewrite Hr.
  destruct s as [sh w ? mx ? ipc ? ? ? ? ? ? ? ? c]; simpl in *; subst.
  destruct ipc; try done; simpl; rewrite ?Hp.
  1-4, 9: eexists; split; [done|]; split_and!; try done;
    exists r; split_and!; try done; by destruct (needs_lock r) eqn:?.
  - destruct Hpc as (-> & Hl & ->). eexists. split; [done|].
    split_and!; try done. by exists r.
  - destruct Hpc as (-> & Hl).
    destruct (run_locked_repeatable r sh w Hrep) as [[sh' w'] ->].
    eexists. split; [done|]. split_and!; try done. by exists r.
  - eexists. split; [done|]. split_and!; try done. by exists r.
  - destruct Hpc as (-> & Hl & ->). eexists. split; [done|].
    destruct r; try done; split_and!; try done; by eexists.
Qed.

Lemma livelock_not_sn s : livelock s → ¬ terminating s.
Proof.
  intros Hl Hsn. induction Hsn as [s _ IH].
  destruct (livelock_step s Hl) as (s' & Hs & Hl').
  apply (IH s'); [by exists TInput|done].
Qed.
End termination_lemmas.

(** ** Properties *)

Section termination_properties.
Context {V : VisionLib} {HO : Host}.
Implicit Types (s : sys) (e : environment) (t : tid).

(** C8.  On a terminal every run is finite: from every state the program
    reaches there is no infinite sequence of steps, whatever the scheduler
    does and whatever is typed.  Both loops of [main] terminate or wait. *)
Theorem terminates_open e s :
  e_end e = StreamOpen → reachable e s → terminating s.
Proof.
  intros He. apply (sn_measure step (reachable e) steps_left).
  intros s1 s2. by apply open_step_rank.
Qed.

(** C27.  The length of a run on a terminal is bounded by the input: at
    most eight steps of the main thread per frame and one per region the
    classifier reports, eight steps of the command thread per line, three
    steps to start, three to end and two for the prompt that no line
    answers. *)
Theorem steps_bounded e n s :
  e_end e = StreamOpen → nsteps step n (init e) s →
  n ≤ camera_cost (e_faceCascade e) (e_frames e) + 8 * length (e_lines e) + 8.
Proof.
  intros He Hn.
  pose proof (nsteps_measure step (reachable e) steps_left
                (λ s1 s2, open_step_rank e s1 s2 He) n (init e) s
                (reachable_init e) Hn) as Hle.
  unfold steps_left in Hle at 2. simpl in Hle.
  unfold main_rank, input_rank in Hle. simpl in Hle. lia.
Qed.

(** C12.  Under every fair scheduler a run on a terminal comes to rest after
    finitely many ticks: the process has exited or was terminated, or
    [main] waits in [join] for a command thread that waits for a line. *)
Theorem fair_run_ends e σ :
  e_end e = StreamOpen → fair σ →
  ∃ n, let s := exec σ n (init e) in
    quiescent s ∧
    (s_status s ≠ Running
     ∨ (s_main s = MJoin ∧ s_input s = IGetline ∧ s_cin s = IStream [] StreamOpen)).
Proof.
  intros He Hfair.
  destruct (fair_quiescent e σ He Hfair _ 0 (Nat.le_refl _)) as (n & _ & Hq).
  exists n. split; [done|].
  destruct (decide (s_status (exec σ n (init e)) = Running)) as [Hr|]; [|by left].
  right. apply (quiescent_waits e); [|done..].
  by apply reachable_exec, reachable_init.
Qed.

(** C21.  After the end of standard input the command thread never waits
    and never ends by itself: when the camera delivers no frame and the
    input ends after a command that is not [exit], [clear] or [rename], the
    program reaches a state from which it runs forever, the command thread
    executing that command again in every turn while [main] waits in
    [join]. *)
Theorem eof_never_ends e rest r :
  e_loaded e = true → e_opened e = true → e_frames e = [] → e_lines e = [] →
  e_end e = StreamEof rest → parse_command rest = Ok r → repeatable r = true →
  let s := run [TMain; TMain; TMain; TMain; TInput; TInput; TInput] (init e) in
  reachable e s ∧ s_command s = rest ∧ s_cin s = IStream [] StreamFailed ∧
  ¬ terminating s.
Proof.
  intros Hl Ho Hf Hi He Hp Hrep s.
  split; [apply reachable_run, reachable_init|].
  assert (s = Sys shared_init (prompt (World (e_dir e) 0 0 [] [])) false None
                MJoin IParse Running [] (e_faceCascade e) true true []
                (e_keys e) (IStream [] StreamFailed) rest) as ->.
  { unfold s, init. by rewrite Hl, Ho, Hf, Hi, He. }
  split_and!; [done..|]. apply livelock_not_sn.
  split_and!; try done. by exists r.
Qed.
End termination_properties.

(** ** The properties at concrete runs *)

Section termination_witnesses.
Import StubVision StubHost.

#[local] Abbreviation start := (init (V:=stub)).
#[local] Abbreviation sched := (run (V:=stub) (HO:=stub_host)).

(** No frame, and standard input that ends after [capture] without a
    newline. *)
Definition env_eof : environment (V:=stub) :=
  Env (V:=stub) two_faces true true [] [] [] (Some ∅) (StreamEof "capture").

Lemma terminates_open_witness :
  terminating (HO:=stub_host) (sched to_read (start env_demo)).
Proof.
  apply (terminates_open (HO:=stub_host) env_demo); [done|].
  apply reachable_run, reachable_init.
Defined.

Lemma steps_bounded_witness : 1 ≤ 10 + 8 * 1 + 8.
Proof.
  apply (steps_bounded (HO:=stub_host) env_demo 1 (sched [TMain] (start env_demo)));
    [done|].
  apply nsteps_once. by exists TMain.
Defined.

Lemma fair_run_ends_witness :
  ∃ n, let s := exec (HO:=stub_host) round_robin n (start env_demo) in
    quiescent s ∧
    (s_status s ≠ Running
     ∨ (s_main s = MJoin ∧ s_input s = IGetline ∧ s_cin s = IStream [] StreamOpen)).
Proof.
  apply (fair_run_ends (HO:=stub_host) env_demo round_robin);
    [done | apply round_robin_fair].
Defined.

Lemma eof_never_ends_witness :
  let s := sched [TMain; TMain; TMain; TMain; TInput; TInput; TInput]
             (start env_eof) in
  reachable (HO:=stub_host) env_eof s ∧ s_command s = "capture" ∧
  s_cin s = IStream [] StreamFailed ∧ ¬ terminating (HO:=stub_host) s.
Proof. by apply (eof_never_ends (HO:=stub_host) env_eof "capture" ReqCapture). Defined.
End termination_witnesses.
