(* ===== verification/Race.v ===== *)
(** * Race: which accesses to shared variables can meet

    Three variables of the program are accessed by both threads: the
    vector [capturedFaces] (src/compscifinal.cpp, line 106), the limit
    [maxFaces] (line 16) and the flag [stopInputThread] (line 108).  The
    first two are only touched inside a [lock_guard] on [dataMutex]; the
    flag is a plain [bool] that the capture loop writes (line 182) and the
    command thread reads (lines 121 and 169) with no lock.

    [main_access] and [input_access] list the accesses of the statement a
    thread is at.  Two accesses to the same variable by the two threads
    conflict when one of them is a write; a state in which both threads are
    at conflicting accesses is a race.  The locking discipline excludes
    races on the vector and on the limit; a race on the flag is
    reachable. *)

From stdpp Require Import relations.
From S2P Require Import Prelude CppString IStream Vision Shared Detect.
From S2P Require Import FileSystem Handlers CommandLoop System.

#[local] Open Scope Z_scope.

(** ** Definitions *)

(** The variables both threads access. *)
Inductive var : Type := VCapturedFaces | VMaxFaces | VStop.

#[global] Instance var_eq_dec : EqDecision var.
Proof. solve_decision. Defined.

Inductive access : Type := AccLoad | AccStore.

#[global] Instance access_eq_dec : EqDecision access.
Proof. solve_decision. Defined.

(** The variables a lock protects. *)
Definition guarded (v : var) : bool :=
  match v with VCapturedFaces | VMaxFaces => true | VStop => false end.

(** The accesses of a handler, lines 36-74. *)
Definition request_access (r : request) : list (var * access) :=
  match r with
  | ReqCapture => [(VCapturedFaces, AccLoad)]            (* lines 37, 44 *)
  | ReqClear => [(VCapturedFaces, AccStore)]             (* line 51 *)
  | ReqShow => [(VCapturedFaces, AccLoad)]               (* line 62 *)
  | ReqSetMax _ => [(VMaxFaces, AccStore); (VMaxFaces, AccLoad)]   (* lines 72, 73 *)
  | ReqExit => [(VStop, AccStore)]                       (* line 147 *)
  | ReqHelp | ReqRename _ | ReqUnknown => []
  end.

Section race.
Context {V : VisionLib} {HO : Host}.
Implicit Types (s : sys) (e : environment) (t : tid) (v : var) (a : access).

(** The accesses of the statement the main thread is at. *)
Definition main_access s : list (var * access) :=
  match s_main s with
  | MClear _ => [(VCapturedFaces, AccStore)]             (* line 177 *)
  | MLoop _ _ (_ :: _) faceCount =>                   (* lines 26, 30 *)
      (VMaxFaces, AccLoad) ::
      if bool_decide (faceCount >= maxFaces (s_shared s)) then []
      else [(VCapturedFaces, AccStore)]
  | MWaitKey =>                                       (* line 182 *)
      if bool_decide (hd (-1) (s_keys s) = KEY_ESC) then [(VStop, AccStore)]
      else []
  | _ => []
  end.

(** The accesses of the statement the command thread is at. *)
Definition input_access s : list (var * access) :=
  match s_input s with
  | ICheck | IAfter => [(VStop, AccLoad)]                (* lines 121, 169 *)
  | IRun r | IPlain r => request_access r
  | _ => []
  end.

Definition thread_access t s : list (var * access) :=
  match t with TMain => main_access s | TInput => input_access s end.

(** Both threads are at accesses to [v], and one of the accesses is a
    write. *)
Definition race v s : Prop :=
  s_status s = Running ∧
  ∃ a b, (v, a) ∈ main_access s ∧ (v, b) ∈ input_access s ∧
    (a = AccStore ∨ b = AccStore).

(** The handler of a command runs under the lock exactly when the command
    needs it. *)
Definition input_pc_locked (pc : input_pc) : Prop :=
  match pc with
  | ILock r | IRun r => needs_lock r = true
  | IPlain r => needs_lock r = false
  | _ => True
  end.

(** The thread [t] holds the mutex, by its program counter. *)
Definition holds t s : bool :=
  match t with
  | TMain => main_holds (s_main s)
  | TInput => input_holds (s_input s)
  end.
End race.

(** ** Lemmas *)

(** Membership in a list of accesses that is written out. *)
Ltac access_inv :=
  rewrite ?elem_of_cons, ?elem_of_nil; naive_solver.

Section race_lemmas.
Context {V : VisionLib} {HO : Host}.
Implicit Types (s : sys) (e : environment) (t : tid) (v : var) (a : access).

Lemma request_access_guarded r v a :
  (v, a) ∈ request_access r → guarded v = true → needs_lock r = true.
Proof.
  destruct r; simpl; try done; access_inv.
Qed.

(** A statement that accesses a guarded variable is inside a critical
    section. *)
Lemma main_access_holds s v a :
  (v, a) ∈ main_access s → guarded v = true → main_holds (s_main s) = true.
Proof.
  unfold main_access. destruct (s_main s) as [| | | | | | |? ? [|] ?| | | | | |];
    try done; repeat case_bool_decide; access_inv.
Qed.

Lemma input_access_holds s v a :
  input_pc_locked (s_input s) →
  (v, a) ∈ input_access s → guarded v = true → input_holds (s_input s) = true.
Proof.
  unfold input_access, input_pc_locked.
  destruct (s_input s) as [] eqn:Hpc; try done; try access_inv.
  intros Hl Hin Hg. pose proof (request_access_guarded _ _ _ Hin Hg).
  congruence.
Qed.

(** ** The handler of a command runs where its lock says *)

Lemma input_pc_locked_step s t s' :
  input_pc_locked (s_input s) → thread_step t s = Some s' →
  input_pc_locked (s_input s').
Proof.
  intros Hinv Hs. revert s t s' Hs Hinv.
  apply (thread_step_cases (λ s s', _ → _)); intros s s' _ Hs Hl;
    destruct s; simpl in *.
  - by main_step_inv Hs.
  - by input_step_inv Hs.
Qed.

Lemma reachable_input_pc_locked e s :
  reachable e s → input_pc_locked (s_input s).
Proof.
  apply (reachable_inv (λ s, input_pc_locked (s_input s))); [done|].
  intros ??? _. apply input_pc_locked_step.
Qed.

Lemma thread_access_holds e s t v a :
  reachable e s → (v, a) ∈ thread_access t s → guarded v = true →
  holds t s = true.
Proof.
  intros Hr. destruct t; simpl.
  - apply main_access_holds.
  - apply input_access_holds. by eapply reachable_input_pc_locked.
Qed.

Lemma holds_mutex e s t : reachable e s → holds t s = true → s_mutex s = Some t.
Proof.
  intros (Hm & Hx & _)%reachable_mutex_inv. rewrite Hm.
  destruct t; simpl; intros Ht; rewrite Ht in *; [done|].
  by destruct (main_holds (s_main s)).
Qed.

(** The main thread from [cap.read] to [waitKey], while the command thread
    has not moved. *)
Lemma run_to_waitKey s frame frames frame' sh' :
  s_status s = Running → s_main s = MRead → s_mutex s = None →
  s_camera s = frame :: frames →
  process_frame (s_faceCascade s) frame (s_shared s) = Ok (frame', sh') →
  ∃ n, run_thread TMain n s
       = set_display (s_display s ++ [frame'])
           (set_shared sh' (set_camera frames (set_main MWaitKey s))).
Proof.
  intros Hr Hpc Hm Hcam Hp.
  set (s1 := set_camera frames (set_main (MLock frame) s)).
  assert (run_thread TMain 1 s = s1) as H1.
  { destruct s; simpl in *; by subst. }
  destruct (run_critical_section s1 frame) as (n & _ & Hrun); [done..|].
  change (s_faceCascade s1) with (s_faceCascade s) in Hrun.
  change (s_shared s1) with (s_shared s) in Hrun. rewrite Hp in Hrun.
  exists (1 + (n + 1))%nat. rewrite run_thread_add, H1, run_thread_add, Hrun.
  subst s1. destruct s; simpl in *; by subst.
Qed.
End race_lemmas.

(** ** Properties *)

Section race_properties.
Context {V : VisionLib} {HO : Host}.
Implicit Types (s : sys) (e : environment) (t : tid) (v : var) (a : access).


(** No data race on the vector or on the limit: in no state of a run
    are both threads at accesses to [capturedFaces], or to [maxFaces], one
    of which is a write. *)
Theorem guarded_race_free e s v :
  reachable e s → guarded v = true → ¬ race v s.
Proof.
  intros Hr Hg (_ & a & b & Ha & Hb & _).
  pose proof (holds_mutex e s TMain Hr
                (thread_access_holds e s TMain v a Hr Ha Hg)) as Hm.
  pose proof (holds_mutex e s TInput Hr
                (thread_access_holds e s TInput v b Hr Hb Hg)) as Hi.
  congruence.
Qed.

(** C22.  The flag [stopInputThread] is written by the capture loop and
    read by the command thread without synchronisation: when ESC is pressed
    at the first frame, the run reaches a state in which the main thread is
    about to store [true] in the flag while the command thread is about to
    test it. *)
Theorem stop_flag_race e frame frames keys :
  e_loaded e = true → e_opened e = true →
  e_frames e = frame :: frames → e_keys e = KEY_ESC :: keys →
  is_Ok (process_frame (e_faceCascade e) frame shared_init) →
  ∃ s, reachable e s ∧ race VStop s ∧ s_mutex s = None.
Proof.
  intros Hl Ho Hf Hk [[frame' sh'] Hp].
  set (s0 := run [TMain; TMain; TMain] (init e)).
  assert (s0 = Sys shared_init (World (e_dir e) 0 0 [] []) false None
                 MRead ICheck Running [] (e_faceCascade e) true true
                 (frame :: frames) (KEY_ESC :: keys)
                 (IStream (e_lines e) (e_end e)) "") as Hs0.
  { unfold s0, init. by rewrite Hl, Ho, Hf, Hk. }
  destruct (run_to_waitKey s0 frame frames frame' sh') as (n & Hrun);
    try (by rewrite Hs0).
  exists (run_thread TMain n s0). split; [apply reachable_run, reachable_run, reachable_init|].
  rewrite Hrun, Hs0. split; [|done]. split; [done|].
  exists AccStore, AccLoad. unfold main_access, input_access; simpl.
  split_and!; [apply list_elem_of_here..|by left].
Qed.
End race_properties.

(** ** The properties at concrete runs *)

Section race_witnesses.
Import StubVision StubHost.

#[local] Abbreviation start := (init (V:=stub)).
#[local] Abbreviation sched := (run (V:=stub) (HO:=stub_host)).

(** One frame, at which ESC is pressed. *)
Definition env_esc : environment (V:=stub) :=
  Env (V:=stub) two_faces true true [frame0] [KEY_ESC] [] None StreamOpen.


Lemma guarded_race_free_witness :
  ¬ race VCapturedFaces
      (sched (to_read ++ [TMain; TMain; TInput; TInput; TInput; TInput])
         (start env_demo)).
Proof.
  apply (guarded_race_free (HO:=stub_host) env_demo);
    [apply reachable_run, reachable_init | done].
Defined.

Lemma stop_flag_race_witness :
  ∃ s, reachable (HO:=stub_host) env_esc s ∧ race VStop s ∧ s_mutex s = None.
Proof.
  apply (stop_flag_race (HO:=stub_host) env_esc frame0 [] []); try done.
  by eexists.
Defined.
End race_witnesses.
