(* ===== verification/Serial.v ===== *)
(** * Serial: the program as a sequence of whole operations

    The specification of the program's effect on the data both threads
    share and on the world is a sequence of _operations_, each applied to
    the result of the one before it:

    - [OpFrame frame]: the critical section of the capture loop
      (src/compscifinal.cpp, lines 175-179) on one frame of the camera;
    - [OpLocked r]: the [lock_guard] block of one command (lines 126-129,
      131-134, 136-139, 142-145 and 162-165);
    - [OpPrompt]: the pause and the prompt that begin a turn of the
      command loop (lines 122-123);
    - [OpPrint m]: one other output statement outside the blocks.

    [serial e ops s] says that the vector, the limit, the directory and
    the output of the state [s] are what the operations [ops] give from the
    initial state, that the frames among [ops] are the frames the camera
    has delivered, in their order, and that the commands among [ops] are
    the commands [getline] has delivered that run under the lock, in their
    order.  It is an invariant of the atomic
    system of [Atomic]; the simulation carries it to every state of the
    interleaved system in which the capture loop is outside its critical
    section: however the threads were scheduled, the state is one that the
    operations reach when they run one at a time. *)

From stdpp Require Import relations.
From S2P Require Import Prelude CppString IStream Vision Shared Detect.
From S2P Require Import FileSystem Handlers CommandLoop System Atomic Race.

#[local] Open Scope Z_scope.

(** ** Definitions *)

Section serial.
Context {V : VisionLib} {HO : Host}.
Implicit Types (s a : sys) (e : environment) (sh : shared) (w : world).

Inductive op : Type :=
  | OpFrame (frame : Mat)
  | OpLocked (r : request)
  | OpPrompt
  | OpPrint (m : message).

(** One operation on the shared data and the world. *)
Definition apply_op (faceCascade : CascadeClassifier) (o : op)
    (st : shared * world) : outcome (shared * world) :=
  match o with
  | OpFrame frame =>
      '(_, sh) ← process_frame faceCascade frame st.1; Ok (sh, st.2)
  | OpLocked r => run_locked r st.1 st.2
  | OpPrompt => Ok (st.1, prompt st.2)
  | OpPrint m => Ok (st.1, print m st.2)
  end.

(** The operations one after another. *)
Fixpoint apply_ops (faceCascade : CascadeClassifier) (ops : list op)
    (st : shared * world) : outcome (shared * world) :=
  match ops with
  | [] => Ok st
  | o :: ops => st ← apply_op faceCascade o st; apply_ops faceCascade ops st
  end.

(** The frames of a sequence of operations. *)
Definition op_frame (o : op) : option Mat :=
  match o with OpFrame frame => Some frame | _ => None end.

Definition frames_of (ops : list op) : list Mat := omap op_frame ops.

(** The operations the program issues: a command runs under the lock when
    it needs it, with an argument of type [int]. *)
Definition op_wf (o : op) : Prop :=
  match o with
  | OpLocked r => needs_lock r = true ∧ request_wf r
  | _ => True
  end.

(** The commands of a sequence of operations. *)
Definition op_request (o : op) : option request :=
  match o with OpLocked r => Some r | _ => None end.

Definition requests_of (ops : list op) : list request := omap op_request ops.

(** The command of a line, when it runs under the lock. *)
Definition locked_request (command : string) : option request :=
  match parse_command command with
  | Ok r => if needs_lock r then Some r else None
  | Throw _ => None
  end.

(** The command that was parsed and whose block has not run. *)
Definition pending_request (pc : input_pc) : list request :=
  match pc with ILock r | IRun r => [r] | _ => [] end.

(** The string [getline] has stored and the chain has not looked at. *)
Definition unparsed s : list string :=
  match s_input s with IParse => [s_command s] | _ => [] end.

(** The strings the command thread has parsed are [processed]: with the
    one it may still hold they are what [getline] has delivered, and their
    commands under the lock are those of [ops] and the pending one. *)
Definition commands e (ops : list op) s : Prop :=
  ∃ processed,
    reads (IStream (e_lines e) (e_end e)) "" (processed ++ unparsed s)
      (s_cin s) (s_command s) ∧
    omap locked_request processed
    = requests_of ops ++ pending_request (s_input s).

(** The frame the capture loop has read and not yet processed. *)
Definition pending_frame (pc : main_pc) : list Mat :=
  match pc with MLock frame => [frame] | _ => [] end.

(** The shared data and the world before [main] starts. *)
Definition start_of e : shared * world := (shared_init, World (e_dir e) 0 0 [] []).

Definition serial e (ops : list op) s : Prop :=
  apply_ops (e_faceCascade e) ops (start_of e) = Ok (s_shared s, s_world s) ∧
  frames_of ops ++ pending_frame (s_main s) ++ s_camera s = e_frames e ∧
  Forall op_wf ops ∧
  commands e ops s.
End serial.

(** ** Lemmas *)

Section serial_lemmas.
Context {V : VisionLib} {HO : Host}.
Implicit Types (s a : sys) (e : environment) (sh : shared) (w : world).

Lemma apply_ops_snoc faceCascade ops o st :
  apply_ops faceCascade (ops ++ [o]) st
  = st ← apply_ops faceCascade ops st; apply_op faceCascade o st.
Proof.
  revert st. induction ops as [|o' ops IH]; intros st; simpl.
  - by destruct (apply_op _ _ _).
  - destruct (apply_op faceCascade o' st); simpl; [apply IH|done].
Qed.

Lemma frames_of_snoc ops o :
  frames_of (ops ++ [o]) = frames_of ops ++ option_list (op_frame o).
Proof. unfold frames_of. rewrite omap_app. simpl. by destruct (op_frame o). Qed.

Lemma requests_of_snoc ops o :
  requests_of (ops ++ [o]) = requests_of ops ++ option_list (op_request o).
Proof.
  unfold requests_of. rewrite omap_app. simpl. by destruct (op_request o).
Qed.

Lemma locked_request_Ok command r :
  parse_command command = Ok r →
  option_list (locked_request command) = if needs_lock r then [r] else [].
Proof. unfold locked_request. intros ->. by destruct (needs_lock r). Qed.

(** One more operation. *)
Lemma serial_snoc e ops o sh w pc ipc camera s' processed :
  apply_ops (e_faceCascade e) ops (start_of e) = Ok (sh, w) →
  frames_of ops ++ pending_frame pc ++ camera = e_frames e →
  Forall op_wf ops →
  omap locked_request processed = requests_of ops ++ pending_request ipc →
  apply_op (e_faceCascade e) o (sh, w) = Ok (s_shared s', s_world s') →
  option_list (op_frame o) ++ pending_frame (s_main s') ++ s_camera s'
  = pending_frame pc ++ camera →
  option_list (op_request o) ++ pending_request (s_input s')
  = pending_request ipc →
  op_wf o →
  reads (IStream (e_lines e) (e_end e)) "" (processed ++ unparsed s')
    (s_cin s') (s_command s') →
  ∃ ops', serial e ops' s'.
Proof.
  intros Hops Hfr Hwf Hcmd Ho Hfr' Hcmd' Hwfo Hreads. exists (ops ++ [o]).
  split_and!.
  - by rewrite apply_ops_snoc, Hops.
  - by rewrite frames_of_snoc, <-(assoc_L (++)), Hfr'.
  - apply Forall_app. by split; [|constructor].
  - exists processed. split; [done|].
    by rewrite requests_of_snoc, <-(assoc_L (++)), Hcmd'.
Qed.

(** What the atomic system keeps. *)
Definition serial_inv e a : Prop :=
  s_faceCascade a = e_faceCascade e ∧
  input_pc_wf (s_input a) ∧ input_pc_locked (s_input a) ∧
  (before_spawn (s_main a) = true → s_input a = INotStarted) ∧
  ∃ ops, serial e ops a.

Lemma serial_inv_init e : serial_inv e (init e).
Proof.
  split_and!; try done. exists []. split_and!; try done.
  exists []. split; [constructor|done].
Qed.

Lemma commands_parsed e ops s s' r :
  commands e ops s → s_input s = IParse →
  parse_command (s_command s) = Ok r →
  s_cin s' = s_cin s → s_command s' = s_command s →
  s_input s' = (if needs_lock r then ILock r else IPlain r) →
  commands e ops s'.
Proof.
  unfold commands, unparsed. intros (processed & Hrd & Hcmd) Hpc Hp Hcin Hc Hpc'.
  rewrite Hpc in *. rewrite Hpc', Hcin, Hc. exists (processed ++ [s_command s]).
  split; [by destruct (needs_lock r); rewrite app_nil_r|].
  rewrite omap_app, Hcmd. simpl. unfold locked_request. rewrite Hp.
  destruct (needs_lock r); simpl; by rewrite !app_nil_r.
Qed.

Lemma serial_inv_step e a t a' :
  serial_inv e a → atomic_thread_step t a = Some a' → serial_inv e a'.
Proof.
  unfold serial_inv, atomic_thread_step.
  intros (Hc & Hwf & Hlk & Hb & ops & Hops & Hfr & Hall & Hcmds) Hs.
  pose proof Hcmds as (processed & Hrd & Hcmd).
  destruct (s_status a) eqn:Hr; [|done..].
  destruct a as [sh w ? ? pc ipc ? ? casc ? ? cam ? cin c]; simpl in *; subst.
  destruct t.
  - unfold atomic_main_step in Hs. simpl in Hs.
    destruct pc; try (specialize (Hb eq_refl); subst ipc); main_step_inv Hs.
    all: split_and!; try done.
    all: try (exists ops; split_and!; try done; by exists processed).
    + by apply (serial_snoc e ops (OpPrint MsgCascadeError) sh w MLoad
                  INotStarted cam _ processed).
    + by apply (serial_snoc e ops (OpPrint MsgCameraError) sh w MOpen
                  INotStarted cam _ processed).
    + apply (serial_snoc e ops (OpFrame frame) sh w (MLock frame) ipc cam _
               processed); try done.
      simpl. by match goal with H : process_frame _ _ _ = _ |- _ => rewrite H end.
  - unfold atomic_input_step in Hs. simpl in Hs.
    destruct ipc; input_step_inv Hs.
    all: split_and!; eauto using parse_command_wf; try done.
    all: try (intros Hbs; by specialize (Hb Hbs)).
    all: try (exists ops; split_and!; try done; by exists processed).
    + by apply (serial_snoc e ops OpPrompt sh w pc IPrompt cam _
                  processed).
    + exists ops. split_and!; try done. exists processed. split; [|done].
      unfold unparsed in *. simpl in *. rewrite app_nil_r in Hrd.
      by eapply reads_snoc.
    + exists ops. split_and!; try done.
      by eapply commands_parsed; [done..|simpl; by case_match].
    + exists ops. split_and!; try done.
      by eapply commands_parsed; [done..|simpl; by case_match].
    + by apply (serial_snoc e ops (OpLocked r) sh w pc (ILock r) cam _ processed).
    + by apply (serial_snoc e ops (OpPrint MsgHelp) sh w pc (IPlain ReqHelp) cam _
                  processed).
    + by apply (serial_snoc e ops (OpPrint MsgUnknown) sh w pc (IPlain ReqUnknown)
                  cam _ processed).
Qed.

Lemma atomic_reachable_serial e a : atomic_reachable e a → serial_inv e a.
Proof.
  apply rtc_ind_r; [apply serial_inv_init|].
  intros a1 a2 _ [t Hs] IH. by eapply serial_inv_step.
Qed.

(** The atomic state that stands for a state outside the critical section
    of the capture loop has its operations. *)
Lemma serial_lower e ops s : serial e ops (lower s) → serial e ops s.
Proof.
  unfold serial, commands, unparsed, lower. simpl.
  intros (? & ? & ? & processed & Hrd & Hcmd). split_and!; try done.
  exists processed. by destruct (s_input s).
Qed.

Lemma reachable_serial e s :
  reachable e s → main_holds (s_main s) = false → ∃ ops, serial e ops s.
Proof.
  intros (a & Ha & Hsim)%reachable_simulates Hfree.
  unfold simulates in Hsim. rewrite Hfree in Hsim. subst a.
  destruct (atomic_reachable_serial e _ Ha) as (_ & _ & _ & _ & ops & Hser).
  exists ops. by apply serial_lower.
Qed.
End serial_lemmas.

(** ** Properties *)

Section serial_properties.
Context {V : VisionLib} {HO : Host}.
Implicit Types (s a : sys) (e : environment) (sh : shared) (w : world).

(** C4.  Serialisability: in every state of every run in which the capture
    loop is outside its critical section, the vector, the limit, the
    directory and the output are the result of whole operations applied one
    after another: the critical section on each frame the camera has
    delivered, in camera order, the [lock_guard] block of each command that
    was read, in input order, and the output statements. *)
Theorem serialisable e s :
  reachable e s → main_holds (s_main s) = false → ∃ ops, serial e ops s.
Proof. apply reachable_serial. Qed.

(** The commands among the operations are commands of the first strings
    [getline] delivers. *)
Theorem serial_requests e ops s :
  serial e ops s →
  ∃ n, requests_of ops `prefix_of`
         omap locked_request (getlines n (IStream (e_lines e) (e_end e)) "").
Proof.
  intros (_ & _ & _ & processed & Hrd & Hcmd).
  exists (length (processed ++ unparsed s)).
  rewrite (reads_getlines _ _ _ _ _ Hrd), omap_app, Hcmd, <-(assoc_L (++)).
  by apply prefix_app_r.
Qed.
End serial_properties.

(** ** The properties at concrete runs *)

Section serial_witnesses.
Import StubVision StubHost.

#[local] Abbreviation start := (init (V:=stub)).
#[local] Abbreviation sched := (run (V:=stub) (HO:=stub_host)).

Lemma serialisable_witness :
  ∃ ops, serial (HO:=stub_host) env_demo ops
           (sched (frame_done ++ replicate 5 TInput) (start env_demo)).
Proof.
  apply (serialisable (HO:=stub_host) env_demo);
    [apply reachable_run, reachable_init | done].
Defined.
End serial_witnesses.
