(* ===== verification/Stamps.v ===== *)
(** * Stamps: the time stamps in the names of the stored faces

    [saveCapturedFaces] names a file after the second in which it is
    written and the index of the face (src/compscifinal.cpp, lines 38-43),
    and [imwrite] replaces a file that has the name.  The command loop
    sleeps for a second before every prompt (line 122), so two [capture]
    commands read the clock at least a second apart.

    This file shows when that is enough.  On a host whose clock is never
    set back ([SteadyClock]) and in whose calendar no time comes twice
    ([PlainCalendar]), every file a [capture] writes is new: the directory
    grows by one file for each buffered face and every file that was there
    stays as it was, as long as no [rename] command gives a file the name
    of a stored face.  [Scenario] has the runs in which one of the two
    conditions fails and a capture replaces the file of another. *)

From stdpp Require Import relations.
From S2P Require Import Prelude CppString IStream Vision Shared Detect FileSystem.
From S2P Require Import Handlers CommandLoop System.

#[local] Open Scope Z_scope.

(** ** Definitions *)

Section stamps.
Context {V : VisionLib} {HO : Host}.
Implicit Types (s : sys) (e : environment) (w : world) (T : Z).

(** Every name of a stored face in the directory carries a time before
    the second [T]. *)
Definition stamped_before T w : Prop :=
  ∀ d t i, w_dir w = Some d →
    is_Some (d !! face_file_name (put_time t) i) → t < T.

(** A line that is not a [rename] command. *)
Definition no_rename (command : string) : Prop :=
  starts_with "rename " command = false.

(** Standard input without a [rename] command. *)
Definition never_renames (ins : istream) : Prop :=
  Forall no_rename (is_lines ins) ∧
  match is_end ins with StreamEof rest => no_rename rest | _ => True end.

(** The statements of a turn between the pause and the end of the
    handler. *)
Definition slept_turn (pc : input_pc) : bool :=
  match pc with
  | IGetline | IParse | ILock _ | IRun _ | IPlain _ => true
  | _ => false
  end.

(** The command a turn has accepted. *)
Definition pc_request (pc : input_pc) : option request :=
  match pc with ILock r | IRun r | IPlain r => Some r | _ => None end.

(** The invariant of a run without [rename]: no name in the directory is
    stamped later than the present second, and none with the present
    second once the command loop has slept and until its handler has
    run. *)
Definition stamps_inv s : Prop :=
  never_renames (s_cin s) ∧ no_rename (s_command s) ∧
  (∀ newName, pc_request (s_input s) ≠ Some (ReqRename newName)) ∧
  stamped_before
    (in_time_t (s_world s) + (if slept_turn (s_input s) then 0 else 1))
    (s_world s).
End stamps.

(** ** Time on a steady clock *)

Section steady.
Context {V : VisionLib} {HO : Host} `{!SteadyClock HO}.
Implicit Types (w : world) (T : Z) (faces : list Mat).

Lemma now_mono w w' :
  (w_ticks w ≤ w_ticks w')%nat → (w_slept w ≤ w_slept w')%nat → now w ≤ now w'.
Proof.
  intros Ht Hs. unfold now. pose proof (clock_mono _ _ Ht). lia.
Qed.

Lemma now_nonneg w : 0 ≤ now w.
Proof.
  unfold now. pose proof clock_epoch.
  pose proof (clock_mono 0 (w_ticks w) ltac:(lia)). lia.
Qed.

Lemma in_time_t_mono w w' :
  (w_ticks w ≤ w_ticks w')%nat → (w_slept w ≤ w_slept w')%nat →
  in_time_t w ≤ in_time_t w'.
Proof. intros. by apply to_time_t_mono, now_mono. Qed.

(** After the pause the clock shows a later second. *)
Lemma in_time_t_prompt w : in_time_t (prompt w) = in_time_t w + 1.
Proof.
  unfold in_time_t, now; simpl.
  rewrite Nat2Z.inj_add, Z.mul_add_distr_l, Z.add_assoc.
  rewrite (to_time_t_add _ 1) by (pose proof (now_nonneg w); unfold now in *; lia).
  done.
Qed.

Lemma stamped_before_mono T T' w :
  T ≤ T' → stamped_before T w → stamped_before T' w.
Proof. intros HT Hw d t i Hd Hin. specialize (Hw d t i Hd Hin). lia. Qed.

(** No name the loop is about to write is in a directory stamped before
    the present second. *)
Lemma saved_name_fresh w d i j :
  stamped_before (in_time_t w) w → w_dir w = Some d →
  d !! saved_name w i j = None.
Proof.
  intros Hw Hd. apply eq_None_not_Some. intros Hin%(Hw d _ _ Hd).
  pose proof (in_time_t_mono w (tick (2 * j) w)
                ltac:(simpl; lia) ltac:(simpl; lia)). lia.
Qed.
End steady.

(** ** [capture] on a steady clock and a plain calendar *)

Section fresh.
Context {V : VisionLib} {HO : Host} `{!SteadyClock HO} `{!PlainCalendar HO}.
Implicit Types (w : world) (T : Z) (faces : list Mat).

Lemma save_loop_in_time_t i faces w j :
  (j ≤ length faces)%nat →
  in_time_t (tick (2 * j) w) ≤ in_time_t (save_loop i faces w).
Proof.
  intros Hj. apply in_time_t_mono.
  - rewrite save_loop_ticks. simpl. lia.
  - by rewrite save_loop_slept.
Qed.

(** The names the loop writes carry the seconds in which it wrote them. *)
Lemma saved_name_stamp w i j t k :
  face_file_name (put_time t) k = saved_name w i j →
  t = in_time_t (tick (2 * j) w).
Proof. by intros Heq%face_file_name_inj_stamp%put_time_inj. Qed.

Lemma save_loop_fresh i faces w d :
  stamped_before (in_time_t w) w → w_dir w = Some d →
  ∃ d', w_dir (save_loop i faces w) = Some d' ∧ d ⊆ d' ∧
    size d' = (size d + length faces)%nat ∧
    stamped_before (in_time_t (save_loop i faces w) + 1) (save_loop i faces w).
Proof.
  intros Hw Hd.
  pose proof (λ j, saved_name_fresh w d i j Hw Hd) as Hfresh.
  destruct (save_loop_dir i faces w d Hd) as (d' & Hd' & _ & Hframe).
  { intros j _. unfold writable. by rewrite Hfresh. }
  destruct (save_loop_size i faces w d Hd) as (? & ? & Hsize); [done|].
  simplify_eq. exists d'. split_and!; [done| |done|].
  - apply map_subseteq_spec. intros name n Hn. rewrite Hframe; [done|].
    intros j _ ->. by rewrite Hfresh in Hn.
  - intros ? t k ? Hin. simplify_eq.
    destruct (decide (face_file_name (put_time t) k
                      ∈ saved_name w i <$> seq 0 (length faces)))
      as [(j & Hj & Hlt%elem_of_seq)%list_elem_of_fmap|Hnew].
    + apply saved_name_stamp in Hj as ->.
      pose proof (save_loop_in_time_t i faces w j). lia.
    + rewrite Hframe in Hin.
      * apply (Hw d _ _ Hd) in Hin.
        pose proof (save_loop_in_time_t i faces w 0 ltac:(lia)) as Hle.
        rewrite <-(in_time_t_mono w (tick (2 * 0) w)) in Hle by (simpl; lia). lia.
      * intros j Hj Heq. apply Hnew, list_elem_of_fmap. exists j.
        split; [done|]. apply elem_of_seq. lia.
Qed.
End fresh.

(** ** The invariant *)

Section invariant.
Context {V : VisionLib} {HO : Host} `{!SteadyClock HO} `{!PlainCalendar HO}.
Implicit Types (s : sys) (e : environment) (w : world) (T : Z) (r : request).

(** Worlds with the same directory at the same time. *)
Definition same_time w w' : Prop :=
  w_dir w' = w_dir w ∧ w_ticks w' = w_ticks w ∧ w_slept w' = w_slept w.

Lemma stamped_before_same T T' w w' :
  w_dir w' = w_dir w → T ≤ T' → stamped_before T w → stamped_before T' w'.
Proof.
  intros Hd HT Hw d t i Hd' Hin. rewrite Hd in Hd'.
  specialize (Hw d t i Hd' Hin). lia.
Qed.

Lemma same_time_in_time_t w w' : same_time w w' → in_time_t w' = in_time_t w.
Proof. intros (_ & Ht & Hs). unfold in_time_t, now. by rewrite Ht, Hs. Qed.

(** A statement that leaves the directory and the time as they are. *)
Lemma stamped_before_keep (b : bool) w w' :
  same_time w w' → stamped_before (in_time_t w + (if b then 0 else 1)) w →
  stamped_before (in_time_t w' + 1) w'.
Proof.
  intros Hsame. rewrite (same_time_in_time_t w w' Hsame).
  apply stamped_before_same; [apply Hsame|]. destruct b; lia.
Qed.

Lemma getline_never_renames ins str ins' str' :
  never_renames ins → no_rename str → getline ins str = Some (ins', str') →
  never_renames ins' ∧ no_rename str'.
Proof.
  destruct ins as [[|line lines] fin]; unfold never_renames; simpl.
  - destruct fin; intros [_ Hfin] Hstr [= <- <-]; by repeat constructor.
  - intros [[Hline Hlines]%Forall_cons Hfin] _ [= <- <-]. done.
Qed.

Lemma parse_command_no_rename command newName :
  no_rename command → parse_command command ≠ Ok (ReqRename newName).
Proof.
  intros Hc Hp%parse_command_Ok_inv. subst.
  unfold no_rename in Hc. by rewrite starts_with_app in Hc.
Qed.

(** What a handler other than [renameFile] leaves in the directory. *)
Lemma run_locked_stamped r sh w sh' w' :
  (∀ newName, r ≠ ReqRename newName) →
  run_locked r sh w = Ok (sh', w') →
  stamped_before (in_time_t w) w → stamped_before (in_time_t w' + 1) w'.
Proof.
  intros Hr Hrun Hw. unfold run_locked in Hrun.
  destruct r; simplify_eq/=; try (by destruct (Hr newName));
    try (eapply (stamped_before_keep true); [|rewrite Z.add_0_r; exact Hw];
         by repeat split).
  - destruct (w_dir w) as [d|] eqn:Hd.
    + by destruct (save_loop_fresh 0 (capturedFaces sh') w d Hw Hd)
        as (d' & Hd' & _ & _ & Hafter).
    + intros d t i Hd'. simpl in Hd'.
      by rewrite save_loop_missing in Hd'.
  - unfold clearCapturedFaces in Hrun. destruct (w_dir w) as [d|] eqn:Hd; [|done].
    simplify_eq/=. intros ? t i [= <-] [n Hn]. simpl.
    rewrite lookup_remove_regular_files in Hn.
    destruct (d !! face_file_name (put_time t) i) eqn:Hold; [|done].
    pose proof (Hw d t i Hd ltac:(eauto)).
    change (in_time_t (print _ (set_dir _ w))) with (in_time_t w). lia.
Qed.
End invariant.

Section invariant_steps.
Context {V : VisionLib} {HO : Host} `{!SteadyClock HO} `{!PlainCalendar HO}.
Implicit Types (s : sys) (e : environment) (w : world) (T : Z) (r : request).

(** The capture loop does not touch the directory, the clock or the
    command thread, which it starts at the test of its loop. *)
Lemma main_step_same_time s s' :
  mutex_inv s → main_step s = Some s' →
  same_time (s_world s) (s_world s') ∧
  slept_turn (s_input s') = slept_turn (s_input s) ∧
  pc_request (s_input s') = pc_request (s_input s) ∧
  s_cin s' = s_cin s ∧ s_command s' = s_command s.
Proof.
  intros (_ & _ & Hb) Hs.
  destruct s as [sh w ? ? pc ipc ? ? casc ? ? cam ? cin c]; simpl in *.
  destruct pc; try (specialize (Hb eq_refl); subst ipc); main_step_inv Hs;
    by repeat split.
Qed.

Lemma stamps_inv_main s s' :
  mutex_inv s → stamps_inv s → main_step s = Some s' → stamps_inv s'.
Proof.
  intros Hm (Hcin & Hc & Hr & Hw) Hs.
  destruct (main_step_same_time s s' Hm Hs) as (Hsame & Hsl & Hpc & Hcin' & Hc').
  unfold stamps_inv. rewrite Hsl, Hpc, Hcin', Hc'. split_and!; [done..|].
  rewrite (same_time_in_time_t _ _ Hsame).
  eapply stamped_before_same; [apply Hsame|reflexivity|done].
Qed.

Lemma stamps_inv_input s s' :
  stamps_inv s → input_step s = Some s' → stamps_inv s'.
Proof.
  unfold stamps_inv. intros (Hcin & Hc & Hr & Hw) Hs.
  destruct s as [sh w ? ? pc ipc ? ? casc ? ? cam ? cin c]; simpl in *.
  destruct ipc; input_step_inv Hs; simpl in *; split_and!; try done.
  all: try (by eapply (stamped_before_keep false); [by repeat split|]).
  all: try (by eapply (stamped_before_keep true); [by repeat split|]).
  all: try (by edestruct getline_never_renames as [? ?]).
  all: try (intros newName [= ->]; by eapply parse_command_no_rename).
  - rewrite in_time_t_prompt, Z.add_0_r.
    by eapply stamped_before_same; [| |exact Hw].
  - rewrite Z.add_0_r in Hw. eapply run_locked_stamped; [|done..].
    intros newName ->. by apply (Hr newName).
Qed.

Lemma stamps_inv_step s t s' :
  mutex_inv s → stamps_inv s → thread_step t s = Some s' → stamps_inv s'.
Proof.
  intros Hm Hinv Hs. revert s t s' Hs Hm Hinv.
  apply (thread_step_cases (λ s s', _ → _ → _));
    eauto using stamps_inv_main, stamps_inv_input.
Qed.
End invariant_steps.

(** ** Properties *)

Section stamps_properties.
Context {V : VisionLib} {HO : Host} `{!SteadyClock HO} `{!PlainCalendar HO}.
Implicit Types (s : sys) (e : environment) (w : world) (faces : list Mat).

Lemma reachable_stamps_inv e s :
  never_renames (IStream (e_lines e) (e_end e)) →
  stamped_before (in_time_t (s_world (init e)) + 1) (s_world (init e)) →
  reachable e s → stamps_inv s.
Proof.
  intros Hlines Hdir. apply reachable_inv; [done|].
  intros s1 t s2 Hr%reachable_mutex_inv. by apply stamps_inv_step.
Qed.

(** [capture] in a directory stamped before the present second stores
    every face of the buffer in a file of its own and replaces none. *)
Theorem saveCapturedFaces_fresh faces directory w d :
  stamped_before (in_time_t w) w → w_dir w = Some d →
  ∃ d', w_dir (saveCapturedFaces faces directory w) = Some d' ∧ d ⊆ d' ∧
        size d' = (size d + length faces)%nat.
Proof.
  intros Hw Hd.
  destruct (save_loop_fresh 0 faces w d Hw Hd) as (d' & Hd' & Hsub & Hsize & _).
  by exists d'.
Qed.

(** C10.  On a host whose clock is never set back and in whose calendar no
    time comes twice, a [capture] command never replaces a file: when
    standard input has no [rename] command and the directory the program
    starts with holds no face stamped later than the start, the handler
    leaves every file of the directory as it was and adds one file for
    each face of the buffer. *)
Theorem capture_keeps_files e s s' d :
  never_renames (IStream (e_lines e) (e_end e)) →
  stamped_before (in_time_t (s_world (init e)) + 1) (s_world (init e)) →
  reachable e s → s_input s = IRun ReqCapture →
  thread_step TInput s = Some s' → w_dir (s_world s) = Some d →
  ∃ d', w_dir (s_world s') = Some d' ∧ d ⊆ d' ∧
        size d' = (size d + length (capturedFaces (s_shared s)))%nat.
Proof.
  intros Hlines Hdir Hr Hpc Hs Hd.
  destruct (reachable_stamps_inv e s Hlines Hdir Hr) as (_ & _ & _ & Hw).
  unfold thread_step in Hs. destruct (s_status s); [|done..].
  unfold input_step, run_locked in Hs. rewrite Hpc in Hw, Hs. simpl in Hw, Hs.
  rewrite Z.add_0_r in Hw. simplify_eq/=.
  by apply (saveCapturedFaces_fresh _ dataDirectory).
Qed.
End stamps_properties.

(** ** The properties at a concrete run *)

Section stamps_witnesses.
Import StubVision StubHost.

(** A frame with two faces and the command [capture]. *)
Definition env_capture : environment (V:=stub) :=
  Env (V:=stub) two_faces true true [frame0] [] ["capture"] (Some ∅) StreamOpen.

(** The capture loop up to [imshow], then the command thread up to the
    handler. *)
Definition at_capture : sys (V:=stub) :=
  run (HO:=stub_host) (replicate 10 TMain ++ replicate 5 TInput)
    (init env_capture).

Lemma stamped_before_empty T (w : world (V:=stub)) :
  w_dir w = Some ∅ → stamped_before (HO:=stub_host) T w.
Proof. intros Hw d t i Hd [n Hn]. by simplify_eq. Qed.

Lemma capture_keeps_files_witness :
  ∃ d', w_dir (s_world (run (HO:=stub_host) [TInput] at_capture)) = Some d' ∧
        (∅ : gmap string (node smat)) ⊆ d' ∧ size d' = 1%nat.
Proof.
  destruct (capture_keeps_files (HO:=stub_host) env_capture at_capture
              (run (HO:=stub_host) [TInput] at_capture) ∅)
    as (d' & Hd' & Hsub & Hsize).
  - split; [by repeat constructor|done].
  - by apply stamped_before_empty.
  - apply reachable_run, reachable_init.
  - by vm_compute.
  - done.
  - by vm_compute.
  - exists d'. split_and!; [done..|]. rewrite Hsize. by vm_compute.
Defined.
End stamps_witnesses.
