(* ===== verification/Display.v ===== *)
(** * Display: the viewer of [show] on the main queue

    [showCapturedFaces] (src/compscifinal.cpp, lines 61-68) displays
    nothing itself: it gives one block per buffered face to
    [dispatch_async] on the main queue and returns.  The body of a block is
    lines 63-64: [imshow] of the loop variable [face], a reference to a slot
    of the vector, and [waitKey(0)], which returns when a key is pressed.

    The blocks are run by the platform, not by the program.  The main
    queue is serial: it runs its blocks one after the other, in the order
    in which they were submitted, on the main thread, when the main thread
    serves its run loop.  The only call of [main] that does so is [waitKey]
    (line 181).  [ui_step] adds this to the system of [System]: besides the
    two threads there is the actor [ABlock], which starts the next pending
    block when [main] is in [waitKey] ([imshow], line 63) and which ends the
    block that runs when a key is pressed (line 64).  While a block runs the
    main thread executes no statement of [main].  The model lets [waitKey]
    return before it has served every pending block; a run in which the
    queue is served at once is one of its runs.

    A block displays what its slot holds when the block runs ([view]): the
    face that was buffered when [show] was called, a face of a later frame,
    or nothing that exists ([Dangling]) when the vector has become shorter.
    The results of [waitKey] the environment supplies are the polls of the
    keyboard: a poll without a key press is -1, which [waitKey(0)] passes
    over ([next_key]).  Storage of the vector that [push_back] moves is not
    modelled: a slot is a position.

    The invariants of [System] hold in the system with the viewer
    ([ui_reachable_inv], [ui_mutual_exclusion]) and every run of the two
    threads is a run of it ([reachable_ui]).  [drain_fifo] is what serving
    the queue does: the blocks run in the order of submission and each
    shows its slot, so [show] followed by the service of the queue displays
    the buffer ([show_displays_buffer]).  [viewer_waits] is the wait of
    line 64: until a key is pressed the capture loop reads no frame, while
    the command thread goes on.  [block_unlocked] is the access of line 63,
    by the main thread, without the mutex. *)

From stdpp Require Import relations.
From S2P Require Import Prelude CppString IStream Vision Shared Detect.
From S2P Require Import FileSystem Handlers CommandLoop System Race.

#[local] Open Scope Z_scope.

(** ** Definitions *)

(** Who takes a step: a thread, or the main queue. *)
Inductive actor : Type :=
  | AThread (t : tid)
  | ABlock.

#[global] Instance actor_eq_dec : EqDecision actor.
Proof. solve_decision. Defined.

(** [waitKey(0)], line 64: the next key press.  The entries below zero are
    polls that saw no key. *)
Fixpoint next_key (keys : list Z) : option (Z * list Z) :=
  match keys with
  | [] => None
  | key :: keys => if bool_decide (0 ≤ key) then Some (key, keys) else next_key keys
  end.

(** The key presses among the results of [waitKey]. *)
Definition key_presses (keys : list Z) : nat :=
  length (filter (λ key, 0 ≤ key) keys).

(** What is left of the keys after [n] calls of [waitKey(0)]. *)
Fixpoint after_keys (n : nat) (keys : list Z) : list Z :=
  match n with
  | O => keys
  | S n =>
      match next_key keys with
      | Some (_, keys) => after_keys n keys
      | None => keys
      end
  end.

Section display.
Context {V : VisionLib} {HO : Host}.

(** What the viewer window shows: a face, or the slot of a vector that
    has no such slot any more. *)
Inductive viewed : Type :=
  | Viewed (face : Mat)
  | Dangling (slot : nat).

(** The reference [face] of line 62, read when the block runs (line 63). *)
Definition view (slot : nat) (capturedFaces : list Mat) : viewed :=
  match capturedFaces !! slot with
  | Some face => Viewed face
  | None => Dangling slot
  end.

Definition set_queue (queue : list nat) (w : world) : world :=
  World (w_dir w) (w_ticks w) (w_slept w) queue (w_out w).

(** The system with the viewer: the state of the two threads, what the
    viewer has shown, and whether the main thread is inside a block. *)
Record ui : Type := Ui {
  u_sys : sys;
  u_viewer : list viewed;
  u_block : bool;
}.

(** What a step of the main queue changes of the state of the threads:
    the pending blocks and the keys. *)
Definition served (queue : list nat) (keys : list Z) (s : sys) : sys :=
  set_keys keys (set_world (set_queue queue (s_world s)) s).

(** Lines 63-64.  The block that runs ends when a key is pressed; when no
    block runs and [main] is in [waitKey], the next block starts and shows
    its slot. *)
Definition block_step (u : ui) : option ui :=
  let s := u_sys u in
  if u_block u then
    '(_, keys) ← next_key (s_keys s);
    Some (Ui (served (w_queue (s_world s)) keys s) (u_viewer u) false)
  else
    match s_main s, w_queue (s_world s) with
    | MWaitKey, slot :: queue =>
        Some (Ui (served queue (s_keys s) s)
                 (u_viewer u ++ [view slot (capturedFaces (s_shared s))]) true)
    | _, _ => None
    end.

(** A statement of a thread: the main thread executes none while it is
    inside a block. *)
Definition ui_thread_step (t : tid) (u : ui) : option ui :=
  if bool_decide (t = TMain) && u_block u then None
  else s ← thread_step t (u_sys u); Some (Ui s (u_viewer u) (u_block u)).

Definition ui_step (a : actor) (u : ui) : option ui :=
  match a with
  | AThread t => ui_thread_step t u
  | ABlock =>
      match s_status (u_sys u) with
      | Running => block_step u
      | _ => None
      end
  end.

Definition ui_init (e : environment) : ui := Ui (init e) [] false.

Definition ui_reachable (e : environment) (u : ui) : Prop :=
  rtc (λ u u', ∃ a, ui_step a u = Some u') (ui_init e) u.

(** A schedule names who steps next; who cannot step is passed over. *)
Fixpoint ui_run (schedule : list actor) (u : ui) : ui :=
  match schedule with
  | [] => u
  | a :: schedule => ui_run schedule (default u (ui_step a u))
  end.

(** The service of a queue of [n] blocks: each block starts and ends. *)
Definition drain (n : nat) : list actor := replicate (2 * n) ABlock.

(** The access of the statement the main queue is at: line 63 reads the
    slot of the vector. *)
Definition block_access (u : ui) : list (var * access) :=
  if u_block u then []
  else
    match s_main (u_sys u), w_queue (s_world (u_sys u)) with
    | MWaitKey, _ :: _ => [(VCapturedFaces, AccLoad)]
    | _, _ => []
    end.

(** The main queue and the command thread are at accesses to [v], and one
    of the accesses is a write. *)
Definition ui_race (v : var) (u : ui) : Prop :=
  s_status (u_sys u) = Running ∧
  ∃ a b, (v, a) ∈ block_access u ∧ (v, b) ∈ input_access (u_sys u) ∧
    (a = AccStore ∨ b = AccStore).

(** The main thread serves the queue and no block runs: the next pending
    block can start. *)
Definition ready (u : ui) : Prop :=
  s_status (u_sys u) = Running ∧ s_main (u_sys u) = MWaitKey ∧ u_block u = false.

(** While a block runs [main] is in the call of [waitKey] that serves the
    queue. *)
Definition block_inv (u : ui) : Prop :=
  u_block u = true → s_main (u_sys u) = MWaitKey.
End display.

(** ** Lemmas *)

(** *** Keys *)

Lemma next_key_presses keys key keys' :
  next_key keys = Some (key, keys') → key_presses keys = S (key_presses keys').
Proof.
  unfold key_presses. induction keys as [|k keys IH]; simpl; [done|].
  rewrite filter_cons. case_bool_decide; case_decide; try lia; [|done].
  by intros [= _ ->].
Qed.

Lemma next_key_None keys : next_key keys = None ↔ key_presses keys = 0%nat.
Proof.
  unfold key_presses. induction keys as [|k keys IH]; simpl; [done|].
  rewrite filter_cons. by case_bool_decide; case_decide; try lia.
Qed.

Lemma next_key_is_Some keys :
  (0 < key_presses keys)%nat → is_Some (next_key keys).
Proof.
  intros Hk. destruct (next_key keys) eqn:Hn; [done|].
  apply next_key_None in Hn. lia.
Qed.

Lemma after_keys_presses n keys :
  (n ≤ key_presses keys)%nat →
  key_presses (after_keys n keys) = (key_presses keys - n)%nat.
Proof.
  revert keys. induction n as [|n IH]; intros keys Hn; simpl; [lia|].
  destruct (next_key_is_Some keys) as [[key keys'] Hk]; [lia|]. rewrite Hk.
  apply next_key_presses in Hk. rewrite IH; lia.
Qed.

Section display_lemmas.
Context {V : VisionLib} {HO : Host}.
Implicit Types (s : sys) (e : environment) (t : tid) (u : ui) (a : actor).

(** *** Slots *)

Lemma view_slots (front faces : list Mat) :
  (λ slot, view slot (front ++ faces)) <$> seq (length front) (length faces)
  = Viewed <$> faces.
Proof.
  revert front. induction faces as [|face faces IH]; intros front; simpl; [done|].
  f_equal.
  - unfold view. by rewrite list_lookup_middle.
  - rewrite (assoc_L (++) front [face] faces : front ++ face :: faces = _).
    specialize (IH (front ++ [face])). by rewrite length_app, Nat.add_1_r in IH.
Qed.

(** The blocks of [show] display the buffer when it has not changed. *)
Lemma view_buffer (faces : list Mat) :
  (λ slot, view slot faces) <$> seq 0 (length faces) = Viewed <$> faces.
Proof. apply (view_slots []). Qed.

(** *** Steps *)

Lemma ui_thread_step_Some t u u' :
  ui_thread_step t u = Some u' →
  ∃ s', thread_step t (u_sys u) = Some s' ∧ u' = Ui s' (u_viewer u) (u_block u) ∧
        (t = TMain → u_block u = false).
Proof.
  unfold ui_thread_step. case_bool_decide; destruct (u_block u) eqn:Hb; simpl;
    try done; destruct (thread_step t (u_sys u)) as [s'|]; simpl; try done;
    intros [= <-]; exists s'; by rewrite ?Hb.
Qed.

Lemma block_step_Some u u' :
  block_step u = Some u' →
  (u_block u = true ∧ u_block u' = false ∧ u_viewer u' = u_viewer u ∧
   ∃ key keys, next_key (s_keys (u_sys u)) = Some (key, keys) ∧
     u_sys u' = served (w_queue (s_world (u_sys u))) keys (u_sys u))
  ∨ (u_block u = false ∧ u_block u' = true ∧ s_main (u_sys u) = MWaitKey ∧
     ∃ slot queue, w_queue (s_world (u_sys u)) = slot :: queue ∧
       u_viewer u' = u_viewer u ++ [view slot (capturedFaces (s_shared (u_sys u)))] ∧
       u_sys u' = served queue (s_keys (u_sys u)) (u_sys u)).
Proof.
  unfold block_step. destruct (u_block u) eqn:Hb.
  - destruct (next_key _) as [[key keys]|] eqn:Hk; simpl; [|done].
    intros [= <-]. left. naive_solver.
  - destruct (s_main (u_sys u)) eqn:Hpc; try done.
    destruct (w_queue _) as [|slot queue] eqn:Hq; [done|].
    intros [= <-]. right. naive_solver.
Qed.

(** A relation that the steps of the threads and of the main queue
    establish. *)
Lemma ui_step_cases (R : ui → ui → Prop) :
  (∀ u t s', thread_step t (u_sys u) = Some s' → (t = TMain → u_block u = false) →
     R u (Ui s' (u_viewer u) (u_block u))) →
  (∀ u u', s_status (u_sys u) = Running → block_step u = Some u' → R u u') →
  ∀ a u u', ui_step a u = Some u' → R u u'.
Proof.
  intros Ht Hb [t|] u u' Hs; simpl in Hs.
  - apply ui_thread_step_Some in Hs as (s' & Hs & -> & Hm). by apply (Ht u t).
  - destruct (s_status (u_sys u)) eqn:Hst; [|done..]. by apply Hb.
Qed.

(** The main queue changes the pending blocks and the keys and nothing
    else of the state of the threads. *)
Lemma block_step_served u u' :
  block_step u = Some u' → ∃ queue keys, u_sys u' = served queue keys (u_sys u).
Proof. intros [(_ & _ & _ & ? & ? & _ & ->)|(_ & _ & _ & ? & ? & _ & _ & ->)]%block_step_Some; eauto. Qed.

(** *** Reachability *)

Lemma ui_reachable_init e : ui_reachable e (ui_init e).
Proof. apply rtc_refl. Qed.

Lemma ui_reachable_step e u a u' :
  ui_reachable e u → ui_step a u = Some u' → ui_reachable e u'.
Proof. intros Hr Hs. eapply rtc_r; [done|]. by exists a. Qed.

Lemma ui_reachable_run e schedule u :
  ui_reachable e u → ui_reachable e (ui_run schedule u).
Proof.
  revert u. induction schedule as [|a schedule IH]; intros u Hr; simpl; [done|].
  apply IH. destruct (ui_step a u) eqn:Hs; simpl; [|done].
  by eapply ui_reachable_step.
Qed.

Lemma ui_run_cons a schedule u u' :
  ui_step a u = Some u' → ui_run (a :: schedule) u = ui_run schedule u'.
Proof. simpl. by intros ->. Qed.

Lemma ui_run_app sch1 sch2 u :
  ui_run (sch1 ++ sch2) u = ui_run sch2 (ui_run sch1 u).
Proof. revert u. induction sch1; intros u; simpl; [done|]. apply IHsch1. Qed.

(** Induction on the steps of a run. *)
Lemma ui_reachable_ind (P : ui → Prop) e :
  P (ui_init e) →
  (∀ u a u', ui_reachable e u → P u → ui_step a u = Some u' → P u') →
  ∀ u, ui_reachable e u → P u.
Proof.
  intros Hi Hs. apply rtc_ind_r; [done|].
  intros u1 u2 Hr [a Ha] IH. by eapply Hs.
Qed.

(** An invariant of the two threads that does not read the main queue and
    the keys is an invariant of the system with the viewer. *)
Lemma ui_reachable_inv (I : sys → Prop) e :
  I (init e) →
  (∀ s t s', I s → thread_step t s = Some s' → I s') →
  (∀ s queue keys, I s → I (served queue keys s)) →
  ∀ u, ui_reachable e u → I (u_sys u).
Proof.
  intros Hi Ht Hb. apply ui_reachable_ind; [done|]. intros u a u' _ HI Hs.
  revert a u u' Hs HI. apply (ui_step_cases (λ u u', _ → _)).
  - intros u t s' Hs _ HI. by eapply Ht.
  - intros u u' _ (queue & keys & ->)%block_step_served HI. by apply Hb.
Qed.

Lemma ui_reachable_mutex_inv e u : ui_reachable e u → mutex_inv (u_sys u).
Proof.
  apply (ui_reachable_inv mutex_inv); [done| |done].
  intros s t s'. apply mutex_inv_step.
Qed.

(** The command thread changes nothing the capture loop owns. *)
Lemma input_step_main_fields s s' :
  input_step s = Some s' →
  s_main s' = s_main s ∧ s_keys s' = s_keys s ∧ s_camera s' = s_camera s ∧
  s_display s' = s_display s.
Proof.
  intros Hs. destruct s as [? ? ? ? ? pc ? ? ? ? ? ? ? ? ?]; simpl in *.
  by destruct pc; input_step_inv Hs.
Qed.

Lemma ui_reachable_block_inv e u : ui_reachable e u → block_inv u.
Proof.
  revert u. apply ui_reachable_ind; [done|]. intros u a u' _ HI Hs.
  revert a u u' Hs HI.
  apply (ui_step_cases (λ u u', block_inv u → block_inv u')); unfold block_inv; simpl.
  - intros u [|] s' Hs Hm HI Hb; [by rewrite Hm in Hb|].
    unfold thread_step in Hs. destruct (s_status (u_sys u)); [|done..].
    apply input_step_main_fields in Hs as (-> & _). by apply HI.
  - intros u u' _ [(_ & Hb' & _)|(_ & _ & Hpc & ? & ? & _ & _ & Hs)]%block_step_Some _ Hb;
      [congruence|]. by rewrite Hs.
Qed.
End display_lemmas.

(** *** The service of the queue *)

Section display_drain.
Context {V : VisionLib} {HO : Host}.
Implicit Types (s : sys) (e : environment) (t : tid) (u : ui) (a : actor).

Lemma drain_S n : drain (S n) = ABlock :: ABlock :: drain n.
Proof. unfold drain. by replace (2 * S n)%nat with (S (S (2 * n))) by lia. Qed.

Lemma block_start u slot queue :
  ready u → w_queue (s_world (u_sys u)) = slot :: queue →
  ui_step ABlock u =
    Some (Ui (served queue (s_keys (u_sys u)) (u_sys u))
             (u_viewer u ++ [view slot (capturedFaces (s_shared (u_sys u)))]) true).
Proof.
  intros (Hst & Hpc & Hb) Hq. unfold ui_step, block_step.
  by rewrite Hst, Hb, Hpc, Hq.
Qed.

Lemma block_end u key keys :
  s_status (u_sys u) = Running → u_block u = true →
  next_key (s_keys (u_sys u)) = Some (key, keys) →
  ui_step ABlock u =
    Some (Ui (served (w_queue (s_world (u_sys u))) keys (u_sys u)) (u_viewer u) false).
Proof.
  intros Hst Hb Hk. unfold ui_step, block_step. by rewrite Hst, Hb, Hk.
Qed.

(** One block from its start to the key press that ends it. *)
Lemma run_block u slot queue key keys :
  ready u →
  w_queue (s_world (u_sys u)) = slot :: queue →
  next_key (s_keys (u_sys u)) = Some (key, keys) →
  ui_run [ABlock; ABlock] u =
    Ui (served queue keys (u_sys u))
       (u_viewer u ++ [view slot (capturedFaces (s_shared (u_sys u)))]) false.
Proof.
  intros Hu Hq Hk. rewrite (ui_run_cons _ _ _ _ (block_start u slot queue Hu Hq)).
  destruct Hu as (Hst & _). by erewrite ui_run_cons by by eapply block_end.
Qed.

Lemma served_nil u :
  w_queue (s_world (u_sys u)) = [] → u_block u = false →
  u = Ui (served [] (s_keys (u_sys u)) (u_sys u)) (u_viewer u ++ []) false.
Proof.
  destruct u as [[? [? ? ? ? ?] ? ? ? ? ? ? ? ? ? ? ? ? ?] ? ?]; simpl.
  intros -> ->. by rewrite app_nil_r.
Qed.

Lemma drain_queue u queue :
  ready u →
  w_queue (s_world (u_sys u)) = queue →
  (length queue ≤ key_presses (s_keys (u_sys u)))%nat →
  ui_run (drain (length queue)) u =
    Ui (served [] (after_keys (length queue) (s_keys (u_sys u))) (u_sys u))
       (u_viewer u ++
          ((λ slot, view slot (capturedFaces (s_shared (u_sys u)))) <$> queue))
       false.
Proof.
  revert u. induction queue as [|slot queue IH]; intros u Hu Hq Hlen.
  { apply served_nil; [done|]. apply Hu. }
  simpl in Hlen. destruct (next_key_is_Some (s_keys (u_sys u))) as [[key keys] Hk]; [lia|].
  cbn [length]. rewrite drain_S.
  change (ABlock :: ABlock :: ?l) with ([ABlock; ABlock] ++ l).
  rewrite ui_run_app, (run_block u slot queue key keys Hu Hq Hk).
  destruct Hu as (Hst & Hpc & Hb).
  rewrite IH; simpl; [|done|done|].
  - rewrite Hk. by rewrite <-(assoc_L (++)).
  - apply next_key_presses in Hk. lia.
Qed.
End display_drain.

(** ** Properties *)

Section display_properties.
Context {V : VisionLib} {HO : Host}.
Implicit Types (s : sys) (e : environment) (t : tid) (u : ui) (a : actor).

(** C0.  Every run of the two threads is a run of the system with the
    viewer, in which no block has run. *)
Theorem reachable_ui e s : reachable e s → ui_reachable e (Ui s [] false).
Proof.
  revert s. apply reachable_inv; [apply ui_reachable_init|].
  intros s t s' _ Hu Hs. apply (ui_reachable_step _ _ (AThread t) _ Hu).
  unfold ui_step, ui_thread_step; simpl. rewrite andb_false_r, Hs. done.
Qed.

(** C0.  Mutual exclusion holds with the viewer: in every state at most
    one thread is inside a critical section and [dataMutex] is owned by that
    thread; and while a block runs the main thread is in [waitKey] and does
    not own the mutex. *)
Theorem ui_mutual_exclusion e u :
  ui_reachable e u →
  match s_mutex (u_sys u) with
  | None => main_holds (s_main (u_sys u)) = false ∧ input_holds (s_input (u_sys u)) = false
  | Some TMain => main_holds (s_main (u_sys u)) = true ∧ input_holds (s_input (u_sys u)) = false
                  ∧ u_block u = false
  | Some TInput => main_holds (s_main (u_sys u)) = false ∧ input_holds (s_input (u_sys u)) = true
  end.
Proof.
  intros Hu. pose proof (ui_reachable_block_inv e u Hu) as Hb.
  apply ui_reachable_mutex_inv in Hu as (Hm & Hx & _). rewrite Hm.
  destruct (main_holds _) eqn:Hh, (input_holds _); try done.
  split_and!; [done..|]. destruct (u_block u) eqn:Hu; [|done].
  by rewrite (Hb Hu) in Hh.
Qed.

(** C0.  [show] displays the buffer when the queue is served before the
    buffer changes: with [main] in [waitKey], no block pending and a key
    press for every face, the handler and the service of the queue show the
    buffered faces in the order of the vector, one per key press, and leave
    the buffer as it was. *)
Theorem show_displays_buffer u :
  ready u → s_input (u_sys u) = IRun ReqShow → w_queue (s_world (u_sys u)) = [] →
  let faces := capturedFaces (s_shared (u_sys u)) in
  (length faces ≤ key_presses (s_keys (u_sys u)))%nat →
  let u' := ui_run (AThread TInput :: drain (length faces)) u in
  u_viewer u' = u_viewer u ++ (Viewed <$> faces) ∧
  w_queue (s_world (u_sys u')) = [] ∧ u_block u' = false ∧
  s_shared (u_sys u') = s_shared (u_sys u) ∧
  key_presses (s_keys (u_sys u')) = (key_presses (s_keys (u_sys u)) - length faces)%nat.
Proof.
  intros (Hst & Hpc & Hb) Hi Hq faces Hlen.
  set (u1 := Ui (set_shared (s_shared (u_sys u))
                   (set_world (showCapturedFaces faces (s_world (u_sys u)))
                      (set_input IUnlock (u_sys u)))) (u_viewer u) false).
  assert (ui_step (AThread TInput) u = Some u1) as Hs.
  { unfold ui_step, ui_thread_step, thread_step, input_step; simpl.
    by rewrite Hst, Hi, Hb. }
  intros u'. subst u'. rewrite (ui_run_cons _ _ _ _ Hs).
  pose proof (drain_queue u1 (seq 0 (length faces))) as Hd.
  rewrite length_seq in Hd. rewrite Hd; simpl.
  - rewrite view_buffer. split_and!; try done. by apply after_keys_presses.
  - done.
  - unfold showCapturedFaces. simpl. by rewrite Hq.
  - done.
Qed.

(** A step while a block waits for a key that does not come. *)
Lemma viewer_waits_step a u u' :
  u_block u = true → key_presses (s_keys (u_sys u)) = 0%nat →
  ui_step a u = Some u' →
  u_block u' = true ∧ u_viewer u' = u_viewer u ∧
  s_keys (u_sys u') = s_keys (u_sys u) ∧ s_main (u_sys u') = s_main (u_sys u) ∧
  s_camera (u_sys u') = s_camera (u_sys u) ∧
  s_display (u_sys u') = s_display (u_sys u).
Proof.
  intros Hb Hk Hs. revert a u u' Hs Hb Hk.
  apply (ui_step_cases (λ u u', u_block u = true → _ → _)).
  - intros u [|] s' Hs Hm Hb _; [by rewrite Hm in Hb|]. simpl.
    unfold thread_step in Hs. destruct (s_status (u_sys u)); [|done..].
    by apply input_step_main_fields in Hs as (-> & -> & -> & ->).
  - intros u u' _ [(_ & _ & _ & ? & ? & Hn & _)|(Hb' & _)]%block_step_Some Hb Hk;
      [|congruence].
    apply next_key_None in Hk. congruence.
Qed.

(** C0.  The viewer waits for its key: while a block runs and no key is
    pressed, whatever the schedule, the main thread executes no statement,
    so no frame is read and none is shown, and the block stays on the
    screen. *)
Theorem viewer_waits schedule u :
  u_block u = true → key_presses (s_keys (u_sys u)) = 0%nat →
  let u' := ui_run schedule u in
  u_block u' = true ∧ u_viewer u' = u_viewer u ∧
  s_main (u_sys u') = s_main (u_sys u) ∧
  s_camera (u_sys u') = s_camera (u_sys u) ∧
  s_display (u_sys u') = s_display (u_sys u).
Proof.
  revert u. induction schedule as [|a schedule IH]; intros u Hb Hk; simpl; [done|].
  destruct (ui_step a u) as [u1|] eqn:Hs; simpl; [|by apply IH].
  destruct (viewer_waits_step a u u1 Hb Hk Hs) as (Hb1 & <- & Hk1 & <- & <- & <-).
  apply IH; [done|]. by rewrite Hk1.
Qed.

(** The statement of line 63 reads the vector on the main thread, which
    does not hold the mutex: the mutex is free or the command thread owns
    it. *)
Theorem block_unlocked e u v (x : access) :
  ui_reachable e u → (v, x) ∈ block_access u →
  guarded v = true ∧ holds TMain (u_sys u) = false ∧
  s_mutex (u_sys u) ≠ Some TMain.
Proof.
  intros Hu Hin. unfold block_access in Hin.
  destruct (u_block u); [by apply elem_of_nil in Hin|].
  destruct (s_main (u_sys u)) eqn:Hpc; try by apply elem_of_nil in Hin.
  destruct (w_queue _); [by apply elem_of_nil in Hin|].
  apply list_elem_of_singleton in Hin as [= -> ->].
  apply ui_reachable_mutex_inv in Hu as (Hm & _). simpl.
  rewrite Hm, Hpc. simpl. split_and!; [done..|]. by destruct (input_holds _).
Qed.
End display_properties.

(** ** Runs on the stub library *)

Section display_witnesses.
Import StubVision StubHost.

#[local] Abbreviation start := (ui_init (V:=stub)).
#[local] Abbreviation sched := (ui_run (V:=stub) (HO:=stub_host)).

(** Two frames with two faces each, the limit raised to 2, [show], [clear],
    and two key presses. *)
Definition env_show : environment (V:=stub) :=
  Env (V:=stub) two_faces true true [frame0; frame0] [32; 32]
      ["setmax 2"; "show"; "clear"] (Some ∅) StreamOpen.

(** One turn of the command thread for a command that takes the mutex. *)
Definition command_turn : list actor := replicate 8 (AThread TInput).

(** [main] up to [waitKey] after the first frame, with [setmax 2] before
    the frame is read; then [show]. *)
Definition to_show : list actor :=
  replicate 3 (AThread TMain) ++ command_turn ++ replicate 9 (AThread TMain)
  ++ command_turn.

(** The first block starts, [clear] runs while it waits, a key ends it and
    the second block starts. *)
Definition show_clear : list actor :=
  to_show ++ [ABlock] ++ command_turn ++ [ABlock; ABlock].

(** The first block has ended, the second is the next to start, and the
    command thread is at the handler of [clear]. *)
Definition show_clearing : list actor :=
  to_show ++ [ABlock] ++ replicate 5 (AThread TInput) ++ [ABlock].

(** The first block runs and no key is pressed. *)
Definition env_no_key : environment (V:=stub) :=
  Env (V:=stub) two_faces true true [frame0; frame0] [-1; -1]
      ["setmax 2"; "show"; "clear"] (Some ∅) StreamOpen.

Lemma reachable_ui_witness :
  ui_reachable (HO:=stub_host) env_show
    (Ui (run (HO:=stub_host) [TMain; TMain] (init env_show)) [] false).
Proof. apply reachable_ui, reachable_run, reachable_init. Defined.

Lemma ui_mutual_exclusion_witness :
  let u := sched show_clearing (start env_show) in
  main_holds (s_main (u_sys u)) = false ∧ input_holds (s_input (u_sys u)) = true.
Proof.
  apply (ui_mutual_exclusion (HO:=stub_host) env_show
           (sched show_clearing (start env_show))).
  apply ui_reachable_run, ui_reachable_init.
Defined.

(** [main] is in [waitKey] after the first frame and the command thread is
    at the handler of [show]. *)
Definition at_show : ui (V:=stub) :=
  sched (replicate 3 (AThread TMain) ++ command_turn ++ replicate 9 (AThread TMain)
         ++ replicate 5 (AThread TInput)) (start env_show).

Lemma show_displays_buffer_witness :
  let u' := sched (AThread TInput :: drain 2) at_show in
  u_viewer u' = [Viewed img_a; Viewed img_b] ∧
  w_queue (s_world (u_sys u')) = [] ∧ u_block u' = false ∧
  s_shared (u_sys u') = s_shared (u_sys at_show) ∧
  key_presses (s_keys (u_sys u')) = 0%nat.
Proof.
  apply (show_displays_buffer (HO:=stub_host) at_show); by vm_compute.
Defined.

Lemma viewer_waits_witness :
  let u := sched (to_show ++ [ABlock]) (start env_no_key) in
  let u' := sched [AThread TMain; ABlock; AThread TInput; AThread TMain] u in
  u_block u' = true ∧ u_viewer u' = u_viewer u ∧
  s_main (u_sys u') = s_main (u_sys u) ∧
  s_camera (u_sys u') = s_camera (u_sys u) ∧
  s_display (u_sys u') = s_display (u_sys u).
Proof.
  apply (viewer_waits (HO:=stub_host)
           [AThread TMain; ABlock; AThread TInput; AThread TMain]
           (sched (to_show ++ [ABlock]) (start env_no_key))); by vm_compute.
Defined.

(** C0.  The viewer shows a slot that no longer exists: [show] submits
    the blocks of two faces, the first block shows its face and waits,
    [clear] empties the vector, a key ends the first block, and the second
    block reads slot 1 of an empty vector. *)
Theorem viewer_dangling :
  let u := sched show_clear (start env_show) in
  ui_reachable (HO:=stub_host) env_show u ∧
  u_viewer u = [Viewed img_a; Dangling 1] ∧
  capturedFaces (s_shared (u_sys u)) = [] ∧
  s_status (u_sys u) = Running.
Proof.
  split; [apply ui_reachable_run, ui_reachable_init|]. by vm_compute.
Qed.

(** C0.  The viewer reads the vector while the command thread writes it:
    the run reaches a state in which the second block of [show] is about to
    read its slot on the main thread, without the mutex, while the command
    thread owns the mutex and is about to clear the vector. *)
Theorem viewer_race :
  let u := sched show_clearing (start env_show) in
  ui_reachable (HO:=stub_host) env_show u ∧
  ui_race VCapturedFaces u ∧ s_mutex (u_sys u) = Some TInput.
Proof.
  split; [apply ui_reachable_run, ui_reachable_init|]. split; [|by vm_compute].
  split; [by vm_compute|]. exists AccLoad, AccStore.
  split_and!; [| |by right].
  - replace (block_access _) with [(VCapturedFaces, AccLoad)] by by vm_compute.
    apply list_elem_of_here.
  - replace (input_access _) with [(VCapturedFaces, AccStore)] by by vm_compute.
    apply list_elem_of_here.
Qed.
End display_witnesses.
