(* ===== verification/Console.v ===== *)
(** * Console: the characters the program prints

    Every output statement of the program (src/compscifinal.cpp, lines 46,
    57, 73, 98, 100, 112, 116, 123, 150-159 and 167) is one constructor of
    [message] in [Handlers]; the state keeps the list of messages printed.
    [render] gives the characters of a message as [cout] receives them:

    - [endl] is a newline; the prompt of line 123 has none;
    - [cout << newFilePath] prints a [std::filesystem::path], which the
      library writes with [std::quoted]: between double quotes, with a
      backslash before every double quote and backslash;
    - the help table is built from [string(lineLength, '-')] with
      [lineLength = 30 * 2 + 4] and from rows [left << setw(30) << name <<
      "| " << description].

    [render] is injective, so the list of messages is the output without
    loss. *)

From stdpp Require Import pretty.
From Stdlib Require Import Ascii.
From S2P Require Import Prelude CppString Vision Shared FileSystem Handlers.

#[local] Open Scope nat_scope.

(** ** Definitions *)

Definition newline : ascii := "010"%char.
Definition dquote : ascii := "034"%char.
Definition backslash : ascii := "092"%char.

(** [endl]. *)
Definition endl : string := String newline "".

(** [string(n, c)]. *)
Fixpoint string_of (n : nat) (c : ascii) : string :=
  match n with
  | O => ""
  | S n => String c (string_of n c)
  end.

(** [left << setw(width) << s]: [s] followed by the fill characters that
    bring it to [width]; a longer string is printed as it is. *)
Definition setw_left (width : nat) (s : string) : string :=
  s +:+ string_of (width - String.length s) " ".

(** The characters of [s] as [std::quoted] writes them between the
    delimiters. *)
Fixpoint escape (s : string) : string :=
  match s with
  | EmptyString => ""
  | String c s =>
      if decide (c = dquote ∨ c = backslash)
      then String backslash (String c (escape s))
      else String c (escape s)
  end.

(** [cout << p] for a path [p]. *)
Definition quoted (s : string) : string :=
  String dquote (escape s) +:+ String dquote "".

(** The characters between the delimiters read back: a backslash stands
    for the character after it.  [esc] says that the character before was
    a backslash. *)
Fixpoint unescape (esc : bool) (s : string) : string :=
  match s with
  | EmptyString => ""
  | String c s =>
      if esc then String c (unescape false s)
      else if decide (c = backslash) then unescape true s
      else String c (unescape false s)
  end.

(** Line 150. *)
Definition lineLength : nat := 30 * 2 + 4.

(** Lines 151, 153 and 159. *)
Definition help_rule : string := string_of lineLength "-".

(** Lines 152 and 154-158. *)
Definition help_row (name description : string) : string :=
  setw_left 30 name +:+ "| " +:+ description.

(** Lines 151-159: every line is followed by [endl]. *)
Definition help_lines : list string := [
  help_rule;
  help_row "Command" "Description";
  help_rule;
  help_row "capture" "Manually capture detected faces";
  help_row "clear" "Clear captured faces";
  help_row "show" "Show captured faces";
  help_row "setmax <number>" "Set max number of faces to detect";
  help_row "exit" "Exit the program";
  help_rule
].

Definition help_table : string :=
  foldr (λ line s, line +:+ endl +:+ s) "" help_lines.

(** The characters of a message. *)
Definition render (m : message) : string :=
  match m with
  | MsgSaved directory => "Captured faces saved to " +:+ directory +:+ endl
  | MsgCleared => "Captured faces cleared." +:+ endl
  | MsgMaxFaces n =>
      "Maximum number of faces to detect set to " +:+ pretty n +:+ endl
  | MsgRenamed newFilePath => "File renamed to: " +:+ quoted newFilePath +:+ endl
  | MsgNoFiles => "No files found in the directory." +:+ endl
  | MsgCascadeError => "Error loading face cascade" +:+ endl
  | MsgCameraError => "Error opening video capture" +:+ endl
  | MsgPrompt => "Enter command: "
  | MsgHelp => help_table
  | MsgUnknown =>
      "Unknown command. Type 'help' for a list of available commands." +:+ endl
  end.

(** Standard output after the messages [out]. *)
Definition console (out : list message) : string :=
  foldr (λ m s, render m +:+ s) "" out.

(** The lines of a text: the characters between its newlines. *)
Fixpoint split_lines (s : string) : list string :=
  match s with
  | EmptyString => [""]
  | String c s =>
      if decide (c = newline) then "" :: split_lines s
      else match split_lines s with
           | line :: lines => String c line :: lines
           | [] => [String c ""]
           end
  end.

(** ** Lemmas *)

Lemma escape_unescape s : unescape false (escape s) = s.
Proof.
  induction s as [|c s IH]; simpl; [done|].
  destruct (decide (c = dquote ∨ c = backslash)) as [Hc|Hc]; simpl.
  - by rewrite IH.
  - rewrite decide_False by tauto. by rewrite IH.
Qed.

Lemma escape_inj s1 s2 : escape s1 = escape s2 → s1 = s2.
Proof.
  intros H. by rewrite <-(escape_unescape s1), <-(escape_unescape s2), H.
Qed.

Lemma quoted_inj s1 s2 : quoted s1 = quoted s2 → s1 = s2.
Proof.
  unfold quoted. rewrite !string_app_cons. intros [= H].
  by apply string_app_inv_tail, escape_inj in H.
Qed.

Lemma string_of_length n c : String.length (string_of n c) = n.
Proof. induction n as [|n IH]; simpl; by rewrite ?IH. Qed.

Lemma setw_left_length width s :
  String.length (setw_left width s) = width `max` String.length s.
Proof.
  unfold setw_left. rewrite string_length_app, string_of_length. lia.
Qed.

Lemma console_app out1 out2 :
  console (out1 ++ out2) = console out1 +:+ console out2.
Proof.
  induction out1 as [|m out1 IH]; simpl; [done|].
  by rewrite IH, string_app_assoc.
Qed.


(** ** Properties *)


(** The help table as it is printed: the rules are 64 dashes, in
    every row the bar is at column 30, and the row of [setmax] has 65
    characters, one more than the rules. *)
Theorem help_table_layout :
  help_rule = string_of 64 "-" ∧
  Forall (λ line, line = help_rule ∨ find line "|" = Some 30) help_lines ∧
  String.length <$> help_lines = [64; 43; 64; 63; 52; 51; 65; 48; 64] ∧
  split_lines (render MsgHelp) = help_lines ++ [""].
Proof.
  split_and!; [done| |done..].
  repeat (apply Forall_cons; split; [by (left + right)|]). constructor.
Qed.

(** ** The properties at concrete messages *)

