(* ===== verification/Scenario.v ===== *)
(** * Scenario: runs of the whole program on the stub library

    The runs below execute the transition system of [System] on the stub
    instance of the vision library: frames are records of their size and
    of the operations applied to them, and the classifier returns a fixed
    list of regions.  Four hosts supply the clock and the calendar:
    [stub_host], whose clock advances by a quarter of a second with every
    reading and whose time stamp is the count of seconds; [set_back_host],
    whose clock is set back by two seconds after the second reading;
    [utc_host], the clock of [stub_host] with the calendar of [Calendar] in
    UTC; and [autumn_host], Central European time on the night summer time
    ends, with an hour between the second and the third reading.

    [end_to_end] is the run of the behavioural description: a frame with
    two faces under the initial limit, [capture], [setmax 2], the same frame
    again, [capture], [clear]; [end_to_end_transcript] is what the terminal
    shows of it.  The other theorems exhibit runs in which the program
    departs from its description, and runs after the end of standard
    input. *)

From stdpp Require Import relations.
From S2P Require Import Prelude CppString IStream Vision Shared Detect.
From S2P Require Import FileSystem Handlers CommandLoop System Atomic Snapshot.
From S2P Require Import Console Calendar.

#[local] Open Scope Z_scope.

(** ** A host whose clock is set back *)

Module SetBackHost.
Import StubHost.


End SetBackHost.

(** ** A host on the night summer time ends *)

Module AutumnHost.

(** The first reading a second before 02:30:00, Central European summer
    time, on 29 October 2023; the third reading an hour after the second,
    less the seconds the command loop sleeps between them. *)
Definition autumn_clock (n : nat) : Z :=
  if decide (n < 2)%nat then 1698539399000000 + 250000 * Z.of_nat n
  else 1698542997000000 + 250000 * Z.of_nat (n - 2).

#[export] Instance autumn_host : Host := calendar_host autumn_clock cet_2023.

#[export] Instance autumn_steady : SteadyClock autumn_host.
Proof.
  apply calendar_steady; [done|]. intros m n Hmn. unfold autumn_clock.
  repeat case_decide; lia.
Qed.
End AutumnHost.

(** ** Runs *)

Section scenario.
Import StubVision StubHost SetBackHost UtcHost AutumnHost.

#[local] Abbreviation start := (init (V:=stub)).

(** The number of entries of the capture directory. *)
Definition files (s : sys (V:=stub)) : option nat :=
  size <$> w_dir (s_world s).

(** The length of the buffer. *)
Definition buffered (s : sys (V:=stub)) : nat :=
  length (capturedFaces (s_shared s)).

(** One turn of the command thread for a command that takes the mutex. *)
Definition turn : list tid := replicate 8 TInput.
(** The capture loop from [imshow] of one frame to [imshow] of the next,
    for a frame of which two faces are buffered. *)
Definition next_frame : list tid := replicate 10 TMain.

(** Two frames with two faces each, and the commands of the description. *)
Definition env_spec : environment (V:=stub) :=
  Env (V:=stub) two_faces true true [frame0; frame0] []
      ["capture"; "setmax 2"; "capture"; "clear"] (Some ∅) StreamOpen.

Definition spec_schedule : list (list tid) :=
  [frame_done; turn; turn; next_frame; turn; turn].

(** The observations after each part of a schedule. *)
Fixpoint observe `{HO : Host} (parts : list (list tid)) (s : sys (V:=stub))
    : list (nat * option nat * Z) :=
  match parts with
  | [] => []
  | part :: parts =>
      let s := run part s in
      (buffered s, files s, maxFaces (s_shared s)) :: observe parts s
  end.

(** The number of faces a processed frame leaves in the buffer. *)
Definition result_length (r : outcome (smat * shared (V:=stub))) : nat :=
  match r with Ok (_, sh) => length (capturedFaces sh) | Throw _ => 0 end.

(** Three faces in every frame, and a single command. *)
Definition three_faces : list Rect := [face_a; face_b; mkRect 100 100 40 40].

Definition env_three (line : string) : environment (V:=stub) :=
  Env (V:=stub) three_faces true true [frame0] [] [line] (Some ∅) StreamOpen.

(** One frame, and standard input that ends after the given lines and the
    characters [rest]. *)
Definition env_input (keys : list Z) (lines : list string) (fin : stream_end)
    : environment (V:=stub) :=
  Env (V:=stub) two_faces true true [frame0] keys lines (Some ∅) fin.

(** The output of a state. *)
Definition output (s : sys (V:=stub)) : list message := w_out (s_world s).

End scenario.

(** ** Properties *)

Section scenario_properties.
Import StubVision StubHost SetBackHost UtcHost AutumnHost.

#[local] Abbreviation start := (init (V:=stub)).




(** The directory after the second [capture] of the run of the
    behavioural description, in UTC, as [dir_list] lists it: the file of
    the first capture, and the two of the second, whose faces were written
    in different seconds. *)
Theorem end_to_end_names :
  (from_option dir_list [] (w_dir (s_world
     (run (HO:=utc_host) (concat (take 5 spec_schedule)) (start env_spec))))).*1
  = ["face_2023-11-14_22-13-23_0.png"; "face_2023-11-14_22-13-21_0.png";
     "face_2023-11-14_22-13-24_1.png"].
Proof. by vm_compute. Qed.



(** Inside the critical section of the capture loop the buffer is
    not a snapshot: with three faces per frame and the limit 3, the state
    after two iterations of the loop of [detectFaces] holds two faces, which
    is the result of no frame under any limit that was set. *)
Theorem torn_state_reachable :
  let e := env_three "setmax 3" in
  let s := run (HO:=stub_host) (to_read ++ turn ++ replicate 6 TMain) (start e) in
  reachable (HO:=stub_host) e s ∧ s_mutex s = Some TMain ∧
  ¬ snapshot e (s_world s) (s_shared s).
Proof.
  split; [apply reachable_run, reachable_init|]. split; [by vm_compute|].
  intros [_ [Hnil|(frame & m & frame' & Hf & Hm & Hp)]]; [by vm_compute in Hnil|].
  apply list_elem_of_singleton in Hf as ->. apply (f_equal result_length) in Hp.
  vm_compute in Hm. apply elem_of_cons in Hm as [->|Hm].
  { by vm_compute in Hp. }
  apply list_elem_of_singleton in Hm as ->. by vm_compute in Hp.
Qed.

(** What the terminal shows of the run of the behavioural
    description: after each prompt the line the command prints. *)
Theorem end_to_end_transcript :
  split_lines (console (output
    (run (HO:=stub_host) (concat spec_schedule) (start env_spec))))
  = ["Enter command: Captured faces saved to " +:+ dataDirectory;
     "Enter command: Maximum number of faces to detect set to 2";
     "Enter command: Captured faces saved to " +:+ dataDirectory;
     "Enter command: Captured faces cleared.";
     ""].
Proof. by vm_compute. Qed.

(** Standard input that ends after [capture] without a newline: the
    command thread executes [capture] in every turn, and every turn adds a
    file to the directory. *)
Theorem eof_repeats_capture :
  observe (HO:=stub_host) [frame_done; turn; turn; turn]
    (start (env_input [] [] (StreamEof "capture")))
  = [(1%nat, Some 0%nat, 1); (1%nat, Some 1%nat, 1); (1%nat, Some 2%nat, 1);
     (1%nat, Some 3%nat, 1)].
Proof. by vm_compute. Qed.

(** Standard input that ends after the line [capture]: the first
    turn executes [capture], and every later turn finds [command] empty and
    reports an unknown command. *)
Theorem eof_unknown_forever :
  output (run (HO:=stub_host) (frame_done ++ turn ++ replicate 12 TInput)
            (start (env_input [] ["capture"] (StreamEof ""))))
  = [MsgPrompt; MsgSaved dataDirectory; MsgPrompt; MsgUnknown;
     MsgPrompt; MsgUnknown].
Proof. by vm_compute. Qed.

(** ESC ends the program when standard input has ended: the command
    thread finds the flag set at its next test, [join] returns and [main]
    returns 0. *)
Theorem esc_ends_after_eof :
  let s := run (HO:=stub_host) (frame_done ++ replicate 6 TInput ++ replicate 2 TMain
                                ++ [TInput; TMain; TMain])
             (start (env_input [KEY_ESC] [] (StreamEof ""))) in
  s_status s = Exited 0 ∧ output s = [MsgPrompt; MsgUnknown].
Proof. by vm_compute. Qed.

(** ESC does not end the program while the command thread waits for
    a line on a terminal: [main] waits in [join] with the flag set and no
    thread can step until a line is typed. *)
Theorem esc_waits_for_line :
  let e := env_input [KEY_ESC] [] StreamOpen in
  let s := run (HO:=stub_host) (frame_done ++ replicate 3 TInput ++ replicate 2 TMain)
             (start e) in
  reachable (HO:=stub_host) e s ∧ s_status s = Running ∧ s_stop s = true ∧
  s_main s = MJoin ∧ s_input s = IGetline ∧
  ∀ t, thread_step (HO:=stub_host) t s = None.
Proof.
  split; [apply reachable_run, reachable_init|].
  split_and!; try by vm_compute. by intros [].
Qed.
End scenario_properties.
